(** * KGrip: the job queue (queue.js) and the measurement controller (main.js)

    A shallow embedding of the two stateful parts of the repository.

    - [Queue] follows [class JobQueue] of queue.js.  The object's fields are
      the record [JobQueue]; what the event loop holds for it (the clock, the
      live timers, the suspended [_executeJob] calls and the continuations of
      [_process] that wait behind an [await]) is the record [World].
    - [Grip] follows the controller: the module-level variables of the main
      script are the record [State], its functions are state transformers.

    Numbers are [Z] where the code counts or compares integers and [Q]
    elsewhere: a decimal of big.js is the rational it denotes, and so is a
    JavaScript number, a binary double. *)

From Stdlib Require Import ZArith List Bool Lia String QArith Qabs Qround Lqa.
From Stdlib Require Import Sorted Permutation.
Import ListNotations.
Open Scope Z_scope.

(** JavaScript's [x || d] on a numeric option: [undefined] and [0] are falsy. *)
Definition js_or (o : option Z) (d : Z) : Z :=
  match o with
  | Some v => if v =? 0 then d else v
  | None => d
  end.

(** Node's [setTimeout] replaces a delay below 1 ms or above 2^31-1 by 1 ms. *)
Definition timer_delay (d : Z) : Z :=
  if (d <? 1) || (2147483647 <? d) then 1 else d.

Module Queue.

(** ** Data *)

Inductive Status := delayed | pending | processing | completed | failed.

Definition Status_eqb (a b : Status) : bool :=
  match a, b with
  | delayed, delayed | pending, pending | processing, processing
  | completed, completed | failed, failed => true
  | _, _ => false
  end.

(** The job object built by [add].  [data], [createdAt], [startedAt], [error]
    and [result] are carried by the code but never read by the queue. *)
Record Job := mkJob {
  id : nat;
  type : string;
  priority : Z;
  attempts : Z;
  maxAttempts : Z;
  timeout : Z;
  delay : Z;
  status : Status
}.

Definition set_status (st : Status) (j : Job) : Job :=
  mkJob (id j) (type j) (priority j) (attempts j) (maxAttempts j)
        (timeout j) (delay j) st.

Definition set_delay (d : Z) (j : Job) : Job :=
  mkJob (id j) (type j) (priority j) (attempts j) (maxAttempts j)
        (timeout j) d (status j).

Definition incr_attempts (j : Job) : Job :=
  mkJob (id j) (type j) (priority j) (attempts j + 1) (maxAttempts j)
        (timeout j) (delay j) (status j).

Record Stats := mkStats { st_completed : Z; st_failed : Z; st_retried : Z }.

(** The fields the constructor sets.  [handlers] is the key set of the
    handler [Map]: what a handler does is decided by the environment. *)
Record JobQueue := mkQueue {
  concurrency : Z;
  retryDelay : Z;
  defaultTimeout : Z;
  jobs : list Job;
  running : Z;
  paused : bool;
  handlers : list string;
  stats : Stats
}.

Record Options := mkOptions {
  o_concurrency : option Z;
  o_retryDelay : option Z;
  o_timeout : option Z
}.

Record JobOptions := mkJobOptions {
  o_priority : option Z;
  o_maxAttempts : option Z;
  o_jobTimeout : option Z;
  o_delay : option Z
}.

(** The events the queue emits, stamped with the time of emission. *)
Inductive Emitted :=
| job_added (i : nat)
| job_start (i : nat) (attempt : Z)
| job_completed (i : nat)
| job_failed (i : nat)
| job_retry (i : nat)
| queue_paused
| queue_resumed
| queue_cleared.

(** What a live timer will run. *)
Inductive Callback :=
| cb_delayed (job : Job)   (* the arrow function of [add] for a delayed job *)
| cb_process.              (* [() => this._process()] of the retry branch *)

(** How the race of the handler against the timeout promise ends. *)
Inductive Outcome := resolved | rejected | timed_out.

(** The queue object and the part of the event loop that belongs to it.
    [_generateId] joins the time and a random string; ids are taken to be
    distinct and jobs are numbered in the order of their [add].  What a
    handler does when it is called belongs to the environment: it returns
    a promise, which the race settles later, or it throws before
    returning one ([throwing]); at most one handler is called in a turn of
    the loop. *)
Record World := mkWorld {
  queue : JobQueue;
  now : Z;                          (* the clock, ms *)
  nextId : nat;                     (* the id of the next job *)
  timers : list (Z * Callback);     (* due time, callback *)
  awaiting : list (Job * Z);        (* the job a suspended [_executeJob] holds, and
                                       the time at which its timeout rejects *)
  continuations : nat;              (* [_process] calls suspended before [finally] *)
  emitted : list (Z * Emitted);     (* newest first *)
  throwing : bool                   (* the next handler call throws before it
                                       returns a promise *)
}.

Definition with_queue (f : JobQueue -> JobQueue) (w : World) : World :=
  mkWorld (f (queue w)) (now w) (nextId w) (timers w) (awaiting w)
          (continuations w) (emitted w) (throwing w).

Definition set_jobs (l : list Job) (q : JobQueue) : JobQueue :=
  mkQueue (concurrency q) (retryDelay q) (defaultTimeout q) l (running q)
          (paused q) (handlers q) (stats q).

Definition set_running (r : Z) (q : JobQueue) : JobQueue :=
  mkQueue (concurrency q) (retryDelay q) (defaultTimeout q) (jobs q) r
          (paused q) (handlers q) (stats q).

Definition set_paused (b : bool) (q : JobQueue) : JobQueue :=
  mkQueue (concurrency q) (retryDelay q) (defaultTimeout q) (jobs q)
          (running q) b (handlers q) (stats q).

Definition set_handlers (h : list string) (q : JobQueue) : JobQueue :=
  mkQueue (concurrency q) (retryDelay q) (defaultTimeout q) (jobs q)
          (running q) (paused q) h (stats q).

Definition set_stats (s : Stats) (q : JobQueue) : JobQueue :=
  mkQueue (concurrency q) (retryDelay q) (defaultTimeout q) (jobs q)
          (running q) (paused q) (handlers q) s.

Definition emit (e : Emitted) (w : World) : World :=
  mkWorld (queue w) (now w) (nextId w) (timers w) (awaiting w)
          (continuations w) ((now w, e) :: emitted w) (throwing w).

Definition setTimeout (cb : Callback) (d : Z) (w : World) : World :=
  mkWorld (queue w) (now w) (nextId w)
          (timers w ++ [(now w + timer_delay d, cb)])
          (awaiting w) (continuations w) (emitted w) (throwing w).

Definition set_timers (t : list (Z * Callback)) (w : World) : World :=
  mkWorld (queue w) (now w) (nextId w) t (awaiting w) (continuations w)
          (emitted w) (throwing w).

Definition set_awaiting (a : list (Job * Z)) (w : World) : World :=
  mkWorld (queue w) (now w) (nextId w) (timers w) a (continuations w)
          (emitted w) (throwing w).

Definition set_continuations (c : nat) (w : World) : World :=
  mkWorld (queue w) (now w) (nextId w) (timers w) (awaiting w) c (emitted w)
          (throwing w).

Definition set_now (t : Z) (w : World) : World :=
  mkWorld (queue w) t (nextId w) (timers w) (awaiting w) (continuations w)
          (emitted w) (throwing w).

Definition set_nextId (n : nat) (w : World) : World :=
  mkWorld (queue w) (now w) n (timers w) (awaiting w) (continuations w)
          (emitted w) (throwing w).

Definition set_throwing (b : bool) (w : World) : World :=
  mkWorld (queue w) (now w) (nextId w) (timers w) (awaiting w)
          (continuations w) (emitted w) b.

(** ** The methods of [JobQueue] *)

(** [constructor(options)] *)
Definition new (o : Options) : JobQueue :=
  mkQueue (js_or (o_concurrency o) 1)
          (js_or (o_retryDelay o) 1000)
          (js_or (o_timeout o) 30000)
          [] 0 false [] (mkStats 0 0 0).

Definition init (o : Options) : World :=
  mkWorld (new o) 0 0 [] [] 0 [] false.

(** [_insertJob(job)]: splice before the first job of lower priority, push
    when there is none. *)
Fixpoint _insertJob (job : Job) (l : list Job) : list Job :=
  match l with
  | [] => [job]
  | x :: rest =>
      if priority x <? priority job then job :: x :: rest
      else x :: _insertJob job rest
  end.

(** [_removeJob(jobId)]: [findIndex] then [splice(index, 1)]. *)
Fixpoint _removeJob (jobId : nat) (l : list Job) : list Job :=
  match l with
  | [] => []
  | x :: rest =>
      if Nat.eqb (id x) jobId then rest else x :: _removeJob jobId rest
  end.

(** A write through the reference a closure holds on a job object: the
    object is the entry of [jobs] with that id, when it is still there. *)
Fixpoint update_job (jobId : nat) (f : Job -> Job) (l : list Job) : list Job :=
  match l with
  | [] => []
  | x :: rest =>
      if Nat.eqb (id x) jobId then f x :: rest
      else x :: update_job jobId f rest
  end.

(** [update_job] seen from one job. *)
Definition upd (i : nat) (f : Job -> Job) (j : Job) : Job :=
  if Nat.eqb (id j) i then f j else j.

Definition is_pending (j : Job) : bool := Status_eqb (status j) pending.
Definition is_processing (j : Job) : bool := Status_eqb (status j) processing.

Definition getJob (jobId : nat) (q : JobQueue) : option Job :=
  find (fun j => Nat.eqb (id j) jobId) (jobs q).

Definition has_handler (t : string) (q : JobQueue) : bool :=
  existsb (String.eqb t) (handlers q).

Definition bump_failed (s : Stats) : Stats :=
  mkStats (st_completed s) (st_failed s + 1) (st_retried s).
Definition bump_completed (s : Stats) : Stats :=
  mkStats (st_completed s + 1) (st_failed s) (st_retried s).
Definition bump_retried (s : Stats) : Stats :=
  mkStats (st_completed s) (st_failed s) (st_retried s + 1).

(** [_executeJob(job)] after the race has settled: the rest of the [try]
    block on success, the [catch] block otherwise.  [job] is the object the
    suspended call holds; its writes reach [jobs] while the object is still
    in the array. *)
Definition _executeJob_settle (job : Job) (o : Outcome) (w : World) : World :=
  let jobId := id job in
  let w :=
    match o with
    | resolved =>
        let w := with_queue (fun q => set_jobs (update_job jobId (set_status completed) (jobs q)) q) w in
        let w := with_queue (fun q => set_stats (bump_completed (stats q)) q) w in
        let w := emit (job_completed jobId) w in
        with_queue (fun q => set_jobs (_removeJob jobId (jobs q)) q) w
    | _ =>
        if attempts job <? maxAttempts job then
          let w := with_queue (fun q => set_jobs (update_job jobId (set_status pending) (jobs q)) q) w in
          let w := with_queue (fun q => set_stats (bump_retried (stats q)) q) w in
          let w := emit (job_retry jobId) w in
          let d := retryDelay (queue w) * 2 ^ (attempts job - 1) in
          setTimeout cb_process d w
        else
          let w := with_queue (fun q => set_jobs (update_job jobId (set_status failed) (jobs q)) q) w in
          let w := with_queue (fun q => set_stats (bump_failed (stats q)) q) w in
          let w := emit (job_failed jobId) w in
          with_queue (fun q => set_jobs (_removeJob jobId (jobs q)) q) w
    end in
  set_continuations (S (continuations w)) w.

(** [_executeJob(job)] up to its first [await].  Without a handler the job
    fails at once and the call returns, so that the caller's [await]
    resumes in a later microtask; with a handler the attempt is counted and
    the handler called.  When it returns a promise the call is suspended
    on the race.  When it throws, the [catch] block runs at once, as for a
    rejected race, and the call returns; the caller's [await] resumes in
    a later microtask, as after any return.  The timeout promise of the
    attempt has been created and is left unraced: when its timer fires the
    rejection reaches no handler and touches no field of the queue.  A
    host that stops on an unhandled rejection ends the run there, and a
    run that ends early is a prefix of a run of this model. *)
Definition _executeJob_begin (job : Job) (w : World) : World :=
  if negb (has_handler (type job) (queue w)) then
    let w := with_queue (fun q => set_jobs (update_job (id job) (set_status failed) (jobs q)) q) w in
    let w := with_queue (fun q => set_stats (bump_failed (stats q)) q) w in
    let w := emit (job_failed (id job)) w in
    let w := with_queue (fun q => set_jobs (_removeJob (id job) (jobs q)) q) w in
    set_continuations (S (continuations w)) w
  else
    let w := with_queue (fun q => set_jobs (update_job (id job) incr_attempts (jobs q)) q) w in
    let job := incr_attempts (set_status processing job) in
    if throwing w then _executeJob_settle job rejected w
    else set_awaiting (awaiting w ++ [(job, now w + timer_delay (timeout job))]) w.

(** [_process()] up to its [await]. *)
Definition _process (w : World) : World :=
  let q := queue w in
  if paused q || (concurrency q <=? running q) then w
  else
    match find is_pending (jobs q) with
    | None => w
    | Some job =>
        let w := with_queue (fun q => set_jobs (update_job (id job) (set_status processing) (jobs q)) q) w in
        let w := with_queue (fun q => set_running (running q + 1) q) w in
        let w := emit (job_start (id job) (attempts job)) w in
        _executeJob_begin job w
    end.

(** The [finally] block of [_process], run when its [await] resumes. *)
Definition _process_finally (w : World) : World :=
  let w := with_queue (fun q => set_running (running q - 1) q) w in
  _process w.

(** The job object [add] builds. *)
Definition new_job (t : string) (o : JobOptions) (w : World) : Job :=
  mkJob (nextId w) t (js_or (o_priority o) 0) 0
        (js_or (o_maxAttempts o) 1)
        (js_or (o_jobTimeout o) (defaultTimeout (queue w)))
        (js_or (o_delay o) 0) pending.

(** [add(jobType, data, options)] *)
Definition add (t : string) (o : JobOptions) (w : World) : World :=
  let job := new_job t o w in
  let w := set_nextId (S (nextId w)) w in
  let w :=
    if 0 <? delay job then
      setTimeout (cb_delayed (set_status delayed job)) (delay job) w
    else
      _process (with_queue (fun q => set_jobs (_insertJob job (jobs q)) q) w) in
  emit (job_added (id job)) w.

(** What the timer of a delayed job writes to it. *)
Definition ready (job : Job) : Job := set_delay 0 (set_status pending job).

(** The timer callback of a delayed job. *)
Definition delayed_ready (job : Job) (w : World) : World :=
  _process (with_queue (fun q => set_jobs (_insertJob (ready job) (jobs q)) q) w).

(** [process(jobType, handler)] *)
Definition process (t : string) (w : World) : World :=
  with_queue (fun q => set_handlers (t :: handlers q)  q) w.

Definition pause (w : World) : World :=
  emit queue_paused (with_queue (set_paused true) w).

Definition resume (w : World) : World :=
  _process (emit queue_resumed (with_queue (set_paused false) w)).

Definition clear (w : World) : World :=
  emit queue_cleared (with_queue (set_jobs []) w).

(** ** The event loop around the queue *)

Inductive Event :=
| e_process (t : string)
| e_add (t : string) (o : JobOptions)
| e_pause
| e_resume
| e_clear
| e_advance (dt : Z)                 (* time passes *)
| e_timer (n : nat)                  (* the n-th live timer fires *)
| e_settle (jobId : nat) (o : Outcome)  (* a race settles *)
| e_microtask                        (* a suspended [_process] resumes *)
| e_throwing (b : bool).             (* the environment settles how the next
                                       handler call ends *)

Fixpoint remove_nth {A} (n : nat) (l : list A) : list A :=
  match n, l with
  | _, [] => []
  | O, _ :: rest => rest
  | S n, x :: rest => x :: remove_nth n rest
  end.

Fixpoint remove_awaiting (jobId : nat) (l : list (Job * Z)) : list (Job * Z) :=
  match l with
  | [] => []
  | (j, t) :: rest =>
      if Nat.eqb (id j) jobId then rest else (j, t) :: remove_awaiting jobId rest
  end.

Definition find_awaiting (jobId : nat) (l : list (Job * Z)) : option (Job * Z) :=
  find (fun p => Nat.eqb (id (fst p)) jobId) l.

(** One turn of the loop; [None] when the event cannot happen in [w]. *)
Definition step (e : Event) (w : World) : option World :=
  match e with
  | e_process t => Some (process t w)
  | e_add t o => Some (add t o w)
  | e_pause => Some (pause w)
  | e_resume => Some (resume w)
  | e_clear => Some (clear w)
  | e_advance dt => if 0 <=? dt then Some (set_now (now w + dt) w) else None
  | e_timer n =>
      match nth_error (timers w) n with
      | Some (due, cb) =>
          if due <=? now w then
            let w := set_timers (remove_nth n (timers w)) w in
            Some (match cb with
                  | cb_delayed job => delayed_ready job w
                  | cb_process => _process w
                  end)
          else None
      | None => None
      end
  | e_settle jobId o =>
      match find_awaiting jobId (awaiting w) with
      | Some (job, deadline) =>
          let w' := set_awaiting (remove_awaiting jobId (awaiting w)) w in
          match o with
          | timed_out => if deadline <=? now w then
                           Some (_executeJob_settle job o w')
                         else None
          | _ => Some (_executeJob_settle job o w')
          end
      | None => None
      end
  | e_microtask =>
      match continuations w with
      | S c => Some (_process_finally (set_continuations c w))
      | O => None
      end
  | e_throwing b => Some (set_throwing b w)
  end.

Fixpoint run (es : list Event) (w : World) : option World :=
  match es with
  | [] => Some w
  | e :: rest =>
      match step e w with
      | Some w' => run rest w'
      | None => None
      end
  end.

(** ** What the claims speak about *)

(** The number of jobs of the array in Processing status. *)
Definition count_processing (l : list Job) : Z :=
  Z.of_nat (List.length (filter is_processing l)).

(** The array is ordered by priority, highest first. *)
Definition by_priority (l : list Job) : Prop :=
  StronglySorted (fun a b => priority b <= priority a) l.

(** The ids of the jobs that suspended [_executeJob] calls hold, and of the
    delayed jobs that live timers hold. *)
Definition await_ids (w : World) : list nat :=
  map (fun p => id (fst p)) (awaiting w).

Definition delayed_id (t : Z * Callback) : list nat :=
  match snd t with
  | cb_delayed j => [id j]
  | cb_process => []
  end.

Definition delayed_ids (w : World) : list nat := flat_map delayed_id (timers w).

Definition job_ids (w : World) : list nat := map id (jobs (queue w)).

(** Job [a] stands in front of job [b] in a list of ids. *)
Definition before_in (a b : nat) (l : list nat) : Prop :=
  exists l1 l2, l = l1 ++ l2 /\ In a l1 /\ In b l2.

(** The bookkeeping every reachable state satisfies: [running] counts the
    suspended executions and the [finally] blocks still to run, it stays
    within the limit (or at 0 under a negative limit), ids are distinct and
    below the next one, a job of the array is Processing exactly when an
    execution holds it, and the array is in priority order. *)
Record Inv (w : World) : Prop := mkInv {
  inv_running :
    running (queue w)
    = Z.of_nat (List.length (awaiting w)) + Z.of_nat (continuations w);
  inv_limit : running (queue w) <= Z.max 0 (concurrency (queue w));
  inv_nodup : NoDup (delayed_ids w ++ job_ids w);
  inv_nodup_await : NoDup (await_ids w);
  inv_fresh :
    forall i, In i (delayed_ids w ++ job_ids w ++ await_ids w) -> (i < nextId w)%nat;
  inv_processing :
    forall j, In j (jobs (queue w)) ->
              (In (id j) (await_ids w) <-> status j = processing);
  inv_delayed : forall i, In i (delayed_ids w) -> ~ In i (await_ids w);
  inv_sorted : by_priority (jobs (queue w))
}.

(** ** The read-only methods *)

(** [getJobs(status)]: the jobs of the array in that status, the whole array
    without one. *)
Definition getJobs (st : option Status) (q : JobQueue) : list Job :=
  match st with
  | Some x => filter (fun j => Status_eqb (status j) x) (jobs q)
  | None => jobs q
  end.

(** The object [getStats()] returns. *)
Record Report := mkReport {
  r_completed : Z;
  r_failed : Z;
  r_retried : Z;
  r_pending : Z;
  r_processing : Z;
  r_delayed : Z;
  r_total : Z
}.

Definition getStats (q : JobQueue) : Report :=
  mkReport (st_completed (stats q)) (st_failed (stats q)) (st_retried (stats q))
           (Z.of_nat (List.length (filter is_pending (jobs q))))
           (running q)
           (Z.of_nat (List.length
                        (filter (fun j => Status_eqb (status j) delayed) (jobs q))))
           (Z.of_nat (List.length (jobs q))).

(** ** Traces *)

(** The ids of the [job:start] events, newest first. *)
Definition start_id (e : Z * Emitted) : list nat :=
  match snd e with
  | job_start i _ => [i]
  | _ => []
  end.

Definition started (w : World) : list nat := flat_map start_id (emitted w).

Definition is_clear (e : Event) : bool :=
  match e with
  | e_clear => true
  | _ => false
  end.

(** [add] calls of one priority class [p], without delay and without a
    second attempt; any other event. *)
Definition one_class (p : Z) (e : Event) : bool :=
  match e with
  | e_add _ o =>
      (js_or (o_priority o) 0 =? p) && (js_or (o_delay o) 0 <=? 0)
      && (js_or (o_maxAttempts o) 1 <=? 1)
  | _ => true
  end.

(** A job of the array has been attempted at most [maxAttempts] times, and
    at most once when [maxAttempts] is below 1. *)
Definition within_attempts (j : Job) : Prop :=
  0 <= attempts j <= Z.max 1 (maxAttempts j).

(** The attempts counter of a job of the array, by its status. *)
Definition attempts_ok (j : Job) : Prop :=
  match status j with
  | pending => attempts j = 0 \/ 0 < attempts j < maxAttempts j
  | processing => attempts j = 1 \/ 1 < attempts j <= maxAttempts j
  | _ => False
  end.

(** Every job of the array is Pending or Processing with a counter that
    fits; the object a suspended execution holds is the entry of the array
    with its id, as far as the counters go; a delayed job has not been
    attempted. *)
Record Counted (w : World) : Prop := mkCounted {
  c_jobs : forall j, In j (jobs (queue w)) -> attempts_ok j;
  c_held :
    forall job d, In (job, d) (awaiting w) ->
      (attempts job = 1 \/ 1 < attempts job <= maxAttempts job)
      /\ forall j, In j (jobs (queue w)) -> id j = id job ->
                   attempts j = attempts job /\ maxAttempts j = maxAttempts job;
  c_delayed :
    forall due job, In (due, cb_delayed job) (timers w) -> attempts job = 0
}.

(** While [clear] is not called: a job under execution is in the array,
    and every job added so far has completed, has failed, is in the array
    or waits for its delay. *)
Record Kept (w : World) : Prop := mkKept {
  k_held : forall i, In i (await_ids w) -> In i (job_ids w);
  k_count :
    Z.of_nat (nextId w)
    = st_completed (stats (queue w)) + st_failed (stats (queue w))
      + Z.of_nat (List.length (jobs (queue w)))
      + Z.of_nat (List.length (delayed_ids w))
}.

(** With jobs of one priority class only, added without delay and for a
    single attempt: the array is in the order of arrival, what has started
    is older than what is pending, and nothing is retried. *)
Record Fifo (p : Z) (w : World) : Prop := mkFifo {
  f_class :
    forall j, In j (jobs (queue w)) ->
              priority j = p /\ maxAttempts j <= 1 /\ 0 <= attempts j;
  f_held :
    forall job d, In (job, d) (awaiting w) ->
                  maxAttempts job <= 1 /\ 1 <= attempts job;
  f_timers : timers w = [];
  f_order : StronglySorted lt (job_ids w);
  f_started : StronglySorted (fun a b => (b < a)%nat) (started w);
  f_ahead :
    forall a j, In a (started w) -> In j (jobs (queue w)) ->
                status j = pending -> (a < id j)%nat;
  f_fresh : forall a, In a (started w) -> (a < nextId w)%nat;
  f_retried : st_retried (stats (queue w)) = 0
}.

(** Among the [job:start] events [l], newest first: job [b] is not
    started unless job [a] has been started before. *)
Definition starts_first (a b : nat) (l : list nat) : Prop :=
  In b l -> exists l1 l2, l = l2 ++ a :: l1 /\ ~ In b l1.

(** Jobs [a] and [b] wait for a start: their ids have been handed out,
    no execution and no timer holds them, their entries of the array are
    Pending, and as long as [b] is in the array [a] stands in front of
    it. *)
Record Waiting (a b : nat) (w : World) : Prop := mkWaiting {
  wt_known : (a < nextId w)%nat /\ (b < nextId w)%nat;
  wt_free :
    forall i, i = a \/ i = b ->
              ~ In i (await_ids w) /\ ~ In i (delayed_ids w);
  wt_pending :
    forall j, In j (jobs (queue w)) -> id j = a \/ id j = b ->
              status j = pending;
  wt_order : In b (job_ids w) -> before_in a b (job_ids w)
}.

(** Since the [job:start] events [old]: both jobs still wait, or [a] has
    been started and [b] had not been started before. *)
Definition Ordered (a b : nat) (old : list nat) (w : World) : Prop :=
  exists l,
    started w = l ++ old
    /\ ((~ In a l /\ ~ In b l /\ Waiting a b w)
        \/ exists l1 l2, l = l2 ++ a :: l1 /\ ~ In b l1).

(** ** The calls in closed form *)

(** [_process] after it has taken [job] and found no handler for it. *)
Definition dropped (job : Job) (w : World) : World :=
  mkWorld
    (mkQueue (concurrency (queue w)) (retryDelay (queue w))
             (defaultTimeout (queue w))
             (_removeJob (id job) (jobs (queue w)))
             (running (queue w) + 1) (paused (queue w)) (handlers (queue w))
             (bump_failed (stats (queue w))))
    (now w) (nextId w) (timers w) (awaiting w) (S (continuations w))
    ((now w, job_failed (id job))
       :: (now w, job_start (id job) (attempts job)) :: emitted w)
    (throwing w).

(** What [_process] and [_executeJob] write to the job they start. *)
Definition begun (j : Job) : Job := incr_attempts (set_status processing j).

(** [_process] after it has taken [job] and called its handler, which
    returned a promise. *)
Definition dispatched (job : Job) (w : World) : World :=
  mkWorld
    (mkQueue (concurrency (queue w)) (retryDelay (queue w))
             (defaultTimeout (queue w))
             (update_job (id job) begun (jobs (queue w)))
             (running (queue w) + 1) (paused (queue w)) (handlers (queue w))
             (stats (queue w)))
    (now w) (nextId w) (timers w)
    (awaiting w ++ [(begun job, now w + timer_delay (timeout job))])
    (continuations w)
    ((now w, job_start (id job) (attempts job)) :: emitted w)
    (throwing w).

(** [_process] after it has taken [job] and called its handler, before
    the handler has answered. *)
Definition taken (job : Job) (w : World) : World :=
  mkWorld
    (mkQueue (concurrency (queue w)) (retryDelay (queue w))
             (defaultTimeout (queue w))
             (update_job (id job) begun (jobs (queue w)))
             (running (queue w) + 1) (paused (queue w)) (handlers (queue w))
             (stats (queue w)))
    (now w) (nextId w) (timers w) (awaiting w) (continuations w)
    ((now w, job_start (id job) (attempts job)) :: emitted w)
    (throwing w).

(** [_process] after it has taken [job] and called its handler, which
    threw. *)
Definition thrown (job : Job) (w : World) : World :=
  _executeJob_settle (begun job) rejected (taken job w).

(** [_executeJob] after a race that ended the job: [bump] counts it, [e]
    is emitted. *)
Definition finished (bump : Stats -> Stats) (e : Emitted) (job : Job)
           (w : World) : World :=
  mkWorld
    (mkQueue (concurrency (queue w)) (retryDelay (queue w))
             (defaultTimeout (queue w))
             (_removeJob (id job) (jobs (queue w)))
             (running (queue w)) (paused (queue w)) (handlers (queue w))
             (bump (stats (queue w))))
    (now w) (nextId w) (timers w) (awaiting w) (S (continuations w))
    ((now w, e) :: emitted w) (throwing w).

(** [_executeJob] after a failed race with attempts left. *)
Definition retrying (job : Job) (w : World) : World :=
  mkWorld
    (mkQueue (concurrency (queue w)) (retryDelay (queue w))
             (defaultTimeout (queue w))
             (update_job (id job) (set_status pending) (jobs (queue w)))
             (running (queue w)) (paused (queue w)) (handlers (queue w))
             (bump_retried (stats (queue w))))
    (now w) (nextId w)
    (timers w
       ++ [(now w + timer_delay (retryDelay (queue w) * 2 ^ (attempts job - 1)),
            cb_process)])
    (awaiting w) (S (continuations w))
    ((now w, job_retry (id job)) :: emitted w) (throwing w).

(** The state in which [add] calls [_process]: the job is in the array. *)
Definition enqueued (job : Job) (w : World) : World :=
  with_queue (fun q => set_jobs (_insertJob job (jobs q)) q) w.

(** The number of [add] calls of a trace. *)
Definition is_add (e : Event) : bool :=
  match e with
  | e_add _ _ => true
  | _ => false
  end.

Definition added (es : list Event) : nat := List.length (filter is_add es).

Definition is_resume (e : Event) : bool :=
  match e with
  | e_resume => true
  | _ => false
  end.

End Queue.

Module config.
(** The fields of config.json the controller reads. *)
Record t := mk {
  vendorId : string;
  productId : string;
  timeout : Z;
  baseline : Z;
  baselineTimeSetting : Z;
  baselineTimeNotSet : Z;
  samplingDelay : Z;
  duration : Z;
  trigger : Q;
  ceilWeight : Q;
  bigRound : nat
}.
End config.

(** ** JavaScript numbers

    A finite number is the rational its double denotes.  [double] rounds a
    rational to the nearest double, a tie to the even mantissa (overflow to
    infinity is left out); arithmetic on numbers is the exact operation
    followed by [double].  [toFixed] is [Number.prototype.toFixed] on a
    number below 10^21: the decimal with [f] digits nearest to the number
    itself, the larger one on a tie. *)
Module Number.

Definition pow2 (e : Z) : Q :=
  if 0 <=? e then inject_Z (2 ^ e) else 1 / inject_Z (2 ^ (- e)).

Definition round_half_even (x : Q) : Z :=
  let f := Qfloor x in
  match (x - inject_Z f ?= 1 # 2)%Q with
  | Lt => f
  | Gt => f + 1
  | Eq => if Z.even f then f else f + 1
  end.

(** For [q > 0]: [E] is the binary exponent of [q], the mantissa has 53
    bits, and the spacing is never below 2^-1074. *)
Definition double_pos (q : Q) : Q :=
  let e0 := Z.log2 (Qnum q) - Z.log2 (Zpos (Qden q)) in
  let E := if Qle_bool (pow2 e0) q then e0 else e0 - 1 in
  let e := Z.max (E - 52) (-1074) in
  Qred (inject_Z (round_half_even (q / pow2 e)) * pow2 e).

Definition double (q : Q) : Q :=
  match Qnum q with
  | 0 => 0
  | Zpos _ => double_pos q
  | Zneg _ => Qred (- double_pos (- q))
  end.

Definition toFixed (f : nat) (x : Q) : Q :=
  let scale := inject_Z (10 ^ Z.of_nat f) in
  let n := Qfloor (Qabs x * scale + (1 # 2)) in
  Qred (inject_Z (if Qle_bool 0 x then n else - n) / scale).

(** *** [ToNumber] of a string

    What a relational operator does to a string operand.  A character of
    a [string] stands for the code unit of the same number.  White space
    around the literal is dropped (of the code units below 256: TAB, LF,
    VT, FF, CR, SP and NBSP); the empty string is 0; the literal is
    [Infinity] or a decimal literal, with an optional sign, or an unsigned
    binary, octal or hexadecimal integer with its prefix; anything else
    is NaN.  [Finite q] carries the mathematical value of the literal,
    which [double] rounds. *)
Inductive Value := NaN | Infinity (negative : bool) | Finite (q : Q).

Definition code (c : Ascii.ascii) : nat := Ascii.nat_of_ascii c.

Definition is_space (c : Ascii.ascii) : bool :=
  existsb (Nat.eqb (code c)) [9; 10; 11; 12; 13; 32; 160]%nat.

Fixpoint trim_left (l : list Ascii.ascii) : list Ascii.ascii :=
  match l with
  | c :: rest => if is_space c then trim_left rest else l
  | [] => []
  end.

Definition trim (l : list Ascii.ascii) : list Ascii.ascii :=
  rev (trim_left (rev (trim_left l))).

(** The value of a digit in a base up to 16, either case. *)
Definition digit (base : nat) (c : Ascii.ascii) : option Z :=
  let n := code c in
  let v := if (48 <=? n)%nat && (n <=? 57)%nat then Some (n - 48)%nat
           else if (97 <=? n)%nat && (n <=? 102)%nat then Some (n - 87)%nat
           else if (65 <=? n)%nat && (n <=? 70)%nat then Some (n - 55)%nat
           else None in
  match v with
  | Some d => if (d <? base)%nat then Some (Z.of_nat d) else None
  | None => None
  end.

(** The value of a run of digits; [None] when a character is no digit. *)
Fixpoint digits (base : nat) (acc : Z) (l : list Ascii.ascii) : option Z :=
  match l with
  | [] => Some acc
  | c :: rest =>
      match digit base c with
      | Some d => digits base (acc * Z.of_nat base + d) rest
      | None => None
      end
  end.

(** The characters before the first one that satisfies [p], and those
    after it when there is one. *)
Fixpoint split_at (p : Ascii.ascii -> bool) (l : list Ascii.ascii)
  : list Ascii.ascii * option (list Ascii.ascii) :=
  match l with
  | [] => ([], None)
  | c :: rest =>
      if p c then ([], Some rest)
      else let (a, b) := split_at p rest in (c :: a, b)
  end.

Definition is_code (ns : list nat) (c : Ascii.ascii) : bool :=
  existsb (Nat.eqb (code c)) ns.

(** An optional sign: whether it is a minus, and the rest. *)
Definition signed (l : list Ascii.ascii) : bool * list Ascii.ascii :=
  match l with
  | c :: rest =>
      if is_code [43%nat] c then (false, rest)
      else if is_code [45%nat] c then (true, rest)
      else (false, l)
  | [] => (false, l)
  end.

Definition pow10 (e : Z) : Q :=
  if 0 <=? e then inject_Z (10 ^ e) else 1 / inject_Z (10 ^ (- e)).

(** [digits], [digits.], [digits.digits] or [.digits], then an optional
    exponent part. *)
Definition unsigned_decimal (l : list Ascii.ascii) : option Q :=
  let (m, ex) := split_at (is_code [101; 69]%nat) l in
  let exponent :=
    match ex with
    | None => Some 0
    | Some x =>
        let (neg, ds) := signed x in
        match ds with
        | [] => None
        | _ => option_map (fun v => if neg then - v else v) (digits 10 0 ds)
        end
    end in
  let (int, fr) := split_at (is_code [46%nat]) m in
  let frac := match fr with Some f => f | None => [] end in
  match int ++ frac with
  | [] => None
  | _ =>
      match digits 10 0 (int ++ frac), exponent with
      | Some v, Some x =>
          Some (inject_Z v * pow10 (x - Z.of_nat (List.length frac)))%Q
      | _, _ => None
      end
  end.

Definition prefixed (l : list Ascii.ascii) : option (nat * list Ascii.ascii) :=
  match l with
  | z :: p :: rest =>
      if is_code [48%nat] z then
        if is_code [120; 88]%nat p then Some (16%nat, rest)
        else if is_code [111; 79]%nat p then Some (8%nat, rest)
        else if is_code [98; 66]%nat p then Some (2%nat, rest)
        else None
      else None
  | _ => None
  end.

Definition ofString (s : string) : Value :=
  let l := trim (list_ascii_of_string s) in
  match l with
  | [] => Finite 0
  | _ =>
      match prefixed l with
      | Some (base, ds) =>
          match ds with
          | [] => NaN
          | _ => match digits base 0 ds with
                 | Some v => Finite (inject_Z v)
                 | None => NaN
                 end
          end
      | None =>
          let (neg, body) := signed l in
          if String.eqb (string_of_list_ascii body) "Infinity" then Infinity neg
          else match unsigned_decimal body with
               | Some q => Finite (if neg then - q else q)
               | None => NaN
               end
      end
  end.

(** [x > n] for a number [n]: false for NaN. *)
Definition gt (x : Value) (n : Q) : bool :=
  match x with
  | NaN => false
  | Infinity negative => negb negative
  | Finite q => negb (Qle_bool (double q) n)
  end.

End Number.

(** ** big.js

    The controller computes a weight with the decimal library big.js, which
    is not part of the repository.  Its values are exact decimals, taken
    here as rationals; [round(dp)] uses the library's default rounding mode
    (half up: to the nearest multiple of 10^-dp, a tie away from zero), and
    [toNumber] gives the nearest double.  Results are kept in lowest
    terms. *)
Module Big.

Definition minus (a b : Q) : Q := a - b.
Definition times (a b : Q) : Q := a * b.
Definition abs (a : Q) : Q := Qabs a.

Definition round (dp : nat) (a : Q) : Q :=
  let scale := inject_Z (10 ^ Z.of_nat dp) in
  let m := Qfloor (Qabs a * scale + (1 # 2)) in
  Qred (inject_Z (if Qle_bool 0 a then m else - m) / scale).

Definition toNumber (a : Q) : Q := Number.double a.

End Big.

Module Grip.

(** ** Data *)

Inductive Command := SetCoef | GetCoef | SamplingOff | SamplingOn | DeviceOff.

(** [commands[c][commandCode]]: the byte written for a command. *)
Definition commandCode (c : Command) : Z :=
  match c with
  | SetCoef => 0x20
  | GetCoef => 0x21
  | SamplingOff => 0x10
  | SamplingOn => 0x11
  | DeviceOff => 0x7a
  end.

(** A JavaScript number that may be [NaN]. *)
Inductive Num := NaN | Fin (q : Q).

(** The payloads given to [emitMessage], by their [message] field.  A
    number printed by [toFixed(1)] is carried as the decimal printed, the
    array printed by [JSON.stringify] as the numbers it lists. *)
Inductive Message :=
| device_found
| baseline_ok
| baseline_stop (code : Z)
| measure_received (value : Q)
| measure_finish (rawMeasures : list Q) (avg : Num) (max : Q)
| msg_timeout
| app_hide
| app_show
| show_gauge
| hide_gauge
| measureSamplingOn.

(** The first argument of [endAlgorithm]: a number at every call of the
    script, except for the flag string [checkError] would pass on. *)
Inductive Err := err_code (n : Z) | err_flag (f : string).

Record OutputData := mkOutput {
  out_weightMax : Q;
  out_weightArray : list Q;
  out_weightMedia : Num
}.

(** temp.json: [hardware] and [inputData] never change.  [outputData]
    holds what the code prints there: [weightMax] and [weightMedia] through
    [toFixed(1)], [weightArray] through [JSON.stringify]. *)
Record TempFile := mkTemp {
  outputData : option OutputData;
  messages : list (Err * option string)
}.

Definition fresh_tempFile : TempFile := mkTemp None [].

Record Port := mkPort { path : string; isOpen : bool }.

(** What a live timer will run. *)
Inductive Callback :=
| cb_detect_deadline           (* [algorithmTimeout] of [startDetectDevice] *)
| cb_measure_deadline          (* [algorithmTimeout] of [startMeasure] *)
| cb_search                    (* [searchUsbInterval] *)
| cb_sampling_on               (* the delayed part of the port's 'open' handler *)
| cb_close_port                (* the 200 ms closings of [KGrip] and [stopMeasure] *)
| cb_confirm (value : Z)       (* [timeoutForStartSampling], with the sample it captured *)
| cb_cancel                    (* [timeoutForCancelSamplingTimeout] *)
| cb_measurement               (* [measurementTimeout] *)
| cb_stop.                     (* the 500 ms step of [stopMeasure] *)

Record Timer := mkTimer {
  tid : nat;
  due : Z;
  repeat : option Z;
  cb : Callback
}.

(** The module-level variables of the script ([coef] as the decimal
    big.js reads from it, the weights as the numbers [toNumber] gave),
    followed by what the event
    loop and the outside hold for it: the clock [now], the live [timers] and
    the next handle, the commands [written] to the port and the writes
    whose callback is still to run, the pending device [listings], whether
    the 11-byte [parser] feeds [checkResponse], the payloads handed to the
    outbound [channel] and to the [display] callback, and the contents
    handed to [fs.writeFile] with the number of its callbacks to run. *)
Record State := mkState {
  measureStarted : bool;
  tempFile : TempFile;
  socketPath : option string;
  errorFlag : option string;
  port : option Port;
  algorithmTimeout : option nat;
  coef : Q;
  first : bool;
  startTimeoutMeasurement : bool;
  stopMeasurement : bool;
  baseline : Z;
  num : Z;
  weight : Q;
  weightMax : Q;
  weightArray : list Q;
  timeoutForStartSampling : option nat;
  timeoutForCancelSamplingTimeout : option nat;
  searchUsbInterval : option nat;
  measurementTimeout : option nat;
  callback : bool;
  now : Z;
  timers : list Timer;
  nextTimer : nat;
  written : list Command;
  writeCallbacks : list Command;
  listings : nat;
  parser : bool;
  channel : list Message;
  display : list Message;
  files : list TempFile;
  fsCallbacks : nat
}.

Definition set_measureStarted (v : bool) (s : State) : State :=
  mkState v (tempFile s) (socketPath s) (errorFlag s) (port s)
    (algorithmTimeout s) (coef s) (first s) (startTimeoutMeasurement s)
    (stopMeasurement s) (baseline s) (num s) (weight s) (weightMax s)
    (weightArray s) (timeoutForStartSampling s)
    (timeoutForCancelSamplingTimeout s) (searchUsbInterval s)
    (measurementTimeout s) (callback s) (now s) (timers s) (nextTimer s)
    (written s) (writeCallbacks s) (listings s) (parser s) (channel s)
    (display s) (files s) (fsCallbacks s).

Definition set_tempFile (v : TempFile) (s : State) : State :=
  mkState (measureStarted s) v (socketPath s) (errorFlag s) (port s)
    (algorithmTimeout s) (coef s) (first s) (startTimeoutMeasurement s)
    (stopMeasurement s) (baseline s) (num s) (weight s) (weightMax s)
    (weightArray s) (timeoutForStartSampling s)
    (timeoutForCancelSamplingTimeout s) (searchUsbInterval s)
    (measurementTimeout s) (callback s) (now s) (timers s) (nextTimer s)
    (written s) (writeCallbacks s) (listings s) (parser s) (channel s)
    (display s) (files s) (fsCallbacks s).

Definition set_socketPath (v : option string) (s : State) : State :=
  mkState (measureStarted s) (tempFile s) v (errorFlag s) (port s)
    (algorithmTimeout s) (coef s) (first s) (startTimeoutMeasurement s)
    (stopMeasurement s) (baseline s) (num s) (weight s) (weightMax s)
    (weightArray s) (timeoutForStartSampling s)
    (timeoutForCancelSamplingTimeout s) (searchUsbInterval s)
    (measurementTimeout s) (callback s) (now s) (timers s) (nextTimer s)
    (written s) (writeCallbacks s) (listings s) (parser s) (channel s)
    (display s) (files s) (fsCallbacks s).

Definition set_errorFlag (v : option string) (s : State) : State :=
  mkState (measureStarted s) (tempFile s) (socketPath s) v (port s)
    (algorithmTimeout s) (coef s) (first s) (startTimeoutMeasurement s)
    (stopMeasurement s) (baseline s) (num s) (weight s) (weightMax s)
    (weightArray s) (timeoutForStartSampling s)
    (timeoutForCancelSamplingTimeout s) (searchUsbInterval s)
    (measurementTimeout s) (callback s) (now s) (timers s) (nextTimer s)
    (written s) (writeCallbacks s) (listings s) (parser s) (channel s)
    (display s) (files s) (fsCallbacks s).

Definition set_port (v : option Port) (s : State) : State :=
  mkState (measureStarted s) (tempFile s) (socketPath s) (errorFlag s) v
    (algorithmTimeout s) (coef s) (first s) (startTimeoutMeasurement s)
    (stopMeasurement s) (baseline s) (num s) (weight s) (weightMax s)
    (weightArray s) (timeoutForStartSampling s)
    (timeoutForCancelSamplingTimeout s) (searchUsbInterval s)
    (measurementTimeout s) (callback s) (now s) (timers s) (nextTimer s)
    (written s) (writeCallbacks s) (listings s) (parser s) (channel s)
    (display s) (files s) (fsCallbacks s).

Definition set_algorithmTimeout (v : option nat) (s : State) : State :=
  mkState (measureStarted s) (tempFile s) (socketPath s) (errorFlag s) (port
    s) v (coef s) (first s) (startTimeoutMeasurement s) (stopMeasurement s)
    (baseline s) (num s) (weight s) (weightMax s) (weightArray s)
    (timeoutForStartSampling s) (timeoutForCancelSamplingTimeout s)
    (searchUsbInterval s) (measurementTimeout s) (callback s) (now s)
    (timers s) (nextTimer s) (written s) (writeCallbacks s) (listings s)
    (parser s) (channel s) (display s) (files s) (fsCallbacks s).

Definition set_coef (v : Q) (s : State) : State :=
  mkState (measureStarted s) (tempFile s) (socketPath s) (errorFlag s) (port
    s) (algorithmTimeout s) v (first s) (startTimeoutMeasurement s)
    (stopMeasurement s) (baseline s) (num s) (weight s) (weightMax s)
    (weightArray s) (timeoutForStartSampling s)
    (timeoutForCancelSamplingTimeout s) (searchUsbInterval s)
    (measurementTimeout s) (callback s) (now s) (timers s) (nextTimer s)
    (written s) (writeCallbacks s) (listings s) (parser s) (channel s)
    (display s) (files s) (fsCallbacks s).

Definition set_first (v : bool) (s : State) : State :=
  mkState (measureStarted s) (tempFile s) (socketPath s) (errorFlag s) (port
    s) (algorithmTimeout s) (coef s) v (startTimeoutMeasurement s)
    (stopMeasurement s) (baseline s) (num s) (weight s) (weightMax s)
    (weightArray s) (timeoutForStartSampling s)
    (timeoutForCancelSamplingTimeout s) (searchUsbInterval s)
    (measurementTimeout s) (callback s) (now s) (timers s) (nextTimer s)
    (written s) (writeCallbacks s) (listings s) (parser s) (channel s)
    (display s) (files s) (fsCallbacks s).

Definition set_startTimeoutMeasurement (v : bool) (s : State) : State :=
  mkState (measureStarted s) (tempFile s) (socketPath s) (errorFlag s) (port
    s) (algorithmTimeout s) (coef s) (first s) v (stopMeasurement s)
    (baseline s) (num s) (weight s) (weightMax s) (weightArray s)
    (timeoutForStartSampling s) (timeoutForCancelSamplingTimeout s)
    (searchUsbInterval s) (measurementTimeout s) (callback s) (now s)
    (timers s) (nextTimer s) (written s) (writeCallbacks s) (listings s)
    (parser s) (channel s) (display s) (files s) (fsCallbacks s).

Definition set_stopMeasurement (v : bool) (s : State) : State :=
  mkState (measureStarted s) (tempFile s) (socketPath s) (errorFlag s) (port
    s) (algorithmTimeout s) (coef s) (first s) (startTimeoutMeasurement s) v
    (baseline s) (num s) (weight s) (weightMax s) (weightArray s)
    (timeoutForStartSampling s) (timeoutForCancelSamplingTimeout s)
    (searchUsbInterval s) (measurementTimeout s) (callback s) (now s)
    (timers s) (nextTimer s) (written s) (writeCallbacks s) (listings s)
    (parser s) (channel s) (display s) (files s) (fsCallbacks s).

Definition set_baseline (v : Z) (s : State) : State :=
  mkState (measureStarted s) (tempFile s) (socketPath s) (errorFlag s) (port
    s) (algorithmTimeout s) (coef s) (first s) (startTimeoutMeasurement s)
    (stopMeasurement s) v (num s) (weight s) (weightMax s) (weightArray s)
    (timeoutForStartSampling s) (timeoutForCancelSamplingTimeout s)
    (searchUsbInterval s) (measurementTimeout s) (callback s) (now s)
    (timers s) (nextTimer s) (written s) (writeCallbacks s) (listings s)
    (parser s) (channel s) (display s) (files s) (fsCallbacks s).

Definition set_num (v : Z) (s : State) : State :=
  mkState (measureStarted s) (tempFile s) (socketPath s) (errorFlag s) (port
    s) (algorithmTimeout s) (coef s) (first s) (startTimeoutMeasurement s)
    (stopMeasurement s) (baseline s) v (weight s) (weightMax s) (weightArray
    s) (timeoutForStartSampling s) (timeoutForCancelSamplingTimeout s)
    (searchUsbInterval s) (measurementTimeout s) (callback s) (now s)
    (timers s) (nextTimer s) (written s) (writeCallbacks s) (listings s)
    (parser s) (channel s) (display s) (files s) (fsCallbacks s).

Definition set_weight (v : Q) (s : State) : State :=
  mkState (measureStarted s) (tempFile s) (socketPath s) (errorFlag s) (port
    s) (algorithmTimeout s) (coef s) (first s) (startTimeoutMeasurement s)
    (stopMeasurement s) (baseline s) (num s) v (weightMax s) (weightArray s)
    (timeoutForStartSampling s) (timeoutForCancelSamplingTimeout s)
    (searchUsbInterval s) (measurementTimeout s) (callback s) (now s)
    (timers s) (nextTimer s) (written s) (writeCallbacks s) (listings s)
    (parser s) (channel s) (display s) (files s) (fsCallbacks s).

Definition set_weightMax (v : Q) (s : State) : State :=
  mkState (measureStarted s) (tempFile s) (socketPath s) (errorFlag s) (port
    s) (algorithmTimeout s) (coef s) (first s) (startTimeoutMeasurement s)
    (stopMeasurement s) (baseline s) (num s) (weight s) v (weightArray s)
    (timeoutForStartSampling s) (timeoutForCancelSamplingTimeout s)
    (searchUsbInterval s) (measurementTimeout s) (callback s) (now s)
    (timers s) (nextTimer s) (written s) (writeCallbacks s) (listings s)
    (parser s) (channel s) (display s) (files s) (fsCallbacks s).

Definition set_weightArray (v : list Q) (s : State) : State :=
  mkState (measureStarted s) (tempFile s) (socketPath s) (errorFlag s) (port
    s) (algorithmTimeout s) (coef s) (first s) (startTimeoutMeasurement s)
    (stopMeasurement s) (baseline s) (num s) (weight s) (weightMax s) v
    (timeoutForStartSampling s) (timeoutForCancelSamplingTimeout s)
    (searchUsbInterval s) (measurementTimeout s) (callback s) (now s)
    (timers s) (nextTimer s) (written s) (writeCallbacks s) (listings s)
    (parser s) (channel s) (display s) (files s) (fsCallbacks s).

Definition set_timeoutForStartSampling (v : option nat) (s : State) : State :=
  mkState (measureStarted s) (tempFile s) (socketPath s) (errorFlag s) (port
    s) (algorithmTimeout s) (coef s) (first s) (startTimeoutMeasurement s)
    (stopMeasurement s) (baseline s) (num s) (weight s) (weightMax s)
    (weightArray s) v (timeoutForCancelSamplingTimeout s) (searchUsbInterval
    s) (measurementTimeout s) (callback s) (now s) (timers s) (nextTimer s)
    (written s) (writeCallbacks s) (listings s) (parser s) (channel s)
    (display s) (files s) (fsCallbacks s).

Definition set_timeoutForCancelSamplingTimeout (v : option nat) (s : State) : State :=
  mkState (measureStarted s) (tempFile s) (socketPath s) (errorFlag s) (port
    s) (algorithmTimeout s) (coef s) (first s) (startTimeoutMeasurement s)
    (stopMeasurement s) (baseline s) (num s) (weight s) (weightMax s)
    (weightArray s) (timeoutForStartSampling s) v (searchUsbInterval s)
    (measurementTimeout s) (callback s) (now s) (timers s) (nextTimer s)
    (written s) (writeCallbacks s) (listings s) (parser s) (channel s)
    (display s) (files s) (fsCallbacks s).

Definition set_searchUsbInterval (v : option nat) (s : State) : State :=
  mkState (measureStarted s) (tempFile s) (socketPath s) (errorFlag s) (port
    s) (algorithmTimeout s) (coef s) (first s) (startTimeoutMeasurement s)
    (stopMeasurement s) (baseline s) (num s) (weight s) (weightMax s)
    (weightArray s) (timeoutForStartSampling s)
    (timeoutForCancelSamplingTimeout s) v (measurementTimeout s) (callback
    s) (now s) (timers s) (nextTimer s) (written s) (writeCallbacks s)
    (listings s) (parser s) (channel s) (display s) (files s) (fsCallbacks
    s).

Definition set_measurementTimeout (v : option nat) (s : State) : State :=
  mkState (measureStarted s) (tempFile s) (socketPath s) (errorFlag s) (port
    s) (algorithmTimeout s) (coef s) (first s) (startTimeoutMeasurement s)
    (stopMeasurement s) (baseline s) (num s) (weight s) (weightMax s)
    (weightArray s) (timeoutForStartSampling s)
    (timeoutForCancelSamplingTimeout s) (searchUsbInterval s) v (callback s)
    (now s) (timers s) (nextTimer s) (written s) (writeCallbacks s)
    (listings s) (parser s) (channel s) (display s) (files s) (fsCallbacks
    s).

Definition set_callback (v : bool) (s : State) : State :=
  mkState (measureStarted s) (tempFile s) (socketPath s) (errorFlag s) (port
    s) (algorithmTimeout s) (coef s) (first s) (startTimeoutMeasurement s)
    (stopMeasurement s) (baseline s) (num s) (weight s) (weightMax s)
    (weightArray s) (timeoutForStartSampling s)
    (timeoutForCancelSamplingTimeout s) (searchUsbInterval s)
    (measurementTimeout s) v (now s) (timers s) (nextTimer s) (written s)
    (writeCallbacks s) (listings s) (parser s) (channel s) (display s)
    (files s) (fsCallbacks s).

Definition set_now (v : Z) (s : State) : State :=
  mkState (measureStarted s) (tempFile s) (socketPath s) (errorFlag s) (port
    s) (algorithmTimeout s) (coef s) (first s) (startTimeoutMeasurement s)
    (stopMeasurement s) (baseline s) (num s) (weight s) (weightMax s)
    (weightArray s) (timeoutForStartSampling s)
    (timeoutForCancelSamplingTimeout s) (searchUsbInterval s)
    (measurementTimeout s) (callback s) v (timers s) (nextTimer s) (written
    s) (writeCallbacks s) (listings s) (parser s) (channel s) (display s)
    (files s) (fsCallbacks s).

Definition set_timers (v : list Timer) (s : State) : State :=
  mkState (measureStarted s) (tempFile s) (socketPath s) (errorFlag s) (port
    s) (algorithmTimeout s) (coef s) (first s) (startTimeoutMeasurement s)
    (stopMeasurement s) (baseline s) (num s) (weight s) (weightMax s)
    (weightArray s) (timeoutForStartSampling s)
    (timeoutForCancelSamplingTimeout s) (searchUsbInterval s)
    (measurementTimeout s) (callback s) (now s) v (nextTimer s) (written s)
    (writeCallbacks s) (listings s) (parser s) (channel s) (display s)
    (files s) (fsCallbacks s).

Definition set_nextTimer (v : nat) (s : State) : State :=
  mkState (measureStarted s) (tempFile s) (socketPath s) (errorFlag s) (port
    s) (algorithmTimeout s) (coef s) (first s) (startTimeoutMeasurement s)
    (stopMeasurement s) (baseline s) (num s) (weight s) (weightMax s)
    (weightArray s) (timeoutForStartSampling s)
    (timeoutForCancelSamplingTimeout s) (searchUsbInterval s)
    (measurementTimeout s) (callback s) (now s) (timers s) v (written s)
    (writeCallbacks s) (listings s) (parser s) (channel s) (display s)
    (files s) (fsCallbacks s).

Definition set_written (v : list Command) (s : State) : State :=
  mkState (measureStarted s) (tempFile s) (socketPath s) (errorFlag s) (port
    s) (algorithmTimeout s) (coef s) (first s) (startTimeoutMeasurement s)
    (stopMeasurement s) (baseline s) (num s) (weight s) (weightMax s)
    (weightArray s) (timeoutForStartSampling s)
    (timeoutForCancelSamplingTimeout s) (searchUsbInterval s)
    (measurementTimeout s) (callback s) (now s) (timers s) (nextTimer s) v
    (writeCallbacks s) (listings s) (parser s) (channel s) (display s)
    (files s) (fsCallbacks s).

Definition set_writeCallbacks (v : list Command) (s : State) : State :=
  mkState (measureStarted s) (tempFile s) (socketPath s) (errorFlag s) (port
    s) (algorithmTimeout s) (coef s) (first s) (startTimeoutMeasurement s)
    (stopMeasurement s) (baseline s) (num s) (weight s) (weightMax s)
    (weightArray s) (timeoutForStartSampling s)
    (timeoutForCancelSamplingTimeout s) (searchUsbInterval s)
    (measurementTimeout s) (callback s) (now s) (timers s) (nextTimer s)
    (written s) v (listings s) (parser s) (channel s) (display s) (files s)
    (fsCallbacks s).

Definition set_listings (v : nat) (s : State) : State :=
  mkState (measureStarted s) (tempFile s) (socketPath s) (errorFlag s) (port
    s) (algorithmTimeout s) (coef s) (first s) (startTimeoutMeasurement s)
    (stopMeasurement s) (baseline s) (num s) (weight s) (weightMax s)
    (weightArray s) (timeoutForStartSampling s)
    (timeoutForCancelSamplingTimeout s) (searchUsbInterval s)
    (measurementTimeout s) (callback s) (now s) (timers s) (nextTimer s)
    (written s) (writeCallbacks s) v (parser s) (channel s) (display s)
    (files s) (fsCallbacks s).

Definition set_parser (v : bool) (s : State) : State :=
  mkState (measureStarted s) (tempFile s) (socketPath s) (errorFlag s) (port
    s) (algorithmTimeout s) (coef s) (first s) (startTimeoutMeasurement s)
    (stopMeasurement s) (baseline s) (num s) (weight s) (weightMax s)
    (weightArray s) (timeoutForStartSampling s)
    (timeoutForCancelSamplingTimeout s) (searchUsbInterval s)
    (measurementTimeout s) (callback s) (now s) (timers s) (nextTimer s)
    (written s) (writeCallbacks s) (listings s) v (channel s) (display s)
    (files s) (fsCallbacks s).

Definition set_channel (v : list Message) (s : State) : State :=
  mkState (measureStarted s) (tempFile s) (socketPath s) (errorFlag s) (port
    s) (algorithmTimeout s) (coef s) (first s) (startTimeoutMeasurement s)
    (stopMeasurement s) (baseline s) (num s) (weight s) (weightMax s)
    (weightArray s) (timeoutForStartSampling s)
    (timeoutForCancelSamplingTimeout s) (searchUsbInterval s)
    (measurementTimeout s) (callback s) (now s) (timers s) (nextTimer s)
    (written s) (writeCallbacks s) (listings s) (parser s) v (display s)
    (files s) (fsCallbacks s).

Definition set_display (v : list Message) (s : State) : State :=
  mkState (measureStarted s) (tempFile s) (socketPath s) (errorFlag s) (port
    s) (algorithmTimeout s) (coef s) (first s) (startTimeoutMeasurement s)
    (stopMeasurement s) (baseline s) (num s) (weight s) (weightMax s)
    (weightArray s) (timeoutForStartSampling s)
    (timeoutForCancelSamplingTimeout s) (searchUsbInterval s)
    (measurementTimeout s) (callback s) (now s) (timers s) (nextTimer s)
    (written s) (writeCallbacks s) (listings s) (parser s) (channel s) v
    (files s) (fsCallbacks s).

Definition set_files (v : list TempFile) (s : State) : State :=
  mkState (measureStarted s) (tempFile s) (socketPath s) (errorFlag s) (port
    s) (algorithmTimeout s) (coef s) (first s) (startTimeoutMeasurement s)
    (stopMeasurement s) (baseline s) (num s) (weight s) (weightMax s)
    (weightArray s) (timeoutForStartSampling s)
    (timeoutForCancelSamplingTimeout s) (searchUsbInterval s)
    (measurementTimeout s) (callback s) (now s) (timers s) (nextTimer s)
    (written s) (writeCallbacks s) (listings s) (parser s) (channel s)
    (display s) v (fsCallbacks s).

Definition set_fsCallbacks (v : nat) (s : State) : State :=
  mkState (measureStarted s) (tempFile s) (socketPath s) (errorFlag s) (port
    s) (algorithmTimeout s) (coef s) (first s) (startTimeoutMeasurement s)
    (stopMeasurement s) (baseline s) (num s) (weight s) (weightMax s)
    (weightArray s) (timeoutForStartSampling s)
    (timeoutForCancelSamplingTimeout s) (searchUsbInterval s)
    (measurementTimeout s) (callback s) (now s) (timers s) (nextTimer s)
    (written s) (writeCallbacks s) (listings s) (parser s) (channel s)
    (display s) (files s) v.

Definition initial : State :=
  mkState false fresh_tempFile None None None None 0 true false false 0 0 0 0
          [] None None None None false 0 [] 0 [] [] 0 false [] [] [] 0.

(** ** Timers *)

Definition schedule (rep : option Z) (c : Callback) (d : Z) (s : State)
  : nat * State :=
  let h := nextTimer s in
  (h, set_nextTimer (S h)
        (set_timers (timers s ++ [mkTimer h (now s + timer_delay d) rep c]) s)).

(** [clearTimeout(h)], [clearInterval(h)]: nothing happens for [undefined]
    or for a timer that has fired or was cleared. *)
Definition clearTimeout (h : option nat) (s : State) : State :=
  match h with
  | Some i => set_timers (filter (fun t => negb (Nat.eqb (tid t) i)) (timers s)) s
  | None => s
  end.

(** [h._destroyed] of a timer handle. *)
Definition _destroyed (i : nat) (s : State) : bool :=
  negb (existsb (fun t => Nat.eqb (tid t) i) (timers s)).

(** ** Output *)

(** [emitMessage(payload)]: to the display when a callback is registered,
    and to the peer through [zeromqSendMessage]. *)
Definition emitMessage (m : Message) (s : State) : State :=
  let s := if callback s then set_display (display s ++ [m]) s else s in
  set_channel (channel s ++ [m]) s.

(** [sendCommand(command)]: a write when a port is held, a log line
    otherwise. *)
Definition sendCommand (c : Command) (s : State) : State :=
  match port s with
  | Some _ => set_writeCallbacks (writeCallbacks s ++ [c])
                (set_written (written s ++ [c]) s)
  | None => s
  end.

(** ** Teardown *)

Definition truthy (e : option Err) : bool :=
  match e with
  | None => false
  | Some (err_code n) => negb (n =? 0)
  | Some (err_flag f) => negb (String.eqb f EmptyString)
  end.

(** [errorMap.get(error)]: the seven numeric keys, and [error] itself when
    [error > 7] holds, which a string decides by its numeric value. *)
Definition errorMap (e : Err) (errorMessage : option string) : option string :=
  match e with
  | err_code 1 => Some "Error on temp.json file"%string
  | err_code 2 => Some "No device Found"%string
  | err_code 3 => Some "Generic Error on device"%string
  | err_code 4 => Some "CK Error"%string
  | err_code 5 => Some "Generic Error on plugin"%string
  | err_code 6 => Some "Timeout, check if the device is connected and retry"%string
  | err_code 7 => Some "No data or invalid data"%string
  | err_code n => if 7 <? n then errorMessage else None
  | err_flag f =>
      if Number.gt (Number.ofString f) 7 then errorMessage else None
  end.

(** [port = undefined]: the port object is dropped, and with it the parser
    that was piped from it. *)
Definition drop_port (s : State) : State := set_parser false (set_port None s).

Definition port_close (s : State) : State :=
  match port s with
  | Some p => set_port (Some (mkPort (path p) false)) s
  | None => s
  end.

(** [endAlgorithm(error, errorMessage)] *)
Definition endAlgorithm (error : option Err) (errorMessage : option string)
           (s : State) : State :=
  let s := match algorithmTimeout s with
           | Some _ => clearTimeout (algorithmTimeout s) s
           | None => s
           end in
  let s :=
    match error with
    | Some e =>
        if truthy error then
          let t := tempFile s in
          let s := set_tempFile
                     (mkTemp (outputData t)
                             (messages t ++ [(e, errorMap e errorMessage)])) s in
          match port s with
          | Some _ =>
              let s := sendCommand DeviceOff s in
              let s := port_close s in
              drop_port s
          | None => s
          end
        else s
    | None => s
    end in
  let s := set_first true s in
  let s := set_stopMeasurement false s in
  let s := set_startTimeoutMeasurement false s in
  let s := set_weightArray [] s in
  let s := set_baseline 0 s in
  let s := set_measureStarted false s in
  let s := match port s with
           | Some _ => sendCommand SamplingOff s
           | None => s
           end in
  set_fsCallbacks (S (fsCallbacks s)) (set_files (files s ++ [tempFile s]) s).

(** The callback of [fs.writeFile]. *)
Definition writeFile_done (err : bool) (s : State) : State :=
  if err then s else set_tempFile fresh_tempFile s.

(** The callback of [port.write]. *)
Definition write_done (err : bool) (s : State) : State :=
  if err then endAlgorithm (Some (err_code 3)) None s else s.

(** ** The controller *)

Section Controller.

Variable cfg : config.t.

(** The weight of a sample, before [toNumber]:
    [new Big(baseline).minus(value).times(coef).abs().round(config.bigRound)]. *)
Definition weight_of (baseline value : Z) (coef : Q) : Q :=
  Big.round (config.bigRound cfg)
    (Big.abs (Big.times (Big.minus (inject_Z baseline) (inject_Z value)) coef)).

(** [weightArray.reduce((a, b) => a + b, 0) / weightArray.length], in
    floating point: 0/0 on the empty array. *)
Definition average (l : list Q) : Num :=
  match l with
  | [] => NaN
  | _ => Fin (Number.double
                (fold_left (fun a b => Number.double (a + b)) l 0%Q
                 / inject_Z (Z.of_nat (List.length l))))
  end.

(** [x.toFixed(1)] *)
Definition toFixed1 (x : Num) : Num :=
  match x with
  | NaN => NaN
  | Fin q => Fin (Number.toFixed 1 q)
  end.

(** [checkError(error, callback)]: the two arguments it calls back with. *)
Definition checkError (error : string) : option string * option string :=
  if String.eqb error "00" then (None, Some "Results with no error found"%string)
  else (Some error, None).

(** The callback of [timeoutForStartSampling]; [value] is the sample that
    scheduled it. *)
Definition confirm_fired (value : Z) (s : State) : State :=
  let s := set_baseline value s in
  let s := set_num value s in
  let s := set_first false s in
  let s := set_weightMax 0 s in
  emitMessage baseline_ok s.

(** The callback of [timeoutForCancelSamplingTimeout]. *)
Definition cancel_fired (s : State) : State :=
  let s := clearTimeout (timeoutForStartSampling s) s in
  let s := emitMessage (baseline_stop 1001) s in
  set_timeoutForStartSampling None s.

(** The callback of [measurementTimeout]. *)
Definition measurement_fired (s : State) : State :=
  let s := set_stopMeasurement true s in
  let s := set_errorFlag (Some "00"%string) s in
  match checkError "00" with
  | (Some e, errorMessage) => endAlgorithm (Some (err_flag e)) errorMessage s
  | (None, _) =>
      let out := mkOutput (Number.toFixed 1 (weightMax s)) (weightArray s)
                          (toFixed1 (average (weightArray s))) in
      let s := set_tempFile (mkTemp (Some out) (messages (tempFile s))) s in
      let s := emitMessage (measure_finish (out_weightArray out)
                                           (out_weightMedia out)
                                           (out_weightMax out)) s in
      endAlgorithm None None s
  end.

(** The magnitude of a frame: bytes 3 and 4 written as two hexadecimal
    digits each, joined and parsed in base 16. *)
Definition decode (data : list Z) : Z := nth 3 data 0 * 256 + nth 4 data 0.

Definition unset_or_destroyed (h : option nat) (s : State) : bool :=
  match h with
  | None => true
  | Some i => _destroyed i s
  end.

Definition unset (h : option nat) : bool :=
  match h with
  | None => true
  | Some _ => false
  end.

(** [checkResponse(data)] *)
Definition checkResponse (data : list Z) (s : State) : State :=
  let value := decode data in
  if first s then
    if (config.baseline cfg <? value)
       && unset_or_destroyed (timeoutForStartSampling s) s then
      let s := clearTimeout (timeoutForCancelSamplingTimeout s) s in
      let s := set_timeoutForCancelSamplingTimeout None s in
      let (h, s) := schedule None (cb_confirm value)
                             (config.baselineTimeSetting cfg) s in
      set_timeoutForStartSampling (Some h) s
    else if (value <? config.baseline cfg)
            && unset (timeoutForCancelSamplingTimeout s) then
      let s := clearTimeout (timeoutForCancelSamplingTimeout s) s in
      let (h, s) := schedule None cb_cancel (config.baselineTimeNotSet cfg) s in
      set_timeoutForCancelSamplingTimeout (Some h) s
    else s
  else
    let w := Big.toNumber (weight_of (baseline s) value (coef s)) in
    let s := set_weight w s in
    if negb (Qle_bool w (config.trigger cfg)) then
      let s :=
        if startTimeoutMeasurement s then s
        else
          let s := clearTimeout (algorithmTimeout s) s in
          let (h, s) := schedule None cb_measurement (config.duration cfg) s in
          set_startTimeoutMeasurement true (set_measurementTimeout (Some h) s) in
      if negb (Qle_bool (config.ceilWeight cfg) w) && negb (stopMeasurement s) then
        let s := if negb (Qle_bool w (weightMax s)) then set_weightMax w s else s in
        let s := set_weightArray (weightArray s ++ [w]) s in
        emitMessage (measure_received (Number.toFixed 1 w)) s
      else s
    else s.

(** [KGrip(socketPath)]: a new port when none is held; an open port is
    switched off and closed 200 ms later. *)
Definition KGrip (p : string) (s : State) : State :=
  match port s with
  | None => set_parser false (set_port (Some (mkPort p false)) s)
  | Some q =>
      if isOpen q then
        snd (schedule None cb_close_port 200 (sendCommand DeviceOff s))
      else s
  end.

(** The port's 'open' handler. *)
Definition port_opened (s : State) : State :=
  let s := sendCommand SamplingOff s in
  let s := sendCommand GetCoef s in
  snd (schedule None cb_sampling_on (config.samplingDelay cfg) s).

(** The delayed part of the 'open' handler: pipe the parser, sampling on.
    When the port has been dropped in the meantime, [port.pipe] is called
    on [undefined]: the callback throws a TypeError that nothing catches
    ([None]). *)
Definition sampling_on_fired (s : State) : option State :=
  match port s with
  | Some _ => Some (sendCommand SamplingOn (set_parser true s))
  | None => None
  end.

(** [port && port.isOpen && port.close(); port = undefined] *)
Definition close_port_fired (s : State) : State := drop_port (port_close s).

(** The port's 'data' handler on six bytes that read as the integer [n]. *)
Definition coef_received (n : Z) (s : State) : State :=
  set_coef (Qred (inject_Z n / 1000000)) s.

(** The callback of [algorithmTimeout] set by [startDetectDevice]. *)
Definition detect_deadline_fired (s : State) : State :=
  let s := clearTimeout (searchUsbInterval s) s in
  match socketPath s with
  | None => endAlgorithm (Some (err_code 2)) None s
  | Some p =>
      if String.eqb p EmptyString then endAlgorithm (Some (err_code 2)) None s
      else endAlgorithm (Some (err_code 6)) None (emitMessage msg_timeout s)
  end.

(** [startDetectDevice()] *)
Definition startDetectDevice (s : State) : State :=
  let (h, s) := schedule None cb_detect_deadline (config.timeout cfg) s in
  let s := set_algorithmTimeout (Some h) s in
  match port s with
  | None =>
      let (h, s) := schedule (Some 1000) cb_search 1000 s in
      set_searchUsbInterval (Some h) s
  | Some q =>
      if isOpen q then
        let s := emitMessage device_found s in
        match socketPath s with
        | Some p => KGrip p s
        | None => KGrip EmptyString s
        end
      else s
  end.

(** A device of [SerialPort.list()]. *)
Record Device := mkDevice {
  d_productId : string;
  d_vendorId : string;
  d_path : string
}.

(** The [then] of the poll: [data.some] visits every device, its callback
    returning nothing. *)
Definition list_resolved (data : list Device) (s : State) : State :=
  fold_left
    (fun s d =>
       if String.eqb (d_productId d) (config.productId cfg)
          && String.eqb (d_vendorId d) (config.vendorId cfg) then
         let s := set_socketPath (Some (d_path d)) s in
         let s := clearTimeout (searchUsbInterval s) s in
         let s := emitMessage device_found s in
         KGrip (d_path d) s
       else s)
    data s.

(** The [catch] of the poll. *)
Definition list_rejected (s : State) : State :=
  endAlgorithm (Some (err_code 5)) None s.

(** The callback of [algorithmTimeout] set by [startMeasure]. *)
Definition measure_deadline_fired (s : State) : State :=
  endAlgorithm (Some (err_code 6)) None (emitMessage msg_timeout s).

(** [startMeasure()] *)
Definition startMeasure (s : State) : State :=
  let (h, s) := schedule None cb_measure_deadline (config.timeout cfg) s in
  let s := set_algorithmTimeout (Some h) s in
  let s := emitMessage measureSamplingOn s in
  sendCommand SamplingOn s.

(** The 500 ms step of [stopMeasure]. *)
Definition stop_fired (s : State) : State :=
  match port s with
  | Some _ => snd (schedule None cb_close_port 200 (sendCommand DeviceOff s))
  | None => s
  end.

(** [stopMeasure()] *)
Definition stopMeasure (s : State) : State :=
  let s := clearTimeout (algorithmTimeout s) s in
  let s := clearTimeout (timeoutForStartSampling s) s in
  let s := clearTimeout (timeoutForCancelSamplingTimeout s) s in
  let s := clearTimeout (measurementTimeout s) s in
  let s := clearTimeout (searchUsbInterval s) s in
  match port s with
  | Some _ => snd (schedule None cb_stop 500 s)
  | None => clearTimeout (searchUsbInterval s) s
  end.

(** The commands of the peer, [message.inputData.cmd]. *)
Inductive Cmd :=
| measureStart | cmd_measureSamplingOn | measureStop
| appHide | appShow | showGauge | hideGauge.

(** The [switch] of [listenZmq]. *)
Definition listenZmq (c : Cmd) (s : State) : State :=
  match c with
  | measureStart => startDetectDevice s
  | cmd_measureSamplingOn => startMeasure s
  | measureStop => emitMessage app_hide (stopMeasure s)
  | appHide => emitMessage app_hide (stopMeasure s)
  | appShow => emitMessage app_show (stopMeasure s)
  | showGauge => emitMessage show_gauge s
  | hideGauge => emitMessage hide_gauge s
  end.

(** ** The event loop around the controller *)

(** A timer callback; [None] when it throws. *)
Definition run_callback (c : Callback) (s : State) : option State :=
  match c with
  | cb_detect_deadline => Some (detect_deadline_fired s)
  | cb_measure_deadline => Some (measure_deadline_fired s)
  | cb_search => Some (set_listings (S (listings s)) s)
  | cb_sampling_on => sampling_on_fired s
  | cb_close_port => Some (close_port_fired s)
  | cb_confirm value => Some (confirm_fired value s)
  | cb_cancel => Some (cancel_fired s)
  | cb_measurement => Some (measurement_fired s)
  | cb_stop => Some (stop_fired s)
  end.

Inductive Event :=
| e_ready                          (* [registerCallback] has run *)
| e_command (c : Cmd)              (* a message of the peer *)
| e_advance (dt : Z)               (* time passes *)
| e_fire (h : nat)                 (* the timer with handle [h] fires *)
| e_list_resolved (data : list Device)
| e_list_rejected
| e_open                           (* the port reports 'open' *)
| e_coef (n : Z)                   (* six bytes of the port *)
| e_frame (data : list Z)          (* eleven bytes of the parser *)
| e_write_done (err : bool)        (* the oldest pending write calls back *)
| e_fs_done (err : bool).          (* a [writeFile] calls back *)

(** A fired timeout leaves the table; a fired interval is armed again. *)
Definition rearm (t : Timer) (s : State) : State :=
  match repeat t with
  | Some p =>
      set_timers
        (map (fun u => if Nat.eqb (tid u) (tid t)
                       then mkTimer (tid u) (now s + timer_delay p) (repeat u) (cb u)
                       else u) (timers s)) s
  | None => clearTimeout (Some (tid t)) s
  end.

(** One turn of the loop; [None] when the event cannot happen in [s], or
    when its handler throws an exception that nothing catches, which ends
    the run. *)
Definition step (e : Event) (s : State) : option State :=
  match e with
  | e_ready => Some (set_callback true s)
  | e_command c => Some (listenZmq c s)
  | e_advance dt => if 0 <=? dt then Some (set_now (now s + dt) s) else None
  | e_fire h =>
      match find (fun t => Nat.eqb (tid t) h) (timers s) with
      | Some t => if due t <=? now s then run_callback (cb t) (rearm t s)
                  else None
      | None => None
      end
  | e_list_resolved data =>
      match listings s with
      | S n => Some (list_resolved data (set_listings n s))
      | O => None
      end
  | e_list_rejected =>
      match listings s with
      | S n => Some (list_rejected (set_listings n s))
      | O => None
      end
  | e_open =>
      match port s with
      | Some p => if isOpen p then None
                  else Some (port_opened (set_port (Some (mkPort (path p) true)) s))
      | None => None
      end
  | e_coef n =>
      match port s with
      | Some p => if isOpen p then Some (coef_received n s) else None
      | None => None
      end
  | e_frame data =>
      if parser s && Nat.eqb (List.length data) 11 then Some (checkResponse data s)
      else None
  | e_write_done err =>
      match writeCallbacks s with
      | _ :: rest => Some (write_done err (set_writeCallbacks rest s))
      | [] => None
      end
  | e_fs_done err =>
      match fsCallbacks s with
      | S n => Some (writeFile_done err (set_fsCallbacks n s))
      | O => None
      end
  end.

Fixpoint run (es : list Event) (s : State) : option State :=
  match es with
  | [] => Some s
  | e :: rest =>
      match step e s with
      | Some s' => run rest s'
      | None => None
      end
  end.

End Controller.

(** ** What the claims speak about *)

(** A configuration with the values the comments of the script name: half
    a minute of overall deadline, three seconds above the threshold for a
    baseline, 500 ms below it to give up, five seconds of measurement, a
    trigger of 0.8; weights are rounded to two decimals. *)
Definition example_config : config.t :=
  config.mk "0403" "6015" 30000 3000 3000 500 100 5000
            (Number.double (8 # 10)) 90 2.

Definition example_device : Device := mkDevice "6015" "0403" "COM3".

(** An 11-byte frame of magnitude [v], as in the comment of [checkResponse]:
    FF FF FE 0D AC 00 00 00 00 00 40 for 3500. *)
Definition frame (v : Z) : list Z :=
  [255; 255; 254; v / 256; v mod 256; 0; 0; 0; 0; 0; 64].

(** From the start to sampling: the peer asks for a measure, the first
    poll finds the device, the port opens, both writes succeed, the device
    answers with the coefficient [n]/10^6, and after the sampling delay the
    parser is attached (timer 0 is the overall deadline, 1 the poll, 2 the
    sampling delay). *)
Definition to_sampling (n : Z) : list Event :=
  [e_ready; e_command measureStart; e_advance 1000; e_fire 1;
   e_list_resolved [example_device]; e_open;
   e_write_done false; e_write_done false; e_coef n;
   e_advance 100; e_fire 2; e_write_done false].

(** "Exactly one status message is emitted" between two states. *)
Definition emits_one (before after : State) : Prop :=
  exists m, channel after = channel before ++ [m].

(** "Every session-scoped field is reset", the coefficient included. *)
Definition session_cleared (s : State) : Prop :=
  first s = true /\ weightArray s = [] /\ baseline s = 0 /\ (coef s == 0)%Q.

(** The weight [checkResponse] computes for a frame in state [s]. *)
Definition sample_weight (cfg : config.t) (data : list Z) (s : State) : Q :=
  Big.toNumber (weight_of cfg (baseline s) (decode data) (coef s)).

(** "The weight emitted is the rounded product." *)
Definition emits_rounded (cfg : config.t) (data : list Z) (s : State) : Prop :=
  channel (checkResponse cfg data s)
  = channel s
    ++ [measure_received
          (Big.round (config.bigRound cfg)
             (Qabs (inject_Z (baseline s) - inject_Z (decode data)) * coef s))].

(** "The sample is accepted": appended, counted in the maximum, reported
    with one decimal. *)
Definition accepted (cfg : config.t) (data : list Z) (s : State) : Prop :=
  weightArray (checkResponse cfg data s)
  = weightArray s ++ [sample_weight cfg data s]
  /\ weightMax (checkResponse cfg data s)
     = (if Qle_bool (sample_weight cfg data s) (weightMax s)
        then weightMax s else sample_weight cfg data s)
  /\ channel (checkResponse cfg data s)
     = channel s
       ++ [measure_received (Number.toFixed 1 (sample_weight cfg data s))].

(** "The sample is discarded": nothing appended, counted or reported. *)
Definition discarded (cfg : config.t) (data : list Z) (s : State) : Prop :=
  weightArray (checkResponse cfg data s) = weightArray s
  /\ weightMax (checkResponse cfg data s) = weightMax s
  /\ channel (checkResponse cfg data s) = channel s.

(** The capture window is open: started and not yet elapsed. *)
Definition window_open (s : State) : Prop :=
  first s = false /\ startTimeoutMeasurement s = true /\ stopMeasurement s = false.

(** Nothing is pending: no port, no timer, no callback to come. *)
Definition idle (s : State) : Prop :=
  port s = None /\ parser s = false /\ timers s = [] /\ writeCallbacks s = []
  /\ listings s = O /\ fsCallbacks s = O.

(** The events that come from the peer or the host, not from the cycle. *)
Definition external (e : Event) : bool :=
  match e with
  | e_ready | e_command _ | e_advance _ => true
  | _ => false
  end.

(** ** The magnitude of a frame, as the script spells it

    [parseInt(data[3].toString(16).padStart(2, "0")
              .concat(data[4].toString(16).padStart(2, "0")), 16)] *)

Definition hex_lower : string := "0123456789abcdef".
Definition hex_upper : string := "0123456789ABCDEF".

(** The digit of value [d]. *)
Definition hex_digit (d : Z) : Ascii.ascii :=
  match String.get (Z.to_nat d) hex_lower with
  | Some c => c
  | None => Ascii.zero
  end.

(** [n.toString(16)] of a non-negative integer: at most [fuel] digits are
    written in front of [acc]. *)
Fixpoint digits16 (fuel : nat) (n : Z) (acc : string) : string :=
  match fuel with
  | O => acc
  | S f =>
      let acc := String (hex_digit (n mod 16)) acc in
      if n <? 16 then acc else digits16 f (n / 16) acc
  end.

Definition toString16 (n : Z) : string :=
  digits16 (S (Z.to_nat (Z.log2 n))) n EmptyString.

Fixpoint fill (n : nat) (c : Ascii.ascii) (s : string) : string :=
  match n with
  | O => s
  | S n => String c (fill n c s)
  end.

(** [s.padStart(n, c)] for a one-character filler. *)
Definition padStart (n : nat) (c : Ascii.ascii) (s : string) : string :=
  fill (n - String.length s) c s.

Fixpoint index_of (c : Ascii.ascii) (s : string) (i : Z) : option Z :=
  match s with
  | EmptyString => None
  | String x rest => if Ascii.eqb x c then Some i else index_of c rest (i + 1)
  end.

(** The value of a digit, in either case. *)
Definition digit_value (c : Ascii.ascii) : option Z :=
  match index_of c hex_lower 0 with
  | Some d => Some d
  | None => index_of c hex_upper 0
  end.

(** [parseInt(s, 16)] on a string without blanks, sign or prefix: the
    digits up to the first character that is none; [None] is NaN. *)
Fixpoint parse16 (s : string) (acc : option Z) : option Z :=
  match s with
  | EmptyString => acc
  | String c rest =>
      match digit_value c with
      | Some d =>
          parse16 rest (Some (match acc with
                              | Some a => a * 16 + d
                              | None => d
                              end))
      | None => acc
      end
  end.

Definition parseInt16 (s : string) : option Z := parse16 s None.

(** The [value] of [checkResponse]; [None] when the frame has no fifth
    byte or the digits do not parse. *)
Definition frame_value (data : list Z) : option Z :=
  match nth_error data 3, nth_error data 4 with
  | Some b3, Some b4 =>
      parseInt16 (padStart 2 (hex_digit 0) (toString16 b3)
                  ++ padStart 2 (hex_digit 0) (toString16 b4))
  | _, _ => None
  end.

(** The bytes of a buffer. *)
Definition is_byte (b : Z) : bool := (0 <=? b) && (b <? 256).

(** ** The capture of a session *)






(** The timers a [clearTimeout(h)] leaves. *)
Definition without (h : option nat) (l : list Timer) : list Timer :=
  match h with
  | Some i => filter (fun t => negb (Nat.eqb (tid t) i)) l
  | None => l
  end.



(** ** A listing of devices *)

(** The test of the poll on one device. *)
Definition matching (cfg : config.t) (d : Device) : bool :=
  String.eqb (d_productId d) (config.productId cfg)
  && String.eqb (d_vendorId d) (config.vendorId cfg).

(** What the poll does for a device that passes the test. *)
Definition found (d : Device) (s : State) : State :=
  KGrip (d_path d)
    (emitMessage device_found
       (clearTimeout (searchUsbInterval (set_socketPath (Some (d_path d)) s))
          (set_socketPath (Some (d_path d)) s))).

End Grip.

(** ** The queue of the main script

    [zeromqSendMessage] hands every outgoing message to one [JobQueue]. *)
Module Sender.
Import Queue.

(** [new JobQueue({ concurrency: 1, retryDelay: 0, timeout: 1 })], then
    [queue.process('zeromqSendMessage', handler)]. *)
Definition options : Options := mkOptions (Some 1) (Some 0) (Some 1).

Definition jobType : string := "zeromqSendMessage".

Definition start : World := process jobType (init options).

(** [zeromqSendMessage(msg)]: [queue.add('zeromqSendMessage', {message: msg})]. *)
Definition zeromqSendMessage (w : World) : World :=
  add jobType (mkJobOptions None None None None) w.

(** How a race of the registered handler can end.  The handler awaits a
    promise whose [resolve] is returned from the [then] callback but never
    called: the handler's promise is rejected when [dealer.send] fails and
    stays pending otherwise, so the race ends by that rejection or by the
    timeout.  The handler is an [async] function: whatever happens in its
    body, the call returns a promise, so it never throws into
    [_executeJob] ([e_throwing] is no event of the main script). *)
Definition handler_outcome (o : Outcome) : bool :=
  match o with
  | resolved => false
  | rejected | timed_out => true
  end.

(** What happens to the queue in the main script: messages are sent, time
    passes, timers fire, races settle and continuations run. *)
Definition event (e : Event) : bool :=
  match e with
  | e_add t o =>
      String.eqb t jobType
      && match o with
         | mkJobOptions None None None None => true
         | _ => false
         end
  | e_advance _ | e_timer _ | e_microtask => true
  | e_settle _ o => handler_outcome o
  | e_process _ | e_pause | e_resume | e_clear | e_throwing _ => false
  end.

End Sender.

(** * The job queue: what holds of it *)

Module QueueProofs.
Import Queue.

(** *** Lists of jobs *)

Lemma map_upd_absent i f l :
  ~ In i (map id l) -> map (upd i f) l = l.
Proof.
  induction l as [|x l IH]; simpl; intros H; [reflexivity|].
  unfold upd at 1. destruct (Nat.eqb_spec (id x) i) as [E|E].
  - exfalso; apply H; now left.
  - f_equal. apply IH. intros K; apply H; now right.
Qed.

Lemma update_job_map i f l :
  NoDup (map id l) -> update_job i f l = map (upd i f) l.
Proof.
  induction l as [|x l IH]; simpl; intros H; [reflexivity|].
  inversion H as [|? ? Hx Hl]; subst.
  unfold upd at 1. destruct (Nat.eqb_spec (id x) i) as [E|E].
  - subst i. now rewrite map_upd_absent.
  - now rewrite IH.
Qed.

Lemma removeJob_filter i l :
  NoDup (map id l) ->
  _removeJob i l = filter (fun j => negb (Nat.eqb (id j) i)) l.
Proof.
  induction l as [|x l IH]; simpl; intros H; [reflexivity|].
  inversion H as [|? ? Hx Hl]; subst.
  destruct (Nat.eqb_spec (id x) i) as [E|E]; simpl.
  - subst i. symmetry. apply forallb_filter_id.
    apply forallb_forall. intros y Hy.
    destruct (Nat.eqb_spec (id y) (id x)) as [E'|E']; [|reflexivity].
    exfalso; apply Hx. rewrite <- E'. now apply in_map.
  - now rewrite IH.
Qed.

Lemma remove_awaiting_filter i l :
  NoDup (map (fun p : Job * Z => id (fst p)) l) ->
  remove_awaiting i l = filter (fun p => negb (Nat.eqb (id (fst p)) i)) l.
Proof.
  induction l as [|[x t] l IH]; simpl; intros H; [reflexivity|].
  inversion H as [|? ? Hx Hl]; subst.
  destruct (Nat.eqb_spec (id x) i) as [E|E]; simpl.
  - subst i. symmetry. apply forallb_filter_id.
    apply forallb_forall. intros [y u] Hy. simpl.
    destruct (Nat.eqb_spec (id y) (id x)) as [E'|E']; [|reflexivity].
    exfalso; apply Hx. rewrite <- E'.
    change (id y) with ((fun p : Job * Z => id (fst p)) (y, u)). now apply in_map.
  - now rewrite IH.
Qed.

Lemma map_id_same g l :
  (forall j : Job, id (g j) = id j) -> map id (map g l) = map id l.
Proof.
  intros Hg. rewrite map_map. apply map_ext. auto.
Qed.

Lemma upd_id i f j : (forall x, id (f x) = id x) -> id (upd i f j) = id j.
Proof. intros H. unfold upd. destruct (Nat.eqb (id j) i); auto. Qed.

Lemma upd_priority i f j :
  (forall x, priority (f x) = priority x) -> priority (upd i f j) = priority j.
Proof. intros H. unfold upd. destruct (Nat.eqb (id j) i); auto. Qed.

Lemma insertJob_split job l :
  exists before after,
    l = before ++ after /\ _insertJob job l = before ++ job :: after /\
    Forall (fun j => priority job <= priority j) before /\
    match after with
    | [] => True
    | x :: _ => priority x < priority job
    end.
Proof.
  induction l as [|x l IH]; simpl.
  - exists [], []. repeat split; auto.
  - destruct (Z.ltb_spec (priority x) (priority job)) as [L|L].
    + exists [], (x :: l). repeat split; auto.
    + destruct IH as (b & a & E1 & E2 & F & T).
      exists (x :: b), a. rewrite E2, E1 at 1. repeat split; auto.
Qed.

Lemma insertJob_perm job l : Permutation (job :: l) (_insertJob job l).
Proof.
  destruct (insertJob_split job l) as (b & a & E1 & E2 & _).
  rewrite E2, E1. apply Permutation_middle.
Qed.


Lemma NoDup_app_inv {A} (l1 l2 : list A) :
  NoDup (l1 ++ l2) ->
  NoDup l1 /\ NoDup l2 /\ (forall a, In a l1 -> ~ In a l2).
Proof.
  intros H. split; [|split].
  - eapply NoDup_app_remove_r; eauto.
  - eapply NoDup_app_remove_l; eauto.
  - induction l1 as [|x l1 IH]; simpl in *; [tauto|].
    inversion H as [|? ? Hx Hl]; subst. intros a [E|I] K.
    + subst. apply Hx. apply in_or_app. now right.
    + now apply (IH Hl a).
Qed.

Lemma NoDup_map_filter {A B} (f : A -> B) p l :
  NoDup (map f l) -> NoDup (map f (filter p l)).
Proof.
  induction l as [|x l IH]; simpl; intros H; [constructor|].
  inversion H as [|? ? Hx Hl]; subst.
  destruct (p x); simpl; auto. constructor; auto.
  intros K. apply Hx. apply in_map_iff in K. destruct K as (y & E & I).
  apply in_map_iff. exists y. split; auto. now apply filter_In in I.
Qed.

Lemma in_map_filter {A B} (f : A -> B) p l b :
  In b (map f (filter p l)) -> In b (map f l).
Proof.
  intros K. apply in_map_iff in K. destruct K as (y & E & I).
  apply in_map_iff. exists y. split; auto. now apply filter_In in I.
Qed.

Lemma by_priority_map g l :
  (forall j, priority (g j) = priority j) ->
  by_priority l -> by_priority (map g l).
Proof.
  intros Hg. unfold by_priority. induction 1 as [|x l S IH F]; simpl; constructor; auto.
  rewrite Forall_forall in *. intros y Hy. apply in_map_iff in Hy.
  destruct Hy as (z & <- & Hz). rewrite !Hg. auto.
Qed.

Lemma by_priority_filter p l : by_priority l -> by_priority (filter p l).
Proof.
  unfold by_priority. induction 1 as [|x l S IH F]; simpl; [constructor|].
  destruct (p x); auto. constructor; auto.
  rewrite Forall_forall in *. intros y Hy. apply filter_In in Hy. apply F, Hy.
Qed.

Lemma by_priority_insert job l : by_priority l -> by_priority (_insertJob job l).
Proof.
  unfold by_priority. induction 1 as [|x l S IH F]; simpl.
  - constructor; constructor.
  - destruct (Z.ltb_spec (priority x) (priority job)) as [L|L].
    + constructor; [constructor; auto|]. constructor; [lia|].
      rewrite Forall_forall in *. intros y Hy. specialize (F y Hy). lia.
    + constructor; auto. rewrite Forall_forall in *. intros y Hy.
      apply (Permutation_in _ (Permutation_sym (insertJob_perm job l))) in Hy.
      destruct Hy as [<-|Hy]; auto. 
Qed.

(** *** The bookkeeping is kept by every operation *)

Lemma Inv_init o : Inv (init o).
Proof.
  constructor; cbn; auto; try constructor; try tauto. lia.
Qed.

(** A step that touches the counters only. *)
Lemma Inv_counters w w' :
  Inv w ->
  running (queue w')
    = Z.of_nat (List.length (awaiting w')) + Z.of_nat (continuations w') ->
  running (queue w') <= Z.max 0 (concurrency (queue w')) ->
  jobs (queue w') = jobs (queue w) ->
  awaiting w' = awaiting w ->
  delayed_ids w' = delayed_ids w ->
  nextId w' = nextId w ->
  Inv w'.
Proof.
  intros [] R C J A D N.
  constructor; [exact R|exact C|..];
    unfold await_ids, job_ids in *; rewrite ?J, ?A, ?D, ?N; auto.
Qed.

Lemma Inv_same w w' :
  Inv w ->
  running (queue w') = running (queue w) ->
  concurrency (queue w') = concurrency (queue w) ->
  jobs (queue w') = jobs (queue w) ->
  awaiting w' = awaiting w ->
  continuations w' = continuations w ->
  delayed_ids w' = delayed_ids w ->
  nextId w' = nextId w ->
  Inv w'.
Proof.
  intros I R C J A K D N. apply Inv_counters with (w := w); auto.
  - rewrite R, A, K. apply I.
  - rewrite R, C. apply I.
Qed.

(** A step that rewrites jobs of the array in place and drops some. *)
Lemma Inv_inplace w w' g keep :
  Inv w ->
  (forall j, id (g j) = id j) ->
  (forall j, priority (g j) = priority j) ->
  jobs (queue w') = filter keep (map g (jobs (queue w))) ->
  delayed_ids w' = delayed_ids w ->
  nextId w' = nextId w ->
  running (queue w')
    = Z.of_nat (List.length (awaiting w')) + Z.of_nat (continuations w') ->
  running (queue w') <= Z.max 0 (concurrency (queue w')) ->
  NoDup (await_ids w') ->
  (forall i, In i (await_ids w') -> In i (job_ids w ++ await_ids w)) ->
  (forall j, In j (jobs (queue w)) -> keep (g j) = true ->
             (In (id j) (await_ids w') <-> status (g j) = processing)) ->
  (forall i, In i (delayed_ids w) -> ~ In i (await_ids w')) ->
  Inv w'.
Proof.
  intros [R L N NA F P D S] Gi Gp J Dl Nx R' L' NA' IA P' D'.
  assert (Hids : forall i, In i (job_ids w') -> In i (job_ids w)).
  { unfold job_ids. rewrite J. intros i Hi. apply in_map_filter in Hi.
    now rewrite map_id_same in Hi. }
  destruct (NoDup_app_inv _ _ N) as (N1 & N2 & N3).
  constructor; auto.
  - rewrite Dl. apply NoDup_app; auto.
    + unfold job_ids. rewrite J. apply NoDup_map_filter. now rewrite map_id_same.
    + intros a Ha Hb. apply (N3 a Ha). now apply Hids.
  - rewrite Dl, Nx. intros i Hi. apply F.
    rewrite !in_app_iff in *. destruct Hi as [Hi|[Hi|Hi]]; auto.
    apply IA in Hi. rewrite in_app_iff in Hi. tauto.
  - rewrite J. intros j Hj. apply filter_In in Hj. destruct Hj as [Hj K].
    apply in_map_iff in Hj. destruct Hj as (x & <- & Hx).
    rewrite Gi. now apply P'.
  - now rewrite Dl.
  - rewrite J. now apply by_priority_filter, by_priority_map.
Qed.


Lemma filter_all {A} (l : list A) : filter (fun _ => true) l = l.
Proof. induction l; simpl; congruence. Qed.

Lemma Inv_jobs_nodup w : Inv w -> NoDup (map id (jobs (queue w))).
Proof. intros [? ? N]. now apply NoDup_app_inv in N. Qed.


Lemma find_awaiting_some i l job d :
  find_awaiting i l = Some (job, d) ->
  id job = i /\ In (job, d) l /\
  List.length l = S (List.length (remove_awaiting i l)).
Proof.
  unfold find_awaiting. induction l as [|[x t] l IH]; simpl; [discriminate|].
  destruct (Nat.eqb_spec (id x) i) as [E|E].
  - intros [= -> ->]. auto.
  - intros H. destruct (IH H) as (A & B & C). simpl. auto.
Qed.

Lemma in_await_filter i k (l : list (Job * Z)) :
  In k (map (fun p => id (fst p))
            (filter (fun p => negb (Nat.eqb (id (fst p)) i)) l))
  <-> In k (map (fun p => id (fst p)) l) /\ k <> i.
Proof.
  rewrite !in_map_iff. split.
  - intros (p & E & H). apply filter_In in H. destruct H as [H K].
    split; [now exists p|]. subst k.
    destruct (Nat.eqb_spec (id (fst p)) i); [discriminate|assumption].
  - intros [(p & E & H) K]. exists p. split; auto. apply filter_In. split; auto.
    subst k. destruct (Nat.eqb_spec (id (fst p)) i); [contradiction|reflexivity].
Qed.

(** The race of job [i] has settled: its status becomes [st], the job may
    leave the array, the execution is gone and a [finally] is due. *)
Lemma Inv_settled w w' i st keep :
  Inv w ->
  st <> processing ->
  jobs (queue w') = filter keep (map (upd i (set_status st)) (jobs (queue w))) ->
  (exists x, find_awaiting i (awaiting w) = Some x) ->
  awaiting w' = remove_awaiting i (awaiting w) ->
  continuations w' = S (continuations w) ->
  running (queue w') = running (queue w) ->
  concurrency (queue w') = concurrency (queue w) ->
  delayed_ids w' = delayed_ids w ->
  nextId w' = nextId w ->
  Inv w'.
Proof.
  intros I St J [[job d] Fa] A K R C Dl Nx.
  pose proof I as [R0 L N NA F P D S].
  apply find_awaiting_some in Fa. destruct Fa as (Ei & Hin & Len).
  assert (A' : await_ids w'
               = map (fun p => id (fst p))
                     (filter (fun p => negb (Nat.eqb (id (fst p)) i)) (awaiting w))).
  { unfold await_ids. rewrite A. now rewrite remove_awaiting_filter. }
  apply Inv_inplace with (w := w) (g := upd i (set_status st)) (keep := keep);
    auto.
  - intros j. now apply upd_id.
  - intros j. now apply upd_priority.
  - rewrite R, R0, A, K, Len. lia.
  - rewrite R, C. assumption.
  - rewrite A'. now apply NoDup_map_filter.
  - intros k Hk. rewrite A' in Hk. apply in_await_filter in Hk.
    apply in_or_app. right. apply Hk.
  - intros j Hj _. rewrite A', in_await_filter. unfold upd.
    destruct (Nat.eqb_spec (id j) i) as [E|E]; cbn.
    + split; [tauto|]. intros; congruence.
    + rewrite <- (P j Hj). unfold await_ids. tauto.
  - intros k Hk. rewrite A', in_await_filter. intros [Hk' _]. now apply (D k Hk).
Qed.

Lemma delayed_ids_snoc_process w d :
  flat_map delayed_id (timers w ++ [(d, cb_process)]) = delayed_ids w.
Proof. unfold delayed_ids. rewrite flat_map_app. cbn. now rewrite app_nil_r. Qed.

Lemma Inv_settle w i job d o :
  Inv w ->
  find_awaiting i (awaiting w) = Some (job, d) ->
  Inv (_executeJob_settle job o
         (set_awaiting (remove_awaiting i (awaiting w)) w)).
Proof.
  intros I Fa. pose proof (Inv_jobs_nodup w I) as ND.
  destruct (find_awaiting_some _ _ _ _ Fa) as (Ei & _ & _).
  assert (ND' : forall st, NoDup (map id (map (upd i (set_status st)) (jobs (queue w))))).
  { intros st. rewrite map_id_same; auto. intros j; now apply upd_id. }
  unfold _executeJob_settle. rewrite Ei.
  assert (Hres : forall st, st <> processing ->
    forall w', jobs (queue w')
               = _removeJob i (update_job i (set_status st) (jobs (queue w))) ->
    awaiting w' = remove_awaiting i (awaiting w) ->
    continuations w' = S (continuations w) ->
    running (queue w') = running (queue w) ->
    concurrency (queue w') = concurrency (queue w) ->
    delayed_ids w' = delayed_ids w ->
    nextId w' = nextId w -> Inv w').
  { intros st Hst w' J. intros.
    apply Inv_settled with (w := w) (i := i) (st := st)
      (keep := fun j => negb (Nat.eqb (id j) i)); eauto.
    rewrite J, (update_job_map _ _ _ ND). now apply removeJob_filter. }
  destruct o.
  - apply (Hres completed); [discriminate|reflexivity..].
  - destruct (attempts job <? maxAttempts job).
    + apply Inv_settled with (w := w) (i := i) (st := pending)
        (keep := fun _ => true); eauto; try reflexivity; try discriminate.
      * cbn. now rewrite filter_all, (update_job_map _ _ _ ND).
      * unfold delayed_ids. cbn. apply delayed_ids_snoc_process.
    + apply (Hres failed); [discriminate|reflexivity..].
  - destruct (attempts job <? maxAttempts job).
    + apply Inv_settled with (w := w) (i := i) (st := pending)
        (keep := fun _ => true); eauto; try reflexivity; try discriminate.
      * cbn. now rewrite filter_all, (update_job_map _ _ _ ND).
      * unfold delayed_ids. cbn. apply delayed_ids_snoc_process.
    + apply (Hres failed); [discriminate|reflexivity..].
Qed.

Lemma find_awaiting_snoc i l (j : Job) (d : Z) :
  ~ In i (map (fun p : Job * Z => id (fst p)) l) -> id j = i ->
  find_awaiting i (l ++ [(j, d)]) = Some (j, d).
Proof.
  unfold find_awaiting. intros H E.
  induction l as [|[x t] l IH]; simpl in *.
  - rewrite E, Nat.eqb_refl. reflexivity.
  - destruct (Nat.eqb_spec (id x) i); [tauto|]. apply IH. tauto.
Qed.

Lemma remove_awaiting_snoc i l (j : Job) (d : Z) :
  ~ In i (map (fun p : Job * Z => id (fst p)) l) -> id j = i ->
  remove_awaiting i (l ++ [(j, d)]) = l.
Proof.
  intros H E. induction l as [|[x t] l IH]; simpl in *.
  - rewrite E, Nat.eqb_refl. reflexivity.
  - destruct (Nat.eqb_spec (id x) i); [tauto|]. rewrite IH; tauto.
Qed.

Lemma Inv_process w : Inv w -> Inv (_process w).
Proof.
  intros I. unfold _process.
  destruct (paused (queue w) || (concurrency (queue w) <=? running (queue w)))
    eqn:G; [assumption|].
  apply orb_false_iff in G. destruct G as [_ G]. apply Z.leb_gt in G.
  destruct (find is_pending (jobs (queue w))) as [job|] eqn:Fd; [|assumption].
  apply find_some in Fd. destruct Fd as [Hin Hp].
  assert (Hst : status job = pending).
  { unfold is_pending in Hp. destruct (status job); simpl in Hp; congruence. }
  pose proof (Inv_jobs_nodup w I) as ND.
  pose proof I as [R L N NA F P D S].
  assert (Hnot : ~ In (id job) (await_ids w)).
  { intros K. apply (P job Hin) in K. congruence. }
  unfold _executeJob_begin.
  match goal with |- context [has_handler ?t ?q] => destruct (has_handler t q) end;
    cbn [negb].
  - (* a handler: the execution is suspended, unless the handler throws *)
    match goal with
    | |- Inv (if ?c then _ else ?e) => assert (ID : Inv e); [|destruct c; [|exact ID]]
    end.
    2:{ (* the handler throws: as a rejection right after the call *)
      match type of ID with
      | Inv (set_awaiting (?a ++ [(?j, ?d)]) ?w2) =>
          pose proof (Inv_settle _ (id job) j d rejected ID) as K;
          change (awaiting (set_awaiting (a ++ [(j, d)]) w2))
            with (awaiting w ++ [(j, d)]) in K;
          rewrite (find_awaiting_snoc (id job) (awaiting w) j d Hnot eq_refl),
                  (remove_awaiting_snoc (id job) (awaiting w) j d Hnot eq_refl)
            in K
      end.
      exact (K eq_refl). }
    apply Inv_inplace with (w := w)
      (g := fun j => upd (id job) incr_attempts (upd (id job) (set_status processing) j))
      (keep := fun _ => true); auto.
    + intros j. now rewrite !upd_id.
    + intros j. now rewrite !upd_priority.
    + cbn. rewrite filter_all, <- map_map.
      rewrite (update_job_map _ _ _ ND).
      rewrite update_job_map; [reflexivity|].
      rewrite map_id_same; auto. intros j; now apply upd_id.
    + cbn. rewrite R, length_app. cbn. lia.
    + cbn. lia.
    + unfold await_ids. cbn. rewrite map_app. cbn.
      apply NoDup_app; auto.
      * constructor; [tauto|constructor].
      * intros a Ha [<-|[]]. now apply Hnot.
    + unfold await_ids, job_ids. cbn. rewrite map_app. cbn. intros i Hi.
      rewrite !in_app_iff in *. destruct Hi as [Hi|[<-|[]]]; auto.
      left. now apply in_map.
    + intros j Hj _. unfold await_ids. cbn. rewrite map_app, in_app_iff. cbn.
      unfold upd. destruct (Nat.eqb_spec (id j) (id job)) as [E|E]; cbn.
      * rewrite E, Nat.eqb_refl. cbn. tauto.
      * destruct (Nat.eqb_spec (id j) (id job)); [contradiction|].
        rewrite <- (P j Hj). unfold await_ids. intuition congruence.
    + intros i Hi. unfold await_ids. cbn. rewrite map_app, in_app_iff. cbn.
      intros [K|[K|[]]]; [now apply (D i Hi)|].
      apply NoDup_app_inv in N. destruct N as (_ & _ & N). apply (N i Hi).
      subst i. now apply in_map.
  - (* no handler: the job fails at once *)
    apply Inv_inplace with (w := w)
      (g := fun j => upd (id job) (set_status failed) (upd (id job) (set_status processing) j))
      (keep := fun j => negb (Nat.eqb (id j) (id job))); auto.
    + intros j. now rewrite !upd_id.
    + intros j. now rewrite !upd_priority.
    + cbn. rewrite <- map_map.
      rewrite (update_job_map _ _ _ ND).
      rewrite update_job_map by (rewrite map_id_same; auto; intros j; now apply upd_id).
      rewrite removeJob_filter; [reflexivity|].
      rewrite !map_id_same; auto; intros j; now apply upd_id.
    + cbn. rewrite R. lia.
    + cbn. lia.
    + intros i Hi. apply in_or_app. now right.
    + intros j Hj K. rewrite !upd_id in K by auto.
      unfold upd. destruct (Nat.eqb_spec (id j) (id job)) as [E|E]; [discriminate|].
      cbn. destruct (Nat.eqb_spec (id j) (id job)); [contradiction|]. now apply P.
Qed.

Lemma Inv_finally w c :
  Inv w -> continuations w = S c ->
  Inv (_process_finally (set_continuations c w)).
Proof.
  intros I K. unfold _process_finally. apply Inv_process.
  pose proof I as [R L _ _ _ _ _ _].
  apply Inv_counters with (w := w); auto; cbn; rewrite ?R, ?K; lia.
Qed.


(** A job that no execution holds enters the array. *)
Lemma Inv_insert w w' job :
  Inv w ->
  status job <> processing ->
  jobs (queue w') = _insertJob job (jobs (queue w)) ->
  NoDup (delayed_ids w' ++ id job :: job_ids w) ->
  (forall i, In i (delayed_ids w') -> In i (delayed_ids w)) ->
  ~ In (id job) (await_ids w) ->
  (id job < nextId w')%nat ->
  (nextId w <= nextId w')%nat ->
  awaiting w' = awaiting w ->
  continuations w' = continuations w ->
  running (queue w') = running (queue w) ->
  concurrency (queue w') = concurrency (queue w) ->
  Inv w'.
Proof.
  intros [R L N NA F P D S] St J N' Dl Na Fr Nx A K R' C.
  pose proof (insertJob_perm job (jobs (queue w))) as Pm.
  assert (Pi : Permutation (id job :: job_ids w) (job_ids w')).
  { unfold job_ids. rewrite J. change (id job :: map id (jobs (queue w)))
      with (map id (job :: jobs (queue w))). now apply Permutation_map. }
  constructor; unfold await_ids in *; rewrite ?A.
  - rewrite R', K. assumption.
  - rewrite R', C. assumption.
  - eapply Permutation_NoDup; [|exact N']. now apply Permutation_app_head.
  - assumption.
  - intros i Hi. rewrite !in_app_iff in Hi. destruct Hi as [Hi|[Hi|Hi]].
    + apply Nat.lt_le_trans with (nextId w); auto. apply F.
      apply in_or_app. left. now apply Dl.
    + apply (Permutation_in _ (Permutation_sym Pi)) in Hi.
      destruct Hi as [<-|Hi]; auto.
      apply Nat.lt_le_trans with (nextId w); auto. apply F.
      rewrite !in_app_iff. auto.
    + apply Nat.lt_le_trans with (nextId w); auto. apply F.
      rewrite !in_app_iff. auto.
  - rewrite J. intros j Hj.
    apply (Permutation_in _ (Permutation_sym Pm)) in Hj.
    destruct Hj as [<-|Hj]; [|now apply P]. split; [contradiction|congruence].
  - intros i Hi. apply D. now apply Dl.
  - rewrite J. now apply by_priority_insert.
Qed.

Lemma Inv_fresh_id w : Inv w -> ~ In (nextId w) (delayed_ids w ++ job_ids w ++ await_ids w).
Proof.
  intros I K. apply (inv_fresh w I) in K. lia.
Qed.

(** [add] without a delay, up to the call of [_process]. *)
Lemma Inv_enqueued t o w :
  Inv w ->
  Inv (with_queue (fun q => set_jobs (_insertJob (new_job t o w) (jobs q)) q)
                  (set_nextId (S (nextId w)) w)).
Proof.
  intros I. pose proof (Inv_fresh_id w I) as Fr. rewrite !in_app_iff in Fr.
  pose proof I as [R L N NA F P D S].
  apply Inv_insert with (w := w) (job := new_job t o w); cbn; auto;
    try discriminate.
  all: try tauto.
  eapply Permutation_NoDup; [apply Permutation_middle|].
  constructor; auto. rewrite in_app_iff. tauto.
Qed.

Lemma Inv_add t o w : Inv w -> Inv (add t o w).
Proof.
  intros I. unfold add.
  match goal with |- Inv (emit _ ?x) => apply Inv_same with (w := x) end;
    try reflexivity.
  destruct (0 <? delay (new_job t o w)); [|now apply Inv_process, Inv_enqueued].
  (* held back by a timer *)
  pose proof (Inv_fresh_id w I) as Fr. rewrite !in_app_iff in Fr.
  pose proof I as [R L N NA F P D S].
  constructor; cbn; unfold await_ids, job_ids, delayed_ids in *; cbn;
    rewrite ?flat_map_app; cbn; auto.
  - rewrite <- app_assoc. cbn.
    eapply Permutation_NoDup; [apply Permutation_middle|].
    constructor; auto. rewrite in_app_iff. tauto.
  - intros i Hi. rewrite !in_app_iff in Hi. cbn in Hi.
    assert (i = nextId w \/ (i < nextId w)%nat) as [->|Hl]; [|lia..].
    destruct Hi as [[Hi|[Hi|[]]]|[Hi|Hi]]; auto; right; apply F;
      rewrite !in_app_iff; auto.
  - intros i Hi. rewrite in_app_iff in Hi. cbn in Hi.
    destruct Hi as [Hi|[<-|[]]]; [now apply D|tauto].
Qed.

Lemma remove_nth_split {A} n (l : list A) x :
  nth_error l n = Some x ->
  exists l1 l2, l = l1 ++ x :: l2 /\ remove_nth n l = l1 ++ l2.
Proof.
  revert l. induction n as [|n IH]; intros [|y l]; simpl; try discriminate.
  - intros [= ->]. now exists [], l.
  - intros H. destruct (IH l H) as (l1 & l2 & -> & E).
    exists (y :: l1), l2. simpl. now rewrite E.
Qed.

(** The timer of a delayed job, up to the call of [_process]. *)
Lemma Inv_ready w n due job :
  Inv w ->
  nth_error (timers w) n = Some (due, cb_delayed job) ->
  Inv (with_queue (fun q => set_jobs (_insertJob (ready job) (jobs q)) q)
                  (set_timers (remove_nth n (timers w)) w)).
Proof.
  intros I Hn. destruct (remove_nth_split _ _ _ Hn) as (l1 & l2 & E1 & E2).
  pose proof I as [R L N NA F P D S].
  assert (Dl : delayed_ids w
               = flat_map delayed_id l1 ++ id job :: flat_map delayed_id l2).
  { unfold delayed_ids. rewrite E1, flat_map_app. reflexivity. }
  apply Inv_insert with (w := w) (job := ready job); cbn; auto; try discriminate.
  - unfold delayed_ids. cbn. rewrite E2, flat_map_app.
    rewrite Dl in N. rewrite <- !app_assoc in *. cbn in N.
    eapply Permutation_NoDup; [|exact N].
    apply Permutation_app_head. apply Permutation_middle.
  - intros i. unfold delayed_ids. cbn. rewrite E2, E1, !flat_map_app.
    cbn. rewrite !in_app_iff. cbn. tauto.
  - apply D. rewrite Dl. rewrite in_app_iff. cbn. auto.
  - apply F. rewrite Dl. rewrite !in_app_iff. cbn. auto.
Qed.

(** A backoff timer leaves the table. *)
Lemma Inv_backoff w n due :
  Inv w ->
  nth_error (timers w) n = Some (due, cb_process) ->
  Inv (set_timers (remove_nth n (timers w)) w).
Proof.
  intros I Hn. destruct (remove_nth_split _ _ _ Hn) as (l1 & l2 & E1 & E2).
  apply Inv_same with (w := w); auto.
  unfold delayed_ids. cbn. rewrite E2, E1, !flat_map_app. reflexivity.
Qed.

Lemma Inv_timer w n due c :
  Inv w ->
  nth_error (timers w) n = Some (due, c) ->
  Inv (match c with
       | cb_delayed job => delayed_ready job (set_timers (remove_nth n (timers w)) w)
       | cb_process => _process (set_timers (remove_nth n (timers w)) w)
       end).
Proof.
  intros I Hn. destruct c as [job|]; apply Inv_process.
  - now apply Inv_ready with (due := due).
  - now apply Inv_backoff with (due := due).
Qed.

Lemma Inv_clear w : Inv w -> Inv (clear w).
Proof.
  intros [R L N NA F P D S]. constructor; cbn; auto.
  - unfold job_ids. cbn. rewrite app_nil_r. now apply NoDup_app_inv in N.
  - unfold job_ids, await_ids in *. cbn. intros i Hi. apply F.
    rewrite !in_app_iff in *. tauto.
  - intros j [].
  - constructor.
Qed.

Lemma Inv_step e w w' : Inv w -> step e w = Some w' -> Inv w'.
Proof.
  intros I. destruct e; simpl.
  - intros [= <-]. now apply Inv_same with (w := w).
  - intros [= <-]. now apply Inv_add.
  - intros [= <-]. now apply Inv_same with (w := w).
  - intros [= <-]. apply Inv_process. now apply Inv_same with (w := w).
  - intros [= <-]. now apply Inv_clear.
  - destruct (0 <=? dt); intros [= <-]. now apply Inv_same with (w := w).
  - destruct (nth_error (timers w) n) as [[due c]|] eqn:Hn; [|discriminate].
    destruct (due <=? now w); intros [= <-].
    pose proof (Inv_timer w n due c I Hn) as K. now destruct c.
  - destruct (find_awaiting jobId (awaiting w)) as [[job d]|] eqn:Fa; [|discriminate].
    destruct o; [| |destruct (d <=? now w)]; intros [= <-];
      now apply Inv_settle with (d := d).
  - destruct (continuations w) as [|c] eqn:K; intros [= <-].
    now apply Inv_finally.
  - intros [= <-]. now apply Inv_same with (w := w).
Qed.

Lemma Inv_run es : forall w w', Inv w -> run es w = Some w' -> Inv w'.
Proof.
  induction es as [|e es IH]; simpl; intros w w' I.
  - now intros [= <-].
  - destruct (step e w) as [w1|] eqn:St; [|discriminate].
    intros H. apply (IH w1); auto. now apply Inv_step with (e := e) (w := w).
Qed.

Lemma count_le_await w :
  Inv w -> count_processing (jobs (queue w)) <= Z.of_nat (List.length (awaiting w)).
Proof.
  intros I. pose proof (Inv_jobs_nodup w I) as ND. destruct I as [R L N NA F P D S].
  unfold count_processing. apply inj_le.
  rewrite <- (length_map id), <- (length_map (fun p : Job * Z => id (fst p)) (awaiting w)).
  apply NoDup_incl_length.
  - now apply NoDup_map_filter.
  - intros i Hi. apply in_map_iff in Hi. destruct Hi as (j & <- & Hj).
    apply filter_In in Hj. destruct Hj as [Hj Hp]. apply (P j Hj).
    unfold is_processing in Hp. destruct (status j); simpl in Hp; congruence.
Qed.


Lemma Inv_reachable o es w : run es (init o) = Some w -> Inv w.
Proof. apply Inv_run, Inv_init. Qed.

(** *** The limit is the configured one *)

Lemma settle_concurrency job o w :
  concurrency (queue (_executeJob_settle job o w)) = concurrency (queue w).
Proof.
  unfold _executeJob_settle.
  destruct o; try reflexivity; destruct (attempts job <? maxAttempts job);
    reflexivity.
Qed.

Lemma process_concurrency w :
  concurrency (queue (_process w)) = concurrency (queue w).
Proof.
  unfold _process, _executeJob_begin.
  destruct (paused (queue w) || _); [reflexivity|].
  destruct (find is_pending (jobs (queue w))); [|reflexivity].
  match goal with |- context [has_handler ?t ?q] => destruct (has_handler t q) end;
    cbn [negb]; [|reflexivity].
  match goal with |- context [if throwing ?x then _ else _] => destruct (throwing x) end;
    [|reflexivity].
  now rewrite settle_concurrency.
Qed.

Lemma step_concurrency e w w' :
  step e w = Some w' -> concurrency (queue w') = concurrency (queue w).
Proof.
  destruct e; simpl.
  - now intros [= <-].
  - intros [= <-]. unfold add. cbn.
    destruct (0 <? js_or (o_delay o) 0); [reflexivity|].
    now rewrite process_concurrency.
  - now intros [= <-].
  - intros [= <-]. unfold resume. now rewrite process_concurrency.
  - now intros [= <-].
  - destruct (0 <=? dt); now intros [= <-].
  - destruct (nth_error (timers w) n) as [[due c]|]; [|discriminate].
    destruct (due <=? now w); intros [= <-].
    destruct c; unfold delayed_ready; now rewrite process_concurrency.
  - destruct (find_awaiting jobId (awaiting w)) as [[job d]|]; [|discriminate].
    destruct o; [| |destruct (d <=? now w)]; intros [= <-];
      now rewrite settle_concurrency.
  - destruct (continuations w); intros [= <-].
    unfold _process_finally. now rewrite process_concurrency.
  - now intros [= <-].
Qed.

Lemma run_concurrency es : forall w w',
  run es w = Some w' -> concurrency (queue w') = concurrency (queue w).
Proof.
  induction es as [|e es IH]; simpl; intros w w'.
  - now intros [= <-].
  - destruct (step e w) as [w1|] eqn:St; [|discriminate].
    intros H. rewrite (IH _ _ H). now apply step_concurrency with (e := e).
Qed.

(** *** Dispatch *)

Lemma find_split {A} (p : A -> bool) l x :
  find p l = Some x ->
  exists before after,
    l = before ++ x :: after /\ p x = true /\
    Forall (fun y => p y = false) before.
Proof.
  induction l as [|y l IH]; simpl; [discriminate|].
  destruct (p y) eqn:Py.
  - intros [= ->]. exists [], l. auto.
  - intros H. destruct (IH H) as (b & a & -> & Px & Fb).
    exists (y :: b), a. auto.
Qed.

Lemma by_priority_split before x after :
  by_priority (before ++ x :: after) ->
  Forall (fun y => priority x <= priority y) before /\
  Forall (fun y => priority y <= priority x) after.
Proof.
  unfold by_priority. induction before as [|y b IH]; simpl; intros H.
  - apply StronglySorted_inv in H. split; [constructor|apply H].
  - apply StronglySorted_inv in H. destruct H as [H F].
    destruct (IH H) as [Fb Fa]. split; auto. constructor; auto.
    rewrite Forall_forall in F. apply F. apply in_or_app. right. now left.
Qed.

Lemma insertJob_sorted_split job l :
  by_priority l ->
  exists before after,
    l = before ++ after /\ _insertJob job l = before ++ job :: after /\
    Forall (fun j => priority job <= priority j) before /\
    Forall (fun j => priority j < priority job) after.
Proof.
  intros S. destruct (insertJob_split job l) as (b & a & E1 & E2 & Fb & Ha).
  exists b, a. repeat split; auto.
  destruct a as [|x a]; [constructor|].
  subst l. destruct (by_priority_split _ _ _ S) as [_ Fa].
  constructor; auto. rewrite Forall_forall in *. intros y Hy.
  specialize (Fa y Hy). lia.
Qed.


(** *** The order of the array *)

Lemma before_in_filter p a b l :
  before_in a b l -> p a = true -> p b = true -> before_in a b (filter p l).
Proof.
  intros (l1 & l2 & -> & Ha & Hb) Pa Pb.
  exists (filter p l1), (filter p l2). rewrite filter_app.
  repeat split; apply filter_In; auto.
Qed.

Lemma before_in_insert a b x m1 m2 :
  before_in a b (m1 ++ m2) -> before_in a b (m1 ++ x :: m2).
Proof.
  intros (l1 & l2 & E & Ha & Hb). symmetry in E.
  apply app_eq_app in E. destruct E as (k & [[-> ->]|[-> ->]]).
  - exists (m1 ++ x :: k), l2. rewrite <- app_assoc. repeat split; auto.
    rewrite in_app_iff in *. cbn. tauto.
  - exists l1, (k ++ x :: m2). rewrite <- app_assoc. repeat split; auto.
    rewrite in_app_iff in *. cbn. tauto.
Qed.

Lemma update_job_ids i f l :
  (forall j, id (f j) = id j) -> map id (update_job i f l) = map id l.
Proof.
  intros Hf. induction l as [|x l IH]; simpl; [reflexivity|].
  destruct (Nat.eqb (id x) i); simpl; [now rewrite Hf|now rewrite IH].
Qed.

Lemma removeJob_ids i l :
  NoDup (map id l) ->
  map id (_removeJob i l) = filter (fun k => negb (Nat.eqb k i)) (map id l).
Proof.
  intros H. rewrite (removeJob_filter i l H).
  induction l as [|x l IH]; simpl; [reflexivity|].
  inversion H; subst. destruct (Nat.eqb (id x) i); simpl; rewrite IH; auto.
Qed.

Lemma insertJob_ids job l :
  exists l1 l2, map id l = l1 ++ l2 /\ map id (_insertJob job l) = l1 ++ id job :: l2.
Proof.
  destruct (insertJob_split job l) as (b & a & E1 & E2 & _).
  exists (map id b), (map id a). rewrite E2. subst l. now rewrite !map_app.
Qed.

(** C7.  In every state a queue can reach from its construction, by any
    sequence of handler registrations, [add], [pause], [resume], [clear],
    timer firings, settled races and resumed [_process] calls, the number
    of jobs of the array in Processing status is at most the concurrency
    limit, which is the configured one ([options.concurrency || 1]),
    provided the configured limit is not negative. *)
Theorem processing_within_concurrency :
  forall o es w,
    (forall c, o_concurrency o = Some c -> 0 <= c) ->
    run es (init o) = Some w ->
    count_processing (jobs (queue w)) <= concurrency (queue w)
    /\ concurrency (queue w) = js_or (o_concurrency o) 1.
Proof.
  intros o es w Hc Hr.
  pose proof (Inv_reachable _ _ _ Hr) as I.
  pose proof (run_concurrency _ _ _ Hr) as C. cbn in C.
  split; [|exact C].
  pose proof (count_le_await w I) as K.
  destruct I as [R L _ _ _ _ _ _].
  assert (0 <= concurrency (queue w)).
  { rewrite C. unfold js_or. destruct (o_concurrency o) as [c|]; [|lia].
    specialize (Hc c eq_refl). destruct (c =? 0); lia. }
  lia.
Qed.

Lemma processing_within_concurrency_witness :
  exists w,
    run [e_process "send"; e_add "send" (mkJobOptions None None None None);
         e_add "send" (mkJobOptions (Some 5) None None None)]
        (init (mkOptions (Some 1) None None)) = Some w
    /\ count_processing (jobs (queue w)) = 1
    /\ count_processing (jobs (queue w)) <= concurrency (queue w).
Proof.
  eexists. split; [reflexivity|]. split; [reflexivity|].
  apply (processing_within_concurrency
           (mkOptions (Some 1) None None)
           [e_process "send"; e_add "send" (mkJobOptions None None None None);
            e_add "send" (mkJobOptions (Some 5) None None None)]).
  - intros c [= <-]. lia.
  - reflexivity.
Defined.

(** *** Retries *)

(** C2 (the code at the failing input).  A queue with concurrency 1 and a
    retry delay of 1000 ms runs a job with [maxAttempts] 3 whose handler
    always rejects.  The first attempt starts at 0 and is rejected at 50;
    the job goes back to Pending and a timer is set for 1050, but the
    [finally] block of [_process] calls [_process] at once, which finds the
    job Pending and starts the second attempt at 50, and the third follows
    the second rejection in the same way: all three attempts are over at
    50, the job has failed and left the array, and both backoff timers are
    still to fire. *)
Theorem retry_is_dispatched_without_backoff :
  exists w1 w2,
    run [e_process "send"; e_add "send" (mkJobOptions None (Some 3) None None);
         e_advance 50; e_settle 0 rejected]
        (init (mkOptions (Some 1) (Some 1000) None)) = Some w1
    /\ map (fun j => (id j, attempts j, status j)) (jobs (queue w1))
       = [(0%nat, 1, pending)]
    /\ timers w1 = [(1050, cb_process)]
    /\ step e_microtask w1 = Some w2
    /\ now w2 = 50
    /\ map (fun j => (id j, attempts j, status j)) (jobs (queue w2))
       = [(0%nat, 2, processing)]
    /\ timers w2 = [(1050, cb_process)]
    /\ exists w3,
         run [e_settle 0 rejected; e_microtask; e_settle 0 rejected; e_microtask] w2
         = Some w3
         /\ jobs (queue w3) = []
         /\ timers w3 = [(1050, cb_process); (2050, cb_process)]
         /\ rev (emitted w3)
            = [(0, job_start 0 0); (0, job_added 0); (50, job_retry 0);
               (50, job_start 0 1); (50, job_retry 0); (50, job_start 0 2);
               (50, job_failed 0)].
Proof.
  eexists. eexists. split; [vm_compute; reflexivity|].
  split; [reflexivity|]. split; [reflexivity|].
  split; [vm_compute; reflexivity|].
  split; [reflexivity|]. split; [reflexivity|]. split; [reflexivity|].
  eexists. split; [vm_compute; reflexivity|].
  split; [reflexivity|]. split; reflexivity.
Qed.

End QueueProofs.

(** * The controller: what holds of it *)

Module GripProofs.
Import Grip.

(** The inputs [endAlgorithm] branches on. *)
Ltac teardown_cases error s :=
  destruct s as [? ? ? ? [?|] [?|] ? ? ? ? ? ? ? ? ? ? ? ? ? ? ? ? ? ? ? ? ? ? ? ? ?];
  destruct error as [[[| |]|[|]]|].

(** *** Teardown *)

Lemma endAlgorithm_resets error errorMessage s :
  first (endAlgorithm error errorMessage s) = true
  /\ stopMeasurement (endAlgorithm error errorMessage s) = false
  /\ startTimeoutMeasurement (endAlgorithm error errorMessage s) = false
  /\ measureStarted (endAlgorithm error errorMessage s) = false
  /\ weightArray (endAlgorithm error errorMessage s) = []
  /\ baseline (endAlgorithm error errorMessage s) = 0.
Proof.
  teardown_cases error s; repeat split; reflexivity.
Qed.

Lemma endAlgorithm_keeps error errorMessage s :
  coef (endAlgorithm error errorMessage s) = coef s
  /\ weightMax (endAlgorithm error errorMessage s) = weightMax s
  /\ channel (endAlgorithm error errorMessage s) = channel s
  /\ display (endAlgorithm error errorMessage s) = display s.
Proof.
  teardown_cases error s; repeat split; reflexivity.
Qed.

Lemma endAlgorithm_messages error errorMessage s :
  messages (tempFile (endAlgorithm error errorMessage s))
  = match error with
    | Some e => if truthy error
                then messages (tempFile s) ++ [(e, errorMap e errorMessage)]
                else messages (tempFile s)
    | None => messages (tempFile s)
    end.
Proof.
  teardown_cases error s; reflexivity.
Qed.

Lemma emitMessage_channel m s : channel (emitMessage m s) = channel s ++ [m].
Proof. unfold emitMessage. destruct (callback s); reflexivity. Qed.

Lemma clearTimeout_channel h s : channel (clearTimeout h s) = channel s.
Proof. destruct h; reflexivity. Qed.

Lemma clearTimeout_tempFile h s : tempFile (clearTimeout h s) = tempFile s.
Proof. destruct h; reflexivity. Qed.

Lemma clearTimeout_socketPath h s : socketPath (clearTimeout h s) = socketPath s.
Proof. destruct h; reflexivity. Qed.

Lemma emitMessage_tempFile m s : tempFile (emitMessage m s) = tempFile s.
Proof. unfold emitMessage. destruct (callback s); reflexivity. Qed.

Lemma endAlgorithm_first error errorMessage s :
  first (endAlgorithm error errorMessage s) = true.
Proof. apply endAlgorithm_resets. Qed.

Lemma endAlgorithm_channel error errorMessage s :
  channel (endAlgorithm error errorMessage s) = channel s.
Proof. apply endAlgorithm_keeps. Qed.

Lemma endAlgorithm_display error errorMessage s :
  display (endAlgorithm error errorMessage s) = display s.
Proof. apply endAlgorithm_keeps. Qed.

Lemma confirm_fired_sets value s :
  weightMax (confirm_fired value s) = 0%Q
  /\ baseline (confirm_fired value s) = value
  /\ first (confirm_fired value s) = false
  /\ coef (confirm_fired value s) = coef s.
Proof.
  unfold confirm_fired, emitMessage. cbn. destruct (callback s); cbn; auto.
Qed.

(** C9 (amended).  [endAlgorithm], whatever its arguments and the state it
    runs in, leaves [first = true], both measurement flags and
    [measureStarted] false, the weight array empty and the baseline 0; it
    leaves the coefficient as it was, and so the running maximum, which is
    set to 0 when the next baseline is confirmed, while that confirmation
    does not touch the coefficient either. *)
Theorem teardown_resets_session_but_not_coefficient :
  forall error errorMessage s,
    (first (endAlgorithm error errorMessage s) = true
     /\ stopMeasurement (endAlgorithm error errorMessage s) = false
     /\ startTimeoutMeasurement (endAlgorithm error errorMessage s) = false
     /\ measureStarted (endAlgorithm error errorMessage s) = false
     /\ weightArray (endAlgorithm error errorMessage s) = []
     /\ baseline (endAlgorithm error errorMessage s) = 0)
    /\ coef (endAlgorithm error errorMessage s) = coef s
    /\ weightMax (endAlgorithm error errorMessage s) = weightMax s
    /\ (forall value,
           weightMax (confirm_fired value (endAlgorithm error errorMessage s)) = 0%Q
           /\ coef (confirm_fired value (endAlgorithm error errorMessage s)) = coef s).
Proof.
  intros error errorMessage s.
  destruct (endAlgorithm_keeps error errorMessage s) as (G & H & _).
  split; [apply endAlgorithm_resets|]. split; [exact G|]. split; [exact H|].
  intros value.
  destruct (confirm_fired_sets value (endAlgorithm error errorMessage s))
    as (A & _ & _ & B).
  split; [exact A|]. now rewrite B.
Qed.

(** C9 (as stated) fails: after a whole cycle, from the peer's request to
    the teardown that follows [measure_finish], the coefficient read from
    the device, 0.01, is still in place. *)
Lemma coefficient_survives_teardown :
  exists s,
    run example_config
        (to_sampling 10000
         ++ [e_frame (frame 3500); e_advance 3000; e_fire 3;
             e_frame (frame 2500); e_advance 5000; e_fire 4])
        initial = Some s
    /\ files s <> [] /\ first s = true /\ coef s = (1 # 100)%Q
    /\ ~ session_cleared s.
Proof.
  eexists. split; [vm_compute; reflexivity|].
  split; [discriminate|]. split; [reflexivity|]. split; [reflexivity|].
  intros (_ & _ & _ & K). vm_compute in K. discriminate.
Qed.

(** *** Status messages on the ways into teardown *)

(** C3 (amended).  [endAlgorithm] emits nothing.  A way into teardown emits
    a status exactly when its caller does so first: the overall deadline of
    [startDetectDevice] with a device path known and the deadline of
    [startMeasure] emit [timeout] and record code 6, the end of the
    measurement window emits [measure_finish]; the deadline without a device
    path (code 2), a failed write (code 3) and a failed enumeration (code 5)
    emit nothing and only record their code; [stopMeasure] emits nothing and
    resets no session field, its caller emits [app_hide]. *)
Theorem teardown_status_by_path :
  forall s,
    (forall error errorMessage,
        channel (endAlgorithm error errorMessage s) = channel s
        /\ display (endAlgorithm error errorMessage s) = display s)
    /\ (first (detect_deadline_fired s) = true /\
        match socketPath s with
        | Some (String _ _) =>
            channel (detect_deadline_fired s) = channel s ++ [msg_timeout]
            /\ messages (tempFile (detect_deadline_fired s))
               = messages (tempFile s)
                 ++ [(err_code 6, errorMap (err_code 6) None)]
        | _ =>
            channel (detect_deadline_fired s) = channel s
            /\ messages (tempFile (detect_deadline_fired s))
               = messages (tempFile s)
                 ++ [(err_code 2, errorMap (err_code 2) None)]
        end)
    /\ (first (measure_deadline_fired s) = true
        /\ channel (measure_deadline_fired s) = channel s ++ [msg_timeout]
        /\ messages (tempFile (measure_deadline_fired s))
           = messages (tempFile s) ++ [(err_code 6, errorMap (err_code 6) None)])
    /\ (first (write_done true s) = true
        /\ channel (write_done true s) = channel s
        /\ messages (tempFile (write_done true s))
           = messages (tempFile s) ++ [(err_code 3, errorMap (err_code 3) None)])
    /\ (first (list_rejected s) = true
        /\ channel (list_rejected s) = channel s
        /\ messages (tempFile (list_rejected s))
           = messages (tempFile s) ++ [(err_code 5, errorMap (err_code 5) None)])
    /\ (first (measurement_fired s) = true
        /\ channel (measurement_fired s)
           = channel s ++ [measure_finish (weightArray s)
                                          (toFixed1 (average (weightArray s)))
                                          (Number.toFixed 1 (weightMax s))]
        /\ messages (tempFile (measurement_fired s)) = messages (tempFile s))
    /\ (channel (stopMeasure s) = channel s
        /\ first (stopMeasure s) = first s
        /\ baseline (stopMeasure s) = baseline s
        /\ weightArray (stopMeasure s) = weightArray s
        /\ tempFile (stopMeasure s) = tempFile s
        /\ forall cfg, channel (listenZmq cfg measureStop s) = channel s ++ [app_hide]).
Proof.
  intros s.
  split; [intros; split; [apply endAlgorithm_channel|apply endAlgorithm_display]|].
  split.
  { unfold detect_deadline_fired. rewrite clearTimeout_socketPath.
    destruct (socketPath s) as [[|c p]|]; cbn [String.eqb];
      rewrite ?endAlgorithm_first, ?endAlgorithm_channel, ?endAlgorithm_messages,
              ?emitMessage_channel, ?emitMessage_tempFile,
              ?clearTimeout_channel, ?clearTimeout_tempFile;
      cbn [truthy negb Z.eqb]; repeat split; reflexivity. }
  split.
  { unfold measure_deadline_fired.
    rewrite endAlgorithm_first, endAlgorithm_channel, endAlgorithm_messages,
            emitMessage_channel, emitMessage_tempFile.
    repeat split. }
  split.
  { unfold write_done.
    rewrite endAlgorithm_first, endAlgorithm_channel, endAlgorithm_messages. auto. }
  split.
  { unfold list_rejected.
    rewrite endAlgorithm_first, endAlgorithm_channel, endAlgorithm_messages. auto. }
  split.
  { unfold measurement_fired. cbn [checkError String.eqb Ascii.eqb Bool.eqb].
    rewrite endAlgorithm_first, endAlgorithm_channel, endAlgorithm_messages,
            emitMessage_channel, emitMessage_tempFile.
    repeat split. }
  assert (K : channel (stopMeasure s) = channel s
              /\ first (stopMeasure s) = first s
              /\ baseline (stopMeasure s) = baseline s
              /\ weightArray (stopMeasure s) = weightArray s
              /\ tempFile (stopMeasure s) = tempFile s).
  { destruct s as [? ? ? ? [?|] [?|] ? ? ? ? ? ? ? ? ? [?|] [?|] [?|] [?|] ? ? ? ? ? ? ? ? ? ? ? ?];
      repeat split; reflexivity. }
  destruct K as (K1 & K2 & K3 & K4 & K5). repeat split; auto.
  intros cfg. unfold listenZmq. now rewrite emitMessage_channel, K1.
Qed.

(** C3 (as stated) fails: when nobody shows up before the overall deadline
    and no device path is known, teardown runs, with code 2 recorded and the
    session reset, and no status message at all is emitted. *)
Lemma device_not_found_is_silent :
  exists s0 s,
    run example_config [e_command measureStart; e_advance 30000] initial = Some s0
    /\ step example_config (e_fire 0) s0 = Some s
    /\ messages (tempFile s) = [(err_code 2, Some "No device Found"%string)]
    /\ first s = true /\ files s <> []
    /\ channel s = channel s0
    /\ ~ emits_one s0 s.
Proof.
  eexists. eexists. split; [vm_compute; reflexivity|].
  split; [vm_compute; reflexivity|].
  repeat (split; [reflexivity || discriminate|]).
  intros [m K]. vm_compute in K. discriminate.
Qed.


(** *** Commands without a port *)

Lemma sendCommand_no_port c s : port s = None -> sendCommand c s = s.
Proof. unfold sendCommand. now intros ->. Qed.

Lemma endAlgorithm_written_no_port error errorMessage s :
  port s = None -> written (endAlgorithm error errorMessage s) = written s.
Proof.
  intros H. teardown_cases error s; try discriminate H; reflexivity.
Qed.

Lemma emitMessage_port m s : port (emitMessage m s) = port s.
Proof. unfold emitMessage. destruct (callback s); reflexivity. Qed.

Lemma emitMessage_written m s : written (emitMessage m s) = written s.
Proof. unfold emitMessage. destruct (callback s); reflexivity. Qed.

Lemma measure_deadline_fired_spec s :
  first (measure_deadline_fired s) = true
  /\ channel (measure_deadline_fired s) = channel s ++ [msg_timeout]
  /\ messages (tempFile (measure_deadline_fired s))
     = messages (tempFile s) ++ [(err_code 6, errorMap (err_code 6) None)]
  /\ (port s = None -> written (measure_deadline_fired s) = written s).
Proof.
  unfold measure_deadline_fired.
  rewrite endAlgorithm_first, endAlgorithm_channel, endAlgorithm_messages,
          emitMessage_channel, emitMessage_tempFile.
  repeat split. intros H.
  rewrite endAlgorithm_written_no_port by now rewrite emitMessage_port.
  apply emitMessage_written.
Qed.

Lemma emitMessage_frame m s :
  timers (emitMessage m s) = timers s
  /\ listings (emitMessage m s) = listings s
  /\ parser (emitMessage m s) = parser s
  /\ writeCallbacks (emitMessage m s) = writeCallbacks s
  /\ fsCallbacks (emitMessage m s) = fsCallbacks s
  /\ now (emitMessage m s) = now s.
Proof. unfold emitMessage. destruct (callback s); repeat split. Qed.

Lemma startMeasure_no_port cfg s :
  port s = None ->
  startMeasure cfg s
  = emitMessage measureSamplingOn
      (set_algorithmTimeout (Some (nextTimer s))
         (set_nextTimer (S (nextTimer s))
            (set_timers
               (timers s ++ [mkTimer (nextTimer s)
                                     (now s + timer_delay (config.timeout cfg))
                                     None cb_measure_deadline]) s))).
Proof.
  intros H. unfold startMeasure, schedule. cbv zeta iota beta.
  apply sendCommand_no_port. now rewrite emitMessage_port.
Qed.

(** C10 (amended).  Without a port handle [sendCommand] changes nothing:
    no write, no callback to come, for every command.  So [startMeasure]
    without a port hands [measureSamplingOn] to the peer, arms its deadline
    and writes nothing; and when nothing else is pending, whatever time
    passes afterwards, the one event of the cycle that can follow is that
    deadline, once due, which emits [timeout] and tears down with code 6,
    still without a write. *)
Theorem startMeasure_without_port :
  forall cfg s,
    port s = None ->
    (forall c, sendCommand c s = s)
    /\ written (startMeasure cfg s) = written s
    /\ writeCallbacks (startMeasure cfg s) = writeCallbacks s
    /\ channel (startMeasure cfg s) = channel s ++ [measureSamplingOn]
    /\ timers (startMeasure cfg s)
       = timers s ++ [mkTimer (nextTimer s)
                              (now s + timer_delay (config.timeout cfg))
                              None cb_measure_deadline]
    /\ (idle s ->
        forall dt e s',
          step cfg e (set_now (now s + dt) (startMeasure cfg s)) = Some s' ->
          external e = false ->
          e = e_fire (nextTimer s)
          /\ timer_delay (config.timeout cfg) <= dt
          /\ channel s' = channel s ++ [measureSamplingOn; msg_timeout]
          /\ messages (tempFile s')
             = messages (tempFile s) ++ [(err_code 6, errorMap (err_code 6) None)]
          /\ first s' = true
          /\ written s' = written s).
Proof.
  intros cfg s Hp.
  split; [intros c; now apply sendCommand_no_port|].
  rewrite (startMeasure_no_port cfg s Hp).
  set (x := set_algorithmTimeout _ _).
  destruct (emitMessage_frame measureSamplingOn x) as (Et & El & Epa & Ew & Ef & En).
  rewrite emitMessage_written, emitMessage_channel, Ew, Et.
  repeat (split; [reflexivity|]).
  intros (_ & Hpa & Ht & Hw & Hl & Hf) dt e s' Hs He.
  destruct e; try discriminate He; unfold step in Hs; cbn [timers listings port
    parser writeCallbacks fsCallbacks now set_now] in Hs;
    rewrite ?Et, ?El, ?Epa, ?Ew, ?Ef, ?emitMessage_port in Hs;
    subst x; cbn [timers listings port parser writeCallbacks fsCallbacks
                  set_algorithmTimeout set_nextTimer set_timers] in Hs;
    rewrite ?Ht, ?Hl, ?Hpa, ?Hw, ?Hf, ?Hp in Hs; try discriminate Hs.
  cbn [app find tid] in Hs.
  destruct (Nat.eqb_spec (nextTimer s) h) as [<-|]; [|discriminate Hs].
  cbn [due cb run_callback] in Hs.
  match type of Hs with context [?a <=? ?b] =>
    destruct (Z.leb_spec a b) as [Hle|]; [|discriminate Hs] end.
  injection Hs as <-.
  match goal with |- context [measure_deadline_fired ?y] =>
    destruct (measure_deadline_fired_spec y) as (F1 & F2 & F3 & F4) end.
  rewrite F1, F2, F3.
  rewrite F4
    by (unfold rearm; cbn [repeat clearTimeout port set_timers set_now];
        rewrite emitMessage_port; exact Hp).
  clear F1 F2 F3 F4.
  split; [reflexivity|]. split; [lia|].
  unfold rearm. cbn [repeat clearTimeout channel tempFile written set_timers set_now].
  rewrite emitMessage_channel, emitMessage_written, emitMessage_tempFile.
  cbn. rewrite <- app_assoc. repeat split.
Qed.

Lemma startMeasure_without_port_witness :
  port initial = None /\ idle initial
  /\ written (startMeasure example_config initial) = []
  /\ channel (startMeasure example_config initial) = [measureSamplingOn]
  /\ exists s',
       step example_config (e_fire 0)
            (set_now (now initial + 30000) (startMeasure example_config initial))
       = Some s'
       /\ channel s' = [measureSamplingOn; msg_timeout]
       /\ written s' = [].
Proof.
  split; [reflexivity|]. split; [repeat split|].
  destruct (startMeasure_without_port example_config initial eq_refl)
    as (_ & W & _ & C & _ & K).
  split; [exact W|]. split; [exact C|].
  eexists. split; [vm_compute; reflexivity|].
  match goal with |- channel ?x = _ /\ _ =>
    assert (Hs : step example_config (e_fire 0)
                   (set_now (now initial + 30000)
                            (startMeasure example_config initial)) = Some x)
      by (vm_compute; reflexivity);
    destruct (K (conj eq_refl (conj eq_refl (conj eq_refl
                 (conj eq_refl (conj eq_refl eq_refl)))))
                30000 (e_fire 0) x Hs eq_refl)
      as (_ & _ & C' & _ & _ & W') end.
  split; [exact C'|exact W'].
Defined.

(** C10 (as stated) fails while a search for the device is under way.  The
    peer asks for a measure and then sends [measureSamplingOn] when no
    port is held yet: [startMeasure] writes nothing.  One second later the
    poll finds the device, the port opens, and after the sampling delay
    the 'open' handler writes SamplingOn; the first frame above the
    threshold clears the deadline of [startMeasure], the baseline is
    confirmed, a weight is captured, and the cycle ends with
    [measure_finish] when the measurement window elapses: no [timeout] is
    emitted and no deadline has fired (timer 0 is the deadline of the
    search, 1 the poll, 2 the deadline of [startMeasure], 3 the sampling
    delay, 4 the confirmation, 5 the measurement window). *)
Lemma startMeasure_before_the_port_opens :
  exists s0 s,
    run example_config [e_ready; e_command measureStart] initial = Some s0
    /\ port s0 = None
    /\ written (startMeasure example_config s0) = []
    /\ run example_config
           [e_advance 1000; e_fire 1; e_list_resolved [example_device]; e_open;
            e_write_done false; e_write_done false; e_coef 10000;
            e_advance 100; e_fire 3; e_write_done false;
            e_frame (frame 3500); e_advance 3000; e_fire 4;
            e_frame (frame 2500); e_advance 5000; e_fire 5]
           (startMeasure example_config s0) = Some s
    /\ written s = [SamplingOff; GetCoef; SamplingOn; SamplingOff]
    /\ channel s
       = [measureSamplingOn; device_found; baseline_ok; measure_received 10;
          measure_finish [10%Q] (Fin 10) 10]
    /\ first s = true
    /\ map cb (timers s) = [cb_detect_deadline].
Proof.
  eexists. eexists. split; [vm_compute; reflexivity|].
  split; [reflexivity|]. split; [reflexivity|].
  split; [vm_compute; reflexivity|].
  repeat split.
Qed.

(** [endAlgorithm] asks [error > 7] of a string as well: a string that
    reads as a number above 7 is its own key of the map. *)
Lemma errorMap_of_a_string :
  errorMap (err_flag "00") (Some "m"%string) = None
  /\ errorMap (err_flag "7.5") (Some "m"%string) = Some "m"%string
  /\ errorMap (err_flag " 0x10 ") (Some "m"%string) = Some "m"%string
  /\ errorMap (err_flag "1e1") (Some "m"%string) = Some "m"%string
  /\ errorMap (err_flag "Infinity") (Some "m"%string) = Some "m"%string
  /\ errorMap (err_flag "-8") (Some "m"%string) = None
  /\ errorMap (err_flag "eight") (Some "m"%string) = None.
Proof. repeat split; vm_compute; reflexivity. Qed.


(** *** The capture window *)

Lemma emitMessage_session m s :
  weightArray (emitMessage m s) = weightArray s
  /\ weightMax (emitMessage m s) = weightMax s
  /\ weight (emitMessage m s) = weight s
  /\ first (emitMessage m s) = first s
  /\ startTimeoutMeasurement (emitMessage m s) = startTimeoutMeasurement s
  /\ stopMeasurement (emitMessage m s) = stopMeasurement s
  /\ measurementTimeout (emitMessage m s) = measurementTimeout s.
Proof. unfold emitMessage. destruct (callback s); repeat split. Qed.

(** [checkResponse] on an open window. *)
Lemma checkResponse_window cfg data s :
  window_open s ->
  checkResponse cfg data s
  = (if negb (Qle_bool (sample_weight cfg data s) (config.trigger cfg))
        && negb (Qle_bool (config.ceilWeight cfg) (sample_weight cfg data s))
     then
       emitMessage (measure_received (Number.toFixed 1 (sample_weight cfg data s)))
         (set_weightArray (weightArray s ++ [sample_weight cfg data s])
            (if negb (Qle_bool (sample_weight cfg data s) (weightMax s))
             then set_weightMax (sample_weight cfg data s)
                    (set_weight (sample_weight cfg data s) s)
             else set_weight (sample_weight cfg data s) s))
     else set_weight (sample_weight cfg data s) s).
Proof.
  intros (Hf & Hst & Hsp). unfold checkResponse, sample_weight.
  rewrite Hf. cbv zeta.
  set (w := Big.toNumber (weight_of cfg (baseline s) (decode data) (coef s))).
  change (startTimeoutMeasurement (set_weight w s)) with (startTimeoutMeasurement s).
  rewrite Hst. cbv iota beta zeta.
  change (stopMeasurement (set_weight w s)) with (stopMeasurement s).
  rewrite Hsp.
  destruct (Qle_bool w (config.trigger cfg)); [reflexivity|].
  destruct (Qle_bool (config.ceilWeight cfg) w); [reflexivity|].
  cbn [negb andb].
  change (weightMax (set_weight w s)) with (weightMax s).
  destruct (Qle_bool w (weightMax s)); reflexivity.
Qed.

Lemma Qle_bool_false x y : Qle_bool x y = false <-> (y < x)%Q.
Proof.
  split.
  - intros H. apply Qnot_le_lt. intros K. apply Qle_bool_iff in K. congruence.
  - intros H. destruct (Qle_bool x y) eqn:E; [|reflexivity].
    apply Qle_bool_iff in E. exfalso. now apply (Qlt_not_le _ _ H).
Qed.

(** C6 (amended).  While the capture window is open, a sample whose
    weight is strictly above the trigger and strictly below the ceiling is
    appended to the weight array, raises the running maximum when it
    exceeds it, and is reported by [measure_received] with one decimal; any
    other sample, at
    or above the ceiling or at or below the trigger, is discarded.  In
    both cases the window stays open and its timer is untouched. *)
Theorem window_accepts_between_trigger_and_ceiling :
  forall cfg data s,
    window_open s ->
    ((config.trigger cfg < sample_weight cfg data s)%Q
     /\ (sample_weight cfg data s < config.ceilWeight cfg)%Q ->
     accepted cfg data s)
    /\ (~ ((config.trigger cfg < sample_weight cfg data s)%Q
           /\ (sample_weight cfg data s < config.ceilWeight cfg)%Q) ->
        discarded cfg data s)
    /\ window_open (checkResponse cfg data s)
    /\ timers (checkResponse cfg data s) = timers s
    /\ measurementTimeout (checkResponse cfg data s) = measurementTimeout s.
Proof.
  intros cfg data s W. pose proof W as (Hf & Hst & Hsp).
  unfold accepted, discarded, window_open.
  rewrite (checkResponse_window cfg data s W).
  set (w := sample_weight cfg data s).
  destruct (Qle_bool w (config.trigger cfg)) eqn:Et;
    [|destruct (Qle_bool (config.ceilWeight cfg) w) eqn:Ec]; cbn [negb andb].
  - apply Qle_bool_iff in Et. split; [|split; [|repeat split; assumption]].
    + intros [K _]. exfalso. now apply (Qlt_not_le _ _ K).
    + intros _. repeat split.
  - apply Qle_bool_iff in Ec. split; [|split; [|repeat split; assumption]].
    + intros [_ K]. exfalso. now apply (Qlt_not_le _ _ K).
    + intros _. repeat split.
  - apply Qle_bool_false in Et, Ec.
    match goal with |- context [emitMessage ?m ?x] =>
      destruct (emitMessage_session m x) as (A1 & A2 & A3 & A4 & A5 & A6 & A7);
      destruct (emitMessage_frame m x) as (B1 & _) end.
    rewrite emitMessage_channel, A1, A2, A4, A5, A6, A7, B1.
    clear A1 A2 A3 A4 A5 A6 A7 B1.
    split; [|split; [|destruct (Qle_bool w (weightMax s)); repeat split; assumption]].
    + intros _. destruct (Qle_bool w (weightMax s)); repeat split.
    + intros K. exfalso. apply K. now split.
Qed.

Lemma window_accepts_between_trigger_and_ceiling_witness :
  exists s,
    run example_config
        (to_sampling 10000
         ++ [e_frame (frame 3500); e_advance 3000; e_fire 3; e_frame (frame 2500)])
        initial = Some s
    /\ window_open s
    /\ sample_weight example_config (frame 2000) s = 15%Q
    /\ accepted example_config (frame 2000) s.
Proof.
  eexists. split; [vm_compute; reflexivity|].
  match goal with |- window_open ?x /\ _ =>
    assert (W : window_open x) by (repeat split) end.
  split; [exact W|]. split; [vm_compute; reflexivity|].
  apply (window_accepts_between_trigger_and_ceiling _ _ _ W).
  split; vm_compute; reflexivity.
Defined.

(** C6 (as stated) fails: with the window open, a sample of weight 0.5,
    below the ceiling of 90 but not above the trigger of 0.8, is neither
    appended nor reported. *)
Lemma below_trigger_is_discarded :
  exists s,
    run example_config
        (to_sampling 10000
         ++ [e_frame (frame 3500); e_advance 3000; e_fire 3; e_frame (frame 2500)])
        initial = Some s
    /\ window_open s
    /\ sample_weight example_config (frame 3450) s = (1 # 2)%Q
    /\ (sample_weight example_config (frame 3450) s
        < config.ceilWeight example_config)%Q
    /\ weightArray (checkResponse example_config (frame 3450) s) = weightArray s
    /\ ~ accepted example_config (frame 3450) s.
Proof.
  eexists. split; [vm_compute; reflexivity|].
  split; [repeat split|]. split; [vm_compute; reflexivity|].
  split; [vm_compute; reflexivity|]. split; [vm_compute; reflexivity|].
  intros (K & _). vm_compute in K. discriminate K.
Qed.


(** *** The end of the window without a sample *)

(** C4 (the code at the failing input).  The baseline is confirmed at
    3500 with coefficient 0.01; a sample of magnitude 60000 weighs 565,
    above the trigger and above the ceiling of 90: it opens the window and
    is discarded.  When the window elapses the weight array is empty, and
    the controller reports [measure_finish] with no samples and an average
    that is not a number, records no error code and persists that result. *)
Theorem empty_window_finishes_without_error :
  exists s,
    run example_config
        (to_sampling 10000
         ++ [e_frame (frame 3500); e_advance 3000; e_fire 3;
             e_frame (frame 60000); e_advance 5000; e_fire 4])
        initial = Some s
    /\ channel s = [device_found; baseline_ok; measure_finish [] NaN 0]
    /\ messages (tempFile s) = []
    /\ files s = [mkTemp (Some (mkOutput 0 [] NaN)) []].
Proof.
  eexists. split; [vm_compute; reflexivity|]. repeat split.
Qed.

(** Whatever the state, the callback of the measurement timer never
    records an error: [checkError] is given the constant flag. *)
Lemma measurement_fired_never_fails s :
  messages (tempFile (measurement_fired s)) = messages (tempFile s)
  /\ (weightArray s = [] ->
      channel (measurement_fired s)
      = channel s ++ [measure_finish [] NaN (Number.toFixed 1 (weightMax s))]).
Proof.
  unfold measurement_fired. cbn [checkError String.eqb Ascii.eqb Bool.eqb].
  rewrite endAlgorithm_channel, endAlgorithm_messages, emitMessage_channel,
          emitMessage_tempFile.
  split; [reflexivity|]. intros E. cbn. now rewrite E.
Qed.

(** *** Baseline confirmation *)

(** While the confirm-timer is live, a sample above the threshold changes
    nothing: the only branch that clears the cancel-timer asks for no live
    confirm-timer. *)
Lemma above_threshold_ignored_while_confirming cfg data s h :
  first s = true ->
  timeoutForStartSampling s = Some h ->
  _destroyed h s = false ->
  config.baseline cfg < decode data ->
  checkResponse cfg data s = s.
Proof.
  intros Hf Ht Hd Hv. unfold checkResponse. rewrite Hf, Ht.
  cbn [unset_or_destroyed]. rewrite Hd, andb_false_r.
  destruct (Z.ltb_spec (decode data) (config.baseline cfg)); [lia|reflexivity].
Qed.

(** C1 (the code at the failing input).  With a threshold of 3000, a
    sample of 3500 schedules the confirm-timer (handle 3, due after 3000
    ms); 100 ms later a sample of 2900 schedules the cancel-timer (handle
    4, due after 500 ms); 100 ms later a sample of 3500 arrives while both
    are pending and cancels nothing: both timers are still live.  The
    cancel-timer then fires on time, clears the confirm-timer and emits
    [baseline_stop]: the baseline is never confirmed, although the run
    below the threshold lasted 100 ms only. *)
Theorem interrupted_drop_still_aborts :
  exists s1 s2,
    run example_config
        (to_sampling 10000
         ++ [e_frame (frame 3500); e_advance 100; e_frame (frame 2900);
             e_advance 100; e_frame (frame 3500)])
        initial = Some s1
    /\ timeoutForStartSampling s1 = Some 3%nat
    /\ timeoutForCancelSamplingTimeout s1 = Some 4%nat
    /\ map (fun t => (tid t, due t, cb t)) (timers s1)
       = [(0%nat, 30000, cb_detect_deadline); (3%nat, 4100, cb_confirm 3500);
          (4%nat, 1700, cb_cancel)]
    /\ run example_config [e_advance 400; e_fire 4] s1 = Some s2
    /\ channel s2 = [device_found; baseline_stop 1001]
    /\ first s2 = true
    /\ map (fun t => (tid t, cb t)) (timers s2) = [(0%nat, cb_detect_deadline)]
    /\ step example_config (e_fire 3) (set_now 4100 s2) = None.
Proof.
  eexists. eexists. split; [vm_compute; reflexivity|].
  split; [reflexivity|]. split; [reflexivity|]. split; [reflexivity|].
  split; [vm_compute; reflexivity|].
  split; [reflexivity|]. split; [reflexivity|]. split; [reflexivity|].
  vm_compute. reflexivity.
Qed.


(** *** The weight of a sample *)

Lemma scale_pos dp : (0 < inject_Z (10 ^ Z.of_nat dp))%Q.
Proof.
  change 0%Q with (inject_Z 0). rewrite <- Zlt_Qlt.
  apply Z.pow_pos_nonneg; lia.
Qed.

Lemma Qle_bool_compat x y : (x == y)%Q -> Qle_bool 0 x = Qle_bool 0 y.
Proof.
  intros E. destruct (Qle_bool 0 x) eqn:A, (Qle_bool 0 y) eqn:B; try reflexivity.
  - apply Qle_bool_iff in A. rewrite E in A. apply Qle_bool_iff in A. congruence.
  - apply Qle_bool_iff in B. rewrite <- E in B. apply Qle_bool_iff in B. congruence.
Qed.

Lemma round_compat dp x y : (x == y)%Q -> Big.round dp x = Big.round dp y.
Proof.
  intros E. unfold Big.round. cbv zeta.
  rewrite (Qle_bool_compat x y E).
  assert (M : Qfloor (Qabs x * inject_Z (10 ^ Z.of_nat dp) + (1 # 2))
              = Qfloor (Qabs y * inject_Z (10 ^ Z.of_nat dp) + (1 # 2))).
  { apply Qfloor_comp. now rewrite E. }
  now rewrite M.
Qed.

Lemma round_nonneg dp x : (0 <= x)%Q -> (0 <= Big.round dp x)%Q.
Proof.
  intros H. unfold Big.round. cbv zeta. rewrite Qred_correct.
  assert (B : Qle_bool 0 x = true) by now apply Qle_bool_iff.
  rewrite B. apply Qle_shift_div_l; [apply scale_pos|].
  rewrite Qmult_0_l. change 0%Q with (inject_Z 0). rewrite <- Zle_Qle.
  change 0 with (Qfloor 0). apply Qfloor_resp_le.
  pose proof (Qabs_nonneg x). pose proof (scale_pos dp).
  assert (0 <= Qabs x * inject_Z (10 ^ Z.of_nat dp))%Q
    by (apply Qmult_le_0_compat; [assumption|now apply Qlt_le_weak]).
  lra.
Qed.

(** [round] of a value that is not negative is the nearest multiple of
    10^-dp: a whole number of units, at most half a unit away. *)
Lemma round_nearest dp x :
  (0 <= x)%Q ->
  exists k : Z,
    (Big.round dp x * inject_Z (10 ^ Z.of_nat dp) == inject_Z k)%Q
    /\ (Qabs (inject_Z k - x * inject_Z (10 ^ Z.of_nat dp)) <= 1 # 2)%Q.
Proof.
  intros H. unfold Big.round. cbv zeta.
  assert (B : Qle_bool 0 x = true) by now apply Qle_bool_iff.
  rewrite B. set (sc := inject_Z (10 ^ Z.of_nat dp)).
  pose proof (scale_pos dp) as Hs. fold sc in Hs.
  exists (Qfloor (Qabs x * sc + (1 # 2))). split.
  - rewrite Qred_correct. field. intros K. rewrite K in Hs. now apply Qlt_irrefl in Hs.
  - rewrite (Qabs_pos x H).
    pose proof (Qfloor_le (x * sc + (1 # 2))) as L1.
    pose proof (Qlt_floor (x * sc + (1 # 2))) as L2.
    rewrite inject_Z_plus in L2. change (inject_Z 1) with 1%Q in L2.
    apply Qabs_Qle_condition. split; lra.
Qed.

Lemma clearTimeout_frame h s :
  weight (clearTimeout h s) = weight s
  /\ callback (clearTimeout h s) = callback s
  /\ display (clearTimeout h s) = display s.
Proof. destruct h; repeat split. Qed.

(** [checkResponse] once the baseline is confirmed: the weight it leaves
    in [weight], and what it may hand to the peer. *)
Lemma measuring_tail cfg w x s :
  weight x = w -> channel x = channel s ->
  let r :=
    if negb (Qle_bool (config.ceilWeight cfg) w) && negb (stopMeasurement x)
    then emitMessage (measure_received (Number.toFixed 1 w))
           (set_weightArray
              (weightArray (if negb (Qle_bool w (weightMax x))
                            then set_weightMax w x else x) ++ [w])
              (if negb (Qle_bool w (weightMax x)) then set_weightMax w x else x))
    else x in
  weight r = w
  /\ (channel r = channel s
      \/ channel r = channel s ++ [measure_received (Number.toFixed 1 w)]).
Proof.
  intros Hw Hc r. subst r.
  destruct (negb (Qle_bool (config.ceilWeight cfg) w) && negb (stopMeasurement x));
    [|split; [assumption|now left]].
  match goal with |- context [emitMessage ?m ?y] =>
    destruct (emitMessage_session m y) as (_ & _ & A & _) end.
  rewrite A, emitMessage_channel.
  destruct (negb (Qle_bool w (weightMax x))); cbn; rewrite Hw, Hc; split; auto.
Qed.

(** [checkResponse] once the baseline is confirmed: the weight it leaves
    in [weight], and what it may hand to the peer. *)
Lemma checkResponse_measuring cfg data s :
  first s = false ->
  weight (checkResponse cfg data s) = sample_weight cfg data s
  /\ (channel (checkResponse cfg data s) = channel s
      \/ channel (checkResponse cfg data s)
         = channel s
           ++ [measure_received (Number.toFixed 1 (sample_weight cfg data s))]).
Proof.
  intros Hf. unfold checkResponse, sample_weight. rewrite Hf.
  set (w := Big.toNumber (weight_of cfg (baseline s) (decode data) (coef s))).
  cbv zeta.
  destruct (Qle_bool w (config.trigger cfg)); cbn [negb]; [split; [reflexivity|now left]|].
  change (startTimeoutMeasurement (set_weight w s)) with (startTimeoutMeasurement s).
  destruct (startTimeoutMeasurement s).
  - apply (measuring_tail cfg w (set_weight w s) s); reflexivity.
  - unfold schedule. cbv iota beta zeta.
    match goal with |- context [stopMeasurement ?y] =>
      apply (measuring_tail cfg w y s) end.
    + cbn [weight set_startTimeoutMeasurement set_measurementTimeout
           set_nextTimer set_timers].
      now destruct (clearTimeout_frame (algorithmTimeout (set_weight w s))
                                       (set_weight w s)) as (A & _).
    + cbn [channel set_startTimeoutMeasurement set_measurementTimeout
           set_nextTimer set_timers].
      now rewrite clearTimeout_channel.
Qed.

Lemma pow2_pos e : (0 < Number.pow2 e)%Q.
Proof.
  assert (P : forall n, 0 <= n -> (0 < inject_Z (2 ^ n))%Q).
  { intros n Hn. change 0%Q with (inject_Z 0). rewrite <- Zlt_Qlt.
    apply Z.pow_pos_nonneg; lia. }
  unfold Number.pow2. destruct (Z.leb_spec 0 e); [now apply P|].
  apply Qlt_shift_div_l; [apply P; lia|]. now rewrite Qmult_0_l.
Qed.

Lemma round_half_even_nonneg x : (0 <= x)%Q -> 0 <= Number.round_half_even x.
Proof.
  intros H. unfold Number.round_half_even. cbv zeta.
  assert (F : 0 <= Qfloor x).
  { change 0 with (Qfloor 0). now apply Qfloor_resp_le. }
  destruct (x - inject_Z (Qfloor x) ?= 1 # 2)%Q; [|lia..].
  destruct (Z.even (Qfloor x)); lia.
Qed.

Lemma double_pos_nonneg q : (0 <= q)%Q -> (0 <= Number.double_pos q)%Q.
Proof.
  intros H. unfold Number.double_pos. cbv zeta. rewrite Qred_correct.
  match goal with |- context [Number.pow2 ?e] =>
    pose proof (pow2_pos e) as Pe; set (p := Number.pow2 e) in * end.
  apply Qmult_le_0_compat; [|now apply Qlt_le_weak].
  change 0%Q with (inject_Z 0). rewrite <- Zle_Qle.
  apply round_half_even_nonneg. apply Qle_shift_div_l; [assumption|].
  now rewrite Qmult_0_l.
Qed.

(** A number that is not negative stays so through [toNumber]. *)
Lemma toNumber_nonneg q : (0 <= q)%Q -> (0 <= Big.toNumber q)%Q.
Proof.
  intros H. unfold Big.toNumber, Number.double.
  destruct (Qnum q) eqn:E; [apply Qle_refl|now apply double_pos_nonneg|].
  exfalso. unfold Qle in H. cbn in H. rewrite E in H. lia.
Qed.

(** C5 (amended).  For every frame processed after the baseline is
    confirmed, with a coefficient that is not negative, the weight the
    controller computes is [round(|baseline - v| * coef, bigRound)], the
    exact product rounded once to the nearest multiple of 10^-bigRound,
    taken as a number; it is never negative, and it is 0.06 for baseline
    3500, coefficient 0.000123 and sample 3000 at two decimals.  When the
    sample is reported, the value handed to the peer is that number printed
    with one decimal. *)
Theorem weight_is_rounded_scaled_distance :
  forall cfg data s,
    first s = false ->
    (0 <= coef s)%Q ->
    weight (checkResponse cfg data s)
    = Big.toNumber
        (Big.round (config.bigRound cfg)
           (Qabs (inject_Z (baseline s) - inject_Z (decode data)) * coef s))
    /\ (channel (checkResponse cfg data s) = channel s
        \/ channel (checkResponse cfg data s)
           = channel s
             ++ [measure_received
                   (Number.toFixed 1 (weight (checkResponse cfg data s)))])
    /\ (0 <= weight (checkResponse cfg data s))%Q
    /\ (exists k : Z,
           (Big.round (config.bigRound cfg)
              (Qabs (inject_Z (baseline s) - inject_Z (decode data)) * coef s)
            * inject_Z (10 ^ Z.of_nat (config.bigRound cfg)) == inject_Z k)%Q
           /\ (Qabs (inject_Z k
                     - Qabs (inject_Z (baseline s) - inject_Z (decode data)) * coef s
                       * inject_Z (10 ^ Z.of_nat (config.bigRound cfg)))
               <= 1 # 2)%Q)
    /\ (weight_of example_config 3500 3000 (123 # 1000000) == 6 # 100)%Q.
Proof.
  intros cfg data s Hf Hc.
  destruct (checkResponse_measuring cfg data s Hf) as (Hw & Hch).
  assert (E : sample_weight cfg data s
              = Big.toNumber
                  (Big.round (config.bigRound cfg)
                     (Qabs (inject_Z (baseline s) - inject_Z (decode data)) * coef s))).
  { unfold sample_weight, weight_of, Big.abs, Big.times, Big.minus. f_equal.
    apply round_compat. rewrite Qabs_Qmult. now rewrite (Qabs_pos (coef s)). }
  assert (P : (0 <= Qabs (inject_Z (baseline s) - inject_Z (decode data)) * coef s)%Q).
  { apply Qmult_le_0_compat; [apply Qabs_nonneg|assumption]. }
  rewrite Hw in *. rewrite E in *.
  split; [reflexivity|]. split; [exact Hch|].
  split; [now apply toNumber_nonneg, round_nonneg|].
  split; [now apply round_nearest|].
  vm_compute. reflexivity.
Qed.

Lemma weight_is_rounded_scaled_distance_witness :
  exists s,
    run example_config
        (to_sampling 123 ++ [e_frame (frame 3500); e_advance 3000; e_fire 3])
        initial = Some s
    /\ first s = false /\ baseline s = 3500 /\ coef s = (123 # 1000000)%Q
    /\ weight (checkResponse example_config (frame 3000) s)
       = Big.toNumber
           (Big.round 2 (Qabs (inject_Z 3500 - inject_Z 3000) * (123 # 1000000)))
    /\ weight (checkResponse example_config (frame 3000) s)
       = Big.toNumber (6 # 100).
Proof.
  eexists. split; [vm_compute; reflexivity|].
  split; [reflexivity|]. split; [reflexivity|]. split; [reflexivity|].
  split; [|vm_compute; reflexivity].
  match goal with |- weight (checkResponse _ _ ?x) = _ =>
    refine (proj1 (weight_is_rounded_scaled_distance example_config (frame 3000) x
                     eq_refl _)) end.
  vm_compute. discriminate.
Defined.

(** C5 (as stated) fails for what is emitted: with two decimals of
    precision, baseline 3500 and coefficient 0.000123, a sample of 10500
    weighs 0.86, and the value handed to the peer with [measure_received]
    is 0.9. *)
Lemma emitted_weight_has_one_decimal :
  exists s,
    run example_config
        (to_sampling 123 ++ [e_frame (frame 3500); e_advance 3000; e_fire 3])
        initial = Some s
    /\ (Big.round 2 (Qabs (inject_Z (baseline s) - inject_Z (decode (frame 10500)))
                     * coef s) == 86 # 100)%Q
    /\ channel (checkResponse example_config (frame 10500) s)
       = channel s ++ [measure_received (9 # 10)]
    /\ ~ emits_rounded example_config (frame 10500) s.
Proof.
  eexists. split; [vm_compute; reflexivity|].
  split; [vm_compute; reflexivity|]. split; [vm_compute; reflexivity|].
  intros K. vm_compute in K. discriminate K.
Qed.

End GripProofs.

(** * The job queue: counters, bookkeeping and order of dispatch *)

Module QueueExtra.
Import Queue QueueProofs.

(** *** The calls in closed form *)

Lemma update_update i f g l :
  (forall x, id (g x) = id x) ->
  update_job i f (update_job i g l) = update_job i (fun x => f (g x)) l.
Proof.
  intros Hg. induction l as [|x l IH]; simpl; [reflexivity|].
  destruct (Nat.eqb_spec (id x) i) as [E|E]; simpl.
  - rewrite Hg. destruct (Nat.eqb_spec (id x) i); [reflexivity|contradiction].
  - destruct (Nat.eqb_spec (id x) i); [contradiction|]. now rewrite IH.
Qed.

Lemma remove_update i f l :
  (forall x, id (f x) = id x) ->
  _removeJob i (update_job i f l) = _removeJob i l.
Proof.
  intros Hf. induction l as [|x l IH]; simpl; [reflexivity|].
  destruct (Nat.eqb_spec (id x) i) as [E|E]; simpl.
  - rewrite Hf. destruct (Nat.eqb_spec (id x) i); [reflexivity|contradiction].
  - destruct (Nat.eqb_spec (id x) i); [contradiction|]. now rewrite IH.
Qed.

Lemma world_eq w w' :
  queue w = queue w' -> now w = now w' -> nextId w = nextId w' ->
  timers w = timers w' -> awaiting w = awaiting w' ->
  continuations w = continuations w' -> emitted w = emitted w' ->
  throwing w = throwing w' -> w = w'.
Proof. destruct w, w'; simpl; intros; subst; reflexivity. Qed.

Lemma queue_eq q q' :
  concurrency q = concurrency q' -> retryDelay q = retryDelay q' ->
  defaultTimeout q = defaultTimeout q' -> jobs q = jobs q' ->
  running q = running q' -> paused q = paused q' ->
  handlers q = handlers q' -> stats q = stats q' -> q = q'.
Proof. destruct q, q'; simpl; intros; subst; reflexivity. Qed.

Ltac by_fields := apply world_eq; [apply queue_eq|..]; simpl; try reflexivity.

Lemma process_idle w :
  paused (queue w) = true \/ concurrency (queue w) <= running (queue w)
  \/ find is_pending (jobs (queue w)) = None ->
  _process w = w.
Proof.
  unfold _process. intros [P|[C|F]].
  - now rewrite P.
  - apply Z.leb_le in C. rewrite C. now rewrite orb_true_r.
  - rewrite F. now destruct (_ || _).
Qed.

Lemma process_takes w job :
  paused (queue w) = false ->
  running (queue w) < concurrency (queue w) ->
  find is_pending (jobs (queue w)) = Some job ->
  _process w
  = if has_handler (type job) (queue w)
    then if throwing w then thrown job w else dispatched job w
    else dropped job w.
Proof.
  intros P C F. unfold _process. rewrite P, F.
  apply Z.leb_gt in C. rewrite C. cbn [orb].
  unfold _executeJob_begin.
  replace (has_handler (type job)
             (queue (emit (job_start (id job) (attempts job))
                (with_queue (fun q => set_running (running q + 1) q)
                   (with_queue
                      (fun q => set_jobs (update_job (id job) (set_status processing) (jobs q)) q)
                      w)))))
    with (has_handler (type job) (queue w)) by reflexivity.
  destruct (has_handler (type job) (queue w)) eqn:H; cbn [negb].
  - match goal with
    | |- context [if throwing ?x then _ else _] =>
        replace (throwing x) with (throwing w) by reflexivity
    end.
    destruct (throwing w).
    + unfold thrown.
      change (incr_attempts (set_status processing job)) with (begun job).
      f_equal. by_fields. unfold begun. now rewrite update_update.
    + by_fields. unfold begun. now rewrite update_update.
  - by_fields. now rewrite !remove_update.
Qed.

Lemma process_cases w :
  _process w = w
  \/ exists job,
       find is_pending (jobs (queue w)) = Some job
       /\ paused (queue w) = false
       /\ running (queue w) < concurrency (queue w)
       /\ ((has_handler (type job) (queue w) = false /\ _process w = dropped job w)
           \/ (has_handler (type job) (queue w) = true
               /\ throwing w = false /\ _process w = dispatched job w)
           \/ (has_handler (type job) (queue w) = true
               /\ throwing w = true /\ _process w = thrown job w)).
Proof.
  destruct (paused (queue w)) eqn:P; [left; apply process_idle; auto|].
  destruct (Z.le_gt_cases (concurrency (queue w)) (running (queue w))) as [C|C];
    [left; apply process_idle; auto|].
  destruct (find is_pending (jobs (queue w))) as [job|] eqn:F;
    [|left; apply process_idle; auto].
  right. exists job. split; [reflexivity|]. split; [reflexivity|].
  split; [assumption|]. rewrite (process_takes w job P C F).
  destruct (has_handler (type job) (queue w)); auto.
  destruct (throwing w); auto.
Qed.

(** [_process] when the handler it may call returns a promise. *)
Lemma process_cases_calm w :
  throwing w = false ->
  _process w = w
  \/ exists job,
       find is_pending (jobs (queue w)) = Some job
       /\ paused (queue w) = false
       /\ running (queue w) < concurrency (queue w)
       /\ ((has_handler (type job) (queue w) = false /\ _process w = dropped job w)
           \/ (has_handler (type job) (queue w) = true
               /\ _process w = dispatched job w)).
Proof.
  intros T.
  destruct (process_cases w)
    as [E|(job & F & P & C & [[H E]|[(H & _ & E)|(_ & T' & _)]])];
    [now left| | |congruence]; right; exists job;
    (split; [exact F|]); (split; [exact P|]); (split; [exact C|]);
    [left|right]; split; assumption.
Qed.

Lemma settle_cases job o w :
  (o = resolved
   /\ _executeJob_settle job o w = finished bump_completed (job_completed (id job)) job w)
  \/ (o <> resolved /\ attempts job < maxAttempts job
      /\ _executeJob_settle job o w = retrying job w)
  \/ (o <> resolved /\ maxAttempts job <= attempts job
      /\ _executeJob_settle job o w = finished bump_failed (job_failed (id job)) job w).
Proof.
  unfold _executeJob_settle.
  destruct o; [left; split; [reflexivity|] | right | right].
  - by_fields. now rewrite remove_update.
  - destruct (Z.ltb_spec (attempts job) (maxAttempts job)) as [A|A];
      [left|right]; (split; [discriminate|]); (split; [assumption|]).
    + by_fields.
    + by_fields. now rewrite remove_update.
  - destruct (Z.ltb_spec (attempts job) (maxAttempts job)) as [A|A];
      [left|right]; (split; [discriminate|]); (split; [assumption|]).
    + by_fields.
    + by_fields. now rewrite remove_update.
Qed.

(** *** The answer of the handler and the state *)

Lemma settle_flag job o b w :
  _executeJob_settle job o (set_throwing b w)
  = set_throwing b (_executeJob_settle job o w).
Proof.
  unfold _executeJob_settle.
  destruct o; [| destruct (attempts job <? maxAttempts job)
               | destruct (attempts job <? maxAttempts job)]; by_fields.
Qed.

Lemma Inv_flag b w : Inv w -> Inv (set_throwing b w).
Proof. intros I. now apply Inv_same with (w := w). Qed.

(** A handler that throws leaves the state a rejection right after the
    call would have left. *)
Lemma thrown_settle w job d :
  ~ In (id job) (await_ids w) ->
  d = now w + timer_delay (timeout job) ->
  find_awaiting (id job) (awaiting (dispatched job (set_throwing false w)))
  = Some (begun job, d)
  /\ thrown job w
     = set_throwing (throwing w)
         (_executeJob_settle (begun job) rejected
            (set_awaiting
               (remove_awaiting (id job)
                  (awaiting (dispatched job (set_throwing false w))))
               (dispatched job (set_throwing false w)))).
Proof.
  intros Hnot ->.
  change (awaiting (dispatched job (set_throwing false w)))
    with (awaiting w ++ [(begun job, now w + timer_delay (timeout job))]).
  rewrite (find_awaiting_snoc (id job) (awaiting w) (begun job) _ Hnot eq_refl),
          (remove_awaiting_snoc (id job) (awaiting w) (begun job) _ Hnot eq_refl).
  split; [reflexivity|].
  rewrite <- settle_flag. reflexivity.
Qed.

(** *** Lists *)

Lemma in_removeJob i j l : In j (_removeJob i l) -> In j l.
Proof.
  induction l as [|x l IH]; simpl; [tauto|].
  destruct (Nat.eqb (id x) i); simpl; tauto.
Qed.

Lemma in_remove_awaiting i (x : Job * Z) l : In x (remove_awaiting i l) -> In x l.
Proof.
  induction l as [|[j t] l IH]; simpl; [tauto|].
  destruct (Nat.eqb (id j) i); simpl; tauto.
Qed.

Lemma in_update_job i f l j' :
  NoDup (map id l) ->
  In j' (update_job i f l) -> exists j, In j l /\ j' = upd i f j.
Proof.
  intros ND. rewrite (update_job_map _ _ _ ND), in_map_iff.
  intros (j & E & H). now exists j.
Qed.

Lemma same_id_same_job l a b :
  NoDup (map id l) -> In a l -> In b l -> id a = id b -> a = b.
Proof.
  induction l as [|x l IH]; simpl; [tauto|].
  intros ND. inversion ND as [|? ? Hx ND']; subst.
  intros [->|Ha] [->|Hb] E; auto.
  - exfalso. apply Hx. rewrite E. now apply in_map.
  - exfalso. apply Hx. rewrite <- E. now apply in_map.
Qed.

Lemma in_insertJob job j l : In j (_insertJob job l) <-> j = job \/ In j l.
Proof.
  split; intros H.
  - apply (Permutation_in _ (Permutation_sym (insertJob_perm job l))) in H.
    simpl in H. intuition.
  - apply (Permutation_in _ (insertJob_perm job l)). simpl. intuition.
Qed.

Lemma length_insertJob job l :
  List.length (_insertJob job l) = S (List.length l).
Proof. now rewrite <- (Permutation_length (insertJob_perm job l)). Qed.

Lemma find_pending job l :
  find is_pending l = Some job -> In job l /\ status job = pending.
Proof.
  intros F. apply find_some in F. destruct F as [Hin Hp]. split; [assumption|].
  unfold is_pending in Hp. destruct (status job); simpl in Hp; congruence.
Qed.

Lemma pending_not_held w job :
  Inv w -> In job (jobs (queue w)) -> status job = pending ->
  ~ In (id job) (await_ids w).
Proof.
  intros I Hin Hst K. apply (inv_processing w I job Hin) in K. congruence.
Qed.

Lemma held_in_awaiting i job d l :
  find_awaiting i l = Some (job, d) -> id job = i /\ In (job, d) l.
Proof. intros F. apply find_awaiting_some in F. tauto. Qed.

Lemma in_await_ids w job d : In (job, d) (awaiting w) -> In (id job) (await_ids w).
Proof. intros H. unfold await_ids. now apply (in_map (fun p => id (fst p))) in H. Qed.

(** *** Lifting a property of the primitive moves to every step *)

Section Preserved.

Variable P : World -> Prop.
Variable ok : Event -> bool.

Hypothesis P_same :
  forall w w', P w ->
    jobs (queue w') = jobs (queue w) -> stats (queue w') = stats (queue w) ->
    awaiting w' = awaiting w -> timers w' = timers w ->
    nextId w' = nextId w -> started w' = started w -> P w'.
Hypothesis P_calm :
  forall w, Inv w -> P w -> throwing w = false -> P (_process w).
Hypothesis P_settle :
  forall w i job d o, Inv w -> P w ->
    find_awaiting i (awaiting w) = Some (job, d) ->
    o = rejected \/ ok (e_settle i o) = true ->
    P (_executeJob_settle job o (set_awaiting (remove_awaiting i (awaiting w)) w)).
Hypothesis P_enqueued :
  forall t o w, Inv w -> P w -> ok (e_add t o) = true ->
    delay (new_job t o w) <= 0 ->
    P (enqueued (new_job t o w) (set_nextId (S (nextId w)) w)).
Hypothesis P_delayed :
  forall t o w, Inv w -> P w -> ok (e_add t o) = true ->
    0 < delay (new_job t o w) ->
    P (setTimeout (cb_delayed (set_status delayed (new_job t o w)))
                  (delay (new_job t o w)) (set_nextId (S (nextId w)) w)).
Hypothesis P_ready :
  forall w n due job, Inv w -> P w ->
    nth_error (timers w) n = Some (due, cb_delayed job) ->
    P (enqueued (ready job) (set_timers (remove_nth n (timers w)) w)).
Hypothesis P_backoff :
  forall w n due, Inv w -> P w ->
    nth_error (timers w) n = Some (due, cb_process) ->
    P (set_timers (remove_nth n (timers w)) w).
Hypothesis P_clear : forall w, Inv w -> P w -> ok e_clear = true -> P (clear w).

Lemma P_flag b w : P w -> P (set_throwing b w).
Proof. intros H. now apply P_same with (w := w). Qed.

Lemma P_process w : Inv w -> P w -> P (_process w).
Proof.
  intros I H. destruct (throwing w) eqn:T; [|now apply P_calm].
  pose proof (Inv_flag false w I) as I0.
  pose proof (P_flag false w H) as H0.
  pose proof (P_calm _ I0 H0 eq_refl) as H1.
  pose proof (Inv_process _ I0) as I1.
  destruct (process_cases w)
    as [->|(job & F & Pa & C & [[Hh E]|[(_ & T' & _)|(Hh & _ & E)]])];
    [assumption| |congruence|]; rewrite E.
  - rewrite (process_takes (set_throwing false w) job Pa C F) in H1.
    change (has_handler (type job) (queue (set_throwing false w)))
      with (has_handler (type job) (queue w)) in H1.
    rewrite Hh in H1. now apply P_same with (w := dropped job (set_throwing false w)).
  - rewrite (process_takes (set_throwing false w) job Pa C F) in H1, I1.
    change (has_handler (type job) (queue (set_throwing false w)))
      with (has_handler (type job) (queue w)) in H1, I1.
    rewrite Hh in H1, I1. cbn [throwing set_throwing] in H1, I1.
    apply find_pending in F. destruct F as [Hin Hst].
    destruct (thrown_settle w job _ (pending_not_held w job I Hin Hst) eq_refl)
      as (Fa & ->).
    apply P_flag.
    apply P_settle with (d := now w + timer_delay (timeout job)); auto.
Qed.

Lemma step_preserves e w w' :
  Inv w -> P w -> ok e = true -> step e w = Some w' -> P w'.
Proof.
  intros I H Hok. destruct e; simpl.
  - intros [= <-]. now apply P_same with (w := w).
  - intros [= <-]. unfold add.
    match goal with |- P (emit _ ?x) => apply P_same with (w := x) end;
      try reflexivity.
    destruct (Z.ltb_spec 0 (delay (new_job t o w))) as [D|D].
    + now apply P_delayed.
    + apply P_process; [now apply Inv_enqueued|]. now apply P_enqueued.
  - intros [= <-]. now apply P_same with (w := w).
  - intros [= <-]. unfold resume. apply P_process.
    + now apply Inv_same with (w := w).
    + now apply P_same with (w := w).
  - intros [= <-]. now apply P_clear.
  - destruct (0 <=? dt); intros [= <-]. now apply P_same with (w := w).
  - destruct (nth_error (timers w) n) as [[due c]|] eqn:Hn; [|discriminate].
    destruct (due <=? now w); intros [= <-]. destruct c as [job|].
    + unfold delayed_ready. apply P_process.
      * now apply Inv_ready with (due := due).
      * now apply P_ready with (due := due).
    + apply P_process.
      * now apply Inv_backoff with (due := due).
      * now apply P_backoff with (due := due).
  - destruct (find_awaiting jobId (awaiting w)) as [[job d]|] eqn:Fa; [|discriminate].
    destruct o; [| |destruct (d <=? now w)]; intros [= <-];
      apply P_settle with (d := d); auto.
  - destruct (continuations w) as [|c] eqn:K; intros [= <-].
    unfold _process_finally. apply P_process.
    + pose proof (Inv_finally w c I K) as J. unfold _process_finally in J.
      pose proof I as [R L N NA F Pr D S].
      constructor; cbn; auto; cbn in *; try lia.
    + now apply P_same with (w := w).
  - intros [= <-]. now apply P_same with (w := w).
Qed.

Lemma run_preserves es : forall w w',
  Inv w -> P w -> forallb ok es = true -> run es w = Some w' -> P w'.
Proof.
  induction es as [|e es IH]; simpl; intros w w' I H Hok.
  - now intros [= <-].
  - apply andb_true_iff in Hok. destruct Hok as [He Hes].
    destruct (step e w) as [w1|] eqn:St; [|discriminate].
    intros R. apply (IH w1); auto.
    + now apply Inv_step with (e := e) (w := w).
    + now apply step_preserves with (e := e) (w := w).
Qed.

End Preserved.

(** *** The attempts counters *)

Lemma Counted_init o : Counted (init o).
Proof. constructor; simpl; intros; contradiction. Qed.

Lemma Counted_same w w' :
  Counted w ->
  jobs (queue w') = jobs (queue w) -> stats (queue w') = stats (queue w) ->
  awaiting w' = awaiting w -> timers w' = timers w ->
  nextId w' = nextId w -> started w' = started w -> Counted w'.
Proof.
  intros [J H D] Ej _ Ea Et _ _. constructor; rewrite ?Ej, ?Ea, ?Et; auto.
Qed.

Lemma Counted_sub w w' :
  Counted w ->
  (forall j, In j (jobs (queue w')) -> In j (jobs (queue w))) ->
  (forall x, In x (awaiting w') -> In x (awaiting w)) ->
  timers w' = timers w -> Counted w'.
Proof.
  intros [J H D] Sj Sa Et. constructor; rewrite ?Et; auto.
  intros job d Hin. destruct (H job d (Sa _ Hin)) as [A L]. split; auto.
Qed.

Lemma begun_ok job :
  status job = pending -> attempts_ok job -> attempts_ok (begun job).
Proof.
  unfold attempts_ok, begun. simpl. intros ->. lia.
Qed.

Lemma Counted_process w :
  Inv w -> Counted w -> throwing w = false -> Counted (_process w).
Proof.
  intros I C Calm.
  destruct (process_cases_calm w Calm)
    as [->|(job & F & _ & _ & [[_ ->]|[_ ->]])]; [assumption| |].
  - apply Counted_sub with (w := w); auto. simpl. intros j. apply in_removeJob.
  - apply find_pending in F. destruct F as [Hin Hst].
    pose proof (Inv_jobs_nodup w I) as ND.
    pose proof (pending_not_held w job I Hin Hst) as Hnot.
    destruct C as [J H D]. constructor; simpl; auto.
    + intros j' Hj'. apply in_update_job in Hj'; [|assumption].
      destruct Hj' as (j & Hj & ->). unfold upd.
      destruct (Nat.eqb_spec (id j) (id job)) as [E|E]; [|now apply J].
      rewrite (same_id_same_job _ j job ND Hj Hin E).
      apply begun_ok; auto.
    + intros job' d Hd. rewrite in_app_iff in Hd. simpl in Hd.
      destruct Hd as [Hd|[[= <- <-]|[]]].
      * destruct (H job' d Hd) as [A L]. split; [assumption|].
        intros j' Hj' E'. apply in_update_job in Hj'; [|assumption].
        destruct Hj' as (j & Hj & ->). unfold upd in *.
        destruct (Nat.eqb_spec (id j) (id job)) as [E|E]; [|now apply L].
        exfalso. apply Hnot. simpl in E'. rewrite <- E, E'.
        now apply in_await_ids with (d := d).
      * pose proof (J job Hin) as A. unfold attempts_ok in A. rewrite Hst in A.
        split; [simpl; lia|].
        intros j' Hj' E'. apply in_update_job in Hj'; [|assumption].
        destruct Hj' as (j & Hj & ->). unfold upd in *.
        destruct (Nat.eqb_spec (id j) (id job)) as [E|E].
        -- now rewrite (same_id_same_job _ j job ND Hj Hin E).
        -- simpl in E'. contradiction.
Qed.

Lemma Counted_settle w i job d o :
  Inv w -> Counted w ->
  find_awaiting i (awaiting w) = Some (job, d) ->
  Counted (_executeJob_settle job o (set_awaiting (remove_awaiting i (awaiting w)) w)).
Proof.
  intros I C Fa. apply held_in_awaiting in Fa. destruct Fa as [Ei Hin].
  pose proof (Inv_jobs_nodup w I) as ND.
  assert (Sub : forall x, In x (remove_awaiting i (awaiting w)) -> In x (awaiting w))
    by (intros x; apply in_remove_awaiting).
  destruct (settle_cases job o (set_awaiting (remove_awaiting i (awaiting w)) w))
    as [[_ ->]|[(_ & A & ->)|(_ & A & ->)]].
  - apply Counted_sub with (w := w); auto. simpl. intros j. apply in_removeJob.
  - destruct C as [J H D].
    destruct (H job d Hin) as [Aj Lj].
    constructor; simpl.
    + intros j' Hj'. apply in_update_job in Hj'; [|assumption].
      destruct Hj' as (j & Hj & ->). unfold upd.
      destruct (Nat.eqb_spec (id j) (id job)) as [E|E]; [|now apply J].
      destruct (Lj j Hj E) as [Ea Em].
      unfold attempts_ok. simpl. lia.
    + intros job' d' Hd. destruct (H job' d' (Sub _ Hd)) as [A' L']. split; auto.
      intros j' Hj' E'. apply in_update_job in Hj'; [|assumption].
      destruct Hj' as (j & Hj & ->). unfold upd in *.
      destruct (Nat.eqb_spec (id j) (id job)) as [E|E]; [|now apply L'].
      simpl in *. now apply L'.
    + intros due job' Hd. rewrite in_app_iff in Hd. simpl in Hd.
      destruct Hd as [Hd|[[=]|[]]]. now apply D with (due := due).
  - apply Counted_sub with (w := w); auto. simpl. intros j. apply in_removeJob.
Qed.

Lemma Counted_insert w w' job :
  Inv w -> Counted w ->
  status job = pending -> attempts job = 0 -> ~ In (id job) (await_ids w) ->
  jobs (queue w') = _insertJob job (jobs (queue w)) ->
  awaiting w' = awaiting w ->
  (forall x, In x (timers w') -> In x (timers w)) ->
  Counted w'.
Proof.
  intros I [J H D] Hst Ha Hnot Ej Ea St. constructor; rewrite ?Ej, ?Ea.
  - intros j Hj. apply in_insertJob in Hj. destruct Hj as [->|Hj]; auto.
    unfold attempts_ok. rewrite Hst. auto.
  - intros job' d Hd. destruct (H job' d Hd) as [A L]. split; auto.
    intros j Hj E. apply in_insertJob in Hj. destruct Hj as [->|Hj]; auto.
    exfalso. apply Hnot. rewrite E. now apply in_await_ids with (d := d).
  - intros due job' Hd. apply D with (due := due). now apply St.
Qed.

Lemma in_remove_nth {A} n (l : list A) x : In x (remove_nth n l) -> In x l.
Proof.
  revert l. induction n as [|n IH]; intros [|y l]; simpl; auto.
  intros [->|H]; auto.
Qed.

Lemma Counted_reachable o es : forall w, run es (init o) = Some w -> Counted w.
Proof.
  intros w R.
  refine (run_preserves Counted (fun _ => true) Counted_same Counted_process
            _ _ _ _ _ _ es (init o) w (Inv_init o) (Counted_init o) _ R).
  - intros w0 i job d0 o0 I0 C0 Fa _. now apply Counted_settle with (d := d0).
  - intros t o0 w0 I0 C0 _ _.
    apply Counted_insert with (w := w0) (job := new_job t o0 w0); auto.
    intros K. apply (Inv_fresh_id w0 I0). rewrite !in_app_iff. auto.
  - intros t o0 w0 I0 [J H D] _ _. constructor; simpl; auto.
    intros due job Hd. rewrite in_app_iff in Hd. simpl in Hd.
    destruct Hd as [Hd|[[= _ <-]|[]]]; [now apply D with (due := due)|reflexivity].
  - intros w0 n due job I0 C0 Hn.
    assert (Hin : In (due, cb_delayed job) (timers w0))
      by (now apply nth_error_In with (n := n)).
    apply Counted_insert with (w := w0) (job := ready job); auto.
    + exact (c_delayed w0 C0 due job Hin).
    + apply (inv_delayed w0 I0). unfold delayed_ids. apply in_flat_map.
      exists (due, cb_delayed job). split; [assumption|]. simpl. auto.
    + simpl. intros x. apply in_remove_nth.
  - intros w0 n due I0 [J H D] Hn. constructor; simpl; auto.
    intros d job Hd. apply D with (due := d). now apply in_remove_nth in Hd.
  - intros w0 I0 [J H D] _. constructor; simpl; auto; try contradiction.
    intros job d Hd. destruct (H job d Hd) as [A L]. split; auto.
    contradiction.
  - clear. induction es; simpl; auto.
Qed.

(** *** The bookkeeping without [clear] *)

Lemma Kept_init o : Kept (init o).
Proof. constructor; simpl; [intros; contradiction|reflexivity]. Qed.

Lemma Kept_same w w' :
  Kept w ->
  jobs (queue w') = jobs (queue w) -> stats (queue w') = stats (queue w) ->
  awaiting w' = awaiting w -> timers w' = timers w ->
  nextId w' = nextId w -> started w' = started w -> Kept w'.
Proof.
  intros [H C] Ej Es Ea Et En _.
  constructor; unfold await_ids, job_ids, delayed_ids in *;
    rewrite ?Ej, ?Es, ?Ea, ?Et, ?En; auto.
Qed.

Lemma length_removeJob i l :
  In i (map id l) -> S (List.length (_removeJob i l)) = List.length l.
Proof.
  induction l as [|x l IH]; simpl; [tauto|].
  destruct (Nat.eqb_spec (id x) i) as [E|E]; [reflexivity|].
  intros [K|K]; [contradiction|]. simpl. now rewrite IH.
Qed.

Lemma length_update_job i f l : List.length (update_job i f l) = List.length l.
Proof.
  induction l as [|x l IH]; simpl; [reflexivity|].
  destruct (Nat.eqb (id x) i); simpl; [reflexivity|now rewrite IH].
Qed.

Lemma in_removeJob_ids i k l :
  In k (map id l) -> k <> i -> In k (map id (_removeJob i l)).
Proof.
  induction l as [|x l IH]; simpl; [tauto|].
  destruct (Nat.eqb_spec (id x) i) as [E|E]; simpl.
  - intros [K|K] N; [congruence|assumption].
  - intros [K|K] N; auto.
Qed.

Lemma Kept_process w :
  Inv w -> Kept w -> throwing w = false -> Kept (_process w).
Proof.
  intros I K Calm.
  destruct (process_cases_calm w Calm)
    as [->|(job & F & _ & _ & [[_ ->]|[_ ->]])]; [assumption| |];
    apply find_pending in F; destruct F as [Hin Hst];
    pose proof (pending_not_held w job I Hin Hst) as Hnot;
    destruct K as [H C]; constructor; unfold await_ids, job_ids, delayed_ids in *;
    simpl.
  - intros i Hi. apply in_removeJob_ids; auto. intros ->. now apply Hnot.
  - rewrite C. rewrite <- (length_removeJob (id job) (jobs (queue w)));
      [lia|now apply in_map].
  - rewrite update_job_ids by reflexivity. intros i. rewrite map_app, in_app_iff.
    simpl. intros [Hi|[<-|[]]]; auto. now apply in_map.
  - now rewrite length_update_job.
Qed.

Lemma Kept_settle w i job d o :
  Inv w -> Kept w ->
  find_awaiting i (awaiting w) = Some (job, d) ->
  Kept (_executeJob_settle job o (set_awaiting (remove_awaiting i (awaiting w)) w)).
Proof.
  intros I K Fa. apply held_in_awaiting in Fa. destruct Fa as [Ei Hin].
  pose proof (inv_nodup_await w I) as NA. unfold await_ids in NA.
  destruct K as [H C].
  assert (Hjob : In (id job) (job_ids w))
    by (apply H; now apply in_await_ids with (d := d)).
  assert (Rest : forall k, In k (map (fun p : Job * Z => id (fst p))
                                     (remove_awaiting i (awaiting w))) ->
                           In k (job_ids w) /\ k <> id job).
  { intros k Hk. rewrite (remove_awaiting_filter _ _ NA) in Hk.
    apply in_await_filter in Hk. destruct Hk as [Hk Hne]. split; [|congruence].
    now apply H. }
  unfold job_ids in *.
  destruct (settle_cases job o (set_awaiting (remove_awaiting i (awaiting w)) w))
    as [[_ ->]|[(_ & A & ->)|(_ & A & ->)]];
    constructor; unfold await_ids, job_ids, delayed_ids in *; simpl.
  - intros k Hk. destruct (Rest k Hk). now apply in_removeJob_ids.
  - rewrite C, <- (length_removeJob (id job) (jobs (queue w))) by assumption. lia.
  - intros k Hk. rewrite update_job_ids by reflexivity. now apply Rest.
  - rewrite length_update_job, flat_map_app. simpl. rewrite app_nil_r. exact C.
  - intros k Hk. destruct (Rest k Hk). now apply in_removeJob_ids.
  - rewrite C, <- (length_removeJob (id job) (jobs (queue w))) by assumption. lia.
Qed.

Lemma insertJob_ids_in job l k :
  In k (map id l) -> In k (map id (_insertJob job l)).
Proof.
  intros H. apply in_map_iff in H. destruct H as (j & <- & Hj).
  apply in_map. apply in_insertJob. auto.
Qed.

Lemma delayed_ids_remove_process n l due :
  nth_error l n = Some (due, cb_process) ->
  flat_map delayed_id (remove_nth n l) = flat_map delayed_id l.
Proof.
  intros Hn. apply remove_nth_split in Hn. destruct Hn as (l1 & l2 & -> & ->).
  now rewrite !flat_map_app.
Qed.

Lemma delayed_ids_remove_delayed n l due job :
  nth_error l n = Some (due, cb_delayed job) ->
  S (List.length (flat_map delayed_id (remove_nth n l)))
  = List.length (flat_map delayed_id l).
Proof.
  intros Hn. apply remove_nth_split in Hn. destruct Hn as (l1 & l2 & -> & ->).
  rewrite !flat_map_app, !length_app. simpl. lia.
Qed.

Lemma Kept_run es w w' :
  Inv w -> Kept w -> forallb (fun e => negb (is_clear e)) es = true ->
  run es w = Some w' -> Kept w'.
Proof.
  intros I K Hes R.
  refine (run_preserves Kept (fun e => negb (is_clear e)) Kept_same Kept_process
            _ _ _ _ _ _ es w w' I K Hes R).
  - intros w0 i job d0 o0 I0 C0 Fa _. now apply Kept_settle with (d := d0).
  - intros t o w0 I0 [H C] _ _.
    constructor; unfold await_ids, job_ids, delayed_ids in *; simpl.
    + intros i Hi. now apply insertJob_ids_in, H.
    + rewrite length_insertJob. lia.
  - intros t o w0 I0 [H C] _ _.
    constructor; unfold await_ids, job_ids, delayed_ids in *; simpl; auto.
    rewrite flat_map_app, length_app. simpl. lia.
  - intros w0 n due job I0 [H C] Hn.
    constructor; unfold await_ids, job_ids, delayed_ids in *; simpl.
    + intros i Hi. now apply insertJob_ids_in, H.
    + rewrite length_insertJob.
      rewrite <- (delayed_ids_remove_delayed n (timers w0) due job Hn) in C. lia.
  - intros w0 n due I0 [H C] Hn.
    constructor; unfold await_ids, job_ids, delayed_ids in *; simpl; auto.
    now rewrite (delayed_ids_remove_process n (timers w0) due Hn).
  - intros w0 _ _ [=].
Qed.

(** *** The order of dispatch within one priority class *)

Lemma sorted_filter {A} (R : A -> A -> Prop) p l :
  StronglySorted R l -> StronglySorted R (filter p l).
Proof.
  induction 1 as [|x l S IH F]; simpl; [constructor|].
  destruct (p x); [|assumption]. constructor; [assumption|].
  rewrite Forall_forall in *. intros y Hy. apply filter_In in Hy. now apply F.
Qed.

Lemma sorted_snoc (l : list nat) n :
  StronglySorted lt l -> (forall a, In a l -> (a < n)%nat) ->
  StronglySorted lt (l ++ [n]).
Proof.
  induction 1 as [|x l S IH F]; simpl; intros H.
  - constructor; constructor.
  - constructor; [apply IH; auto|].
    rewrite Forall_forall in *. intros y Hy. apply in_app_iff in Hy.
    destruct Hy as [Hy|[<-|[]]]; auto.
Qed.

Lemma sorted_after (before after : list Job) x :
  StronglySorted lt (map id (before ++ x :: after)) ->
  forall j, In j after -> (id x < id j)%nat.
Proof.
  induction before as [|y before IH]; simpl; intros S j Hj.
  - inversion S as [|? ? _ F]; subst. rewrite Forall_forall in F.
    apply F. now apply in_map.
  - inversion S; subst. now apply IH.
Qed.

Lemma insertJob_same_class job l :
  (forall x, In x l -> priority x = priority job) -> _insertJob job l = l ++ [job].
Proof.
  induction l as [|x l IH]; simpl; intros H; [reflexivity|].
  rewrite (H x) by auto. rewrite Z.ltb_irrefl. now rewrite IH by auto.
Qed.

(** A pending job other than the first pending one comes after it. *)
Lemma pending_after_first l job j :
  StronglySorted lt (map id l) ->
  find is_pending l = Some job ->
  In j l -> status j = pending -> id j <> id job -> (id job < id j)%nat.
Proof.
  intros S F Hj Hst Hne.
  apply find_split in F. destruct F as (before & after & -> & _ & B).
  apply in_app_iff in Hj. destruct Hj as [Hj|[<-|Hj]].
  - rewrite Forall_forall in B. apply B in Hj. unfold is_pending in Hj.
    rewrite Hst in Hj. discriminate.
  - contradiction.
  - now apply (sorted_after before after job).
Qed.

Lemma Fifo_init p o : Fifo p (init o).
Proof.
  constructor; simpl; try (intros; contradiction); try reflexivity; constructor.
Qed.

Lemma Fifo_same p w w' :
  Fifo p w ->
  jobs (queue w') = jobs (queue w) -> stats (queue w') = stats (queue w) ->
  awaiting w' = awaiting w -> timers w' = timers w ->
  nextId w' = nextId w -> started w' = started w -> Fifo p w'.
Proof.
  intros [C H T O S A F R] Ej Es Ea Et En Est.
  constructor; unfold job_ids in *; rewrite ?Ej, ?Es, ?Ea, ?Et, ?En, ?Est; auto.
Qed.

Lemma Fifo_process p w :
  Inv w -> Fifo p w -> throwing w = false -> Fifo p (_process w).
Proof.
  intros I K Calm.
  destruct (process_cases_calm w Calm)
    as [->|(job & Fd & _ & _ & [[_ ->]|[_ ->]])]; [assumption| |];
    pose proof (find_pending _ _ Fd) as [Hin Hst];
    pose proof (Inv_jobs_nodup w I) as ND;
    destruct K as [C H T O S A F R]; unfold job_ids in *.
  - constructor; unfold job_ids, started; simpl; auto.
    + intros j Hj. apply C. now apply in_removeJob in Hj.
    + rewrite (removeJob_ids _ _ ND). now apply sorted_filter.
    + constructor; [assumption|]. apply Forall_forall. intros a Ha.
      now apply (A a job).
    + intros a j [<-|Ha] Hj Hp.
      * pose proof (in_removeJob _ _ _ Hj) as Hj'.
        apply (pending_after_first (jobs (queue w))); auto.
        rewrite (removeJob_filter _ _ ND) in Hj. apply filter_In in Hj.
        destruct Hj as [_ Hj]. destruct (Nat.eqb_spec (id j) (id job)); auto.
        discriminate.
      * apply (A a j); auto. now apply in_removeJob in Hj.
    + intros a [<-|Ha]; [|now apply F].
      apply (inv_fresh w I). rewrite !in_app_iff. right. left.
      now apply in_map.
  - constructor; unfold job_ids, started; simpl; auto.
    + intros j' Hj'. apply in_update_job in Hj'; [|assumption].
      destruct Hj' as (j & Hj & ->). unfold upd.
      destruct (C j Hj) as (C1 & C2 & C3).
      destruct (Nat.eqb (id j) (id job)); simpl; auto. repeat split; auto. lia.
    + intros job' d Hd. rewrite in_app_iff in Hd. simpl in Hd.
      destruct Hd as [Hd|[[= <- <-]|[]]]; [now apply H with (d := d)|].
      destruct (C job Hin) as (C1 & C2 & C3). simpl. split; [assumption|lia].
    + now rewrite update_job_ids.
    + constructor; [assumption|]. apply Forall_forall. intros a Ha.
      now apply (A a job).
    + intros a j' Ha Hj' Hp. apply in_update_job in Hj'; [|assumption].
      destruct Hj' as (j & Hj & ->). unfold upd in *.
      destruct (Nat.eqb_spec (id j) (id job)) as [E|E]; [discriminate|].
      destruct Ha as [<-|Ha]; [|now apply (A a j)].
      now apply (pending_after_first (jobs (queue w))).
    + intros a [<-|Ha]; [|now apply F].
      apply (inv_fresh w I). rewrite !in_app_iff. right. left.
      now apply in_map.
Qed.

Lemma Fifo_settle p w i job d o :
  Inv w -> Fifo p w ->
  find_awaiting i (awaiting w) = Some (job, d) ->
  Fifo p (_executeJob_settle job o (set_awaiting (remove_awaiting i (awaiting w)) w)).
Proof.
  intros I K Fa. apply held_in_awaiting in Fa. destruct Fa as [Ei Hin].
  pose proof (Inv_jobs_nodup w I) as ND.
  destruct K as [C H T O S A F R]. destruct (H job d Hin) as [Hm Ha].
  assert (Done : forall bump e,
             st_retried (bump (stats (queue w))) = st_retried (stats (queue w)) ->
             start_id (now w, e) = [] ->
             Fifo p (finished bump e job
                       (set_awaiting (remove_awaiting i (awaiting w)) w))).
  { intros bump e Hb He. unfold job_ids in *.
    assert (Est : started (finished bump e job
                             (set_awaiting (remove_awaiting i (awaiting w)) w))
                  = started w).
    { change (started (finished bump e job
                         (set_awaiting (remove_awaiting i (awaiting w)) w)))
        with (start_id (now w, e) ++ started w).
      now rewrite He. }
    constructor; unfold job_ids; rewrite ?Est; simpl; auto.
    - intros j Hj. apply C. now apply in_removeJob in Hj.
    - intros job' d' Hd. apply H with (d := d'). now apply in_remove_awaiting in Hd.
    - rewrite (removeJob_ids _ _ ND). now apply sorted_filter.
    - intros a j Ha' Hj. apply (A a j); auto. now apply in_removeJob in Hj.
    - now rewrite Hb. }
  destruct (settle_cases job o (set_awaiting (remove_awaiting i (awaiting w)) w))
    as [[_ ->]|[(_ & L & ->)|(_ & L & ->)]].
  - now apply Done.
  - lia.
  - now apply Done.
Qed.

Lemma one_class_add p t o w :
  one_class p (e_add t o) = true ->
  priority (new_job t o w) = p /\ delay (new_job t o w) <= 0
  /\ maxAttempts (new_job t o w) <= 1.
Proof.
  simpl. rewrite !andb_true_iff, Z.eqb_eq, !Z.leb_le. tauto.
Qed.

Lemma Fifo_run p es w w' :
  Inv w -> Fifo p w -> forallb (one_class p) es = true ->
  run es w = Some w' -> Fifo p w'.
Proof.
  intros I K Hes R.
  refine (run_preserves (Fifo p) (one_class p) (Fifo_same p) (Fifo_process p)
            _ _ _ _ _ _ es w w' I K Hes R).
  - intros w0 i job d0 o0 I0 C0 Fa _. now apply Fifo_settle with (d := d0).
  - intros t o w0 I0 [C H T O S A F Rt] Hok _.
    apply (one_class_add p t o w0) in Hok. destruct Hok as (Hp & _ & Hm).
    unfold enqueued, job_ids in *.
    assert (E : _insertJob (new_job t o w0) (jobs (queue w0))
                = jobs (queue w0) ++ [new_job t o w0]).
    { apply insertJob_same_class. intros x Hx. rewrite Hp. now apply C. }
    constructor; unfold job_ids, started; simpl; rewrite ?E; auto.
    + intros j Hj. apply in_app_iff in Hj. destruct Hj as [Hj|[<-|[]]]; auto.
      simpl. repeat split; auto. lia.
    + rewrite map_app. simpl. apply sorted_snoc; auto.
      intros a Ha. apply (inv_fresh w0 I0). rewrite !in_app_iff. auto.
    + intros a j Ha Hj Hst. apply in_app_iff in Hj.
      destruct Hj as [Hj|[<-|[]]]; [now apply (A a j)|]. simpl. now apply F.
    + intros a Ha. apply F in Ha. lia.
  - intros t o w0 I0 _ Hok D.
    apply (one_class_add p t o w0) in Hok. lia.
  - intros w0 n due job _ [C H T O S A F Rt] Hn. rewrite T in Hn.
    destruct n; discriminate.
  - intros w0 n due _ [C H T O S A F Rt] Hn. rewrite T in Hn.
    destruct n; discriminate.
  - intros w0 _ [C H T O S A F Rt] _.
    constructor; unfold job_ids, started; simpl; auto; try contradiction.
    constructor.
Qed.

(** *** What the read-only methods report *)

Lemma filter_none {A} (p : A -> bool) l :
  (forall x, In x l -> p x = false) -> filter p l = [].
Proof.
  induction l as [|x l IH]; simpl; intros H; [reflexivity|].
  rewrite (H x) by auto. auto.
Qed.

Lemma length_pending_processing l :
  (forall j, In j l -> status j = pending \/ status j = processing) ->
  List.length l
  = (List.length (filter is_pending l) + List.length (filter is_processing l))%nat.
Proof.
  induction l as [|x l IH]; simpl; intros H; [reflexivity|].
  rewrite IH by auto. unfold is_pending, is_processing.
  destruct (H x) as [->| ->]; auto; simpl; lia.
Qed.

Lemma Counted_live w j :
  Counted w -> In j (jobs (queue w)) ->
  status j = pending \/ status j = processing.
Proof.
  intros C Hj. pose proof (c_jobs w C j Hj) as A. unfold attempts_ok in A.
  destruct (status j); auto; contradiction.
Qed.

Lemma nextId_settle job o w : nextId (_executeJob_settle job o w) = nextId w.
Proof.
  destruct (settle_cases job o w) as [[_ ->]|[(_ & _ & ->)|(_ & _ & ->)]];
    reflexivity.
Qed.

Lemma nextId_process w : nextId (_process w) = nextId w.
Proof.
  destruct (process_cases w)
    as [->|(job & _ & _ & _ & [[_ ->]|[(_ & _ & ->)|(_ & _ & ->)]])];
    try reflexivity.
  unfold thrown. now rewrite nextId_settle.
Qed.

Lemma nextId_step e w w' :
  step e w = Some w' ->
  nextId w' = (nextId w + (if is_add e then 1 else 0))%nat.
Proof.
  destruct e; simpl.
  - intros [= <-]. simpl. lia.
  - intros [= <-]. unfold add. cbv zeta.
    destruct (0 <? delay (new_job t o w)); cbn [nextId emit setTimeout];
      rewrite ?nextId_process; simpl; lia.
  - intros [= <-]. simpl. lia.
  - intros [= <-]. unfold resume. rewrite nextId_process. simpl. lia.
  - intros [= <-]. simpl. lia.
  - destruct (0 <=? dt); intros [= <-]. simpl. lia.
  - destruct (nth_error (timers w) n) as [[due c]|]; [|discriminate].
    destruct (due <=? now w); intros [= <-]. destruct c; unfold delayed_ready;
      rewrite nextId_process; simpl; lia.
  - destruct (find_awaiting jobId (awaiting w)) as [[job d]|]; [|discriminate].
    destruct o; [| |destruct (d <=? now w)]; intros [= <-];
      rewrite nextId_settle; simpl; lia.
  - destruct (continuations w); intros [= <-]. unfold _process_finally.
    rewrite nextId_process. simpl. lia.
  - intros [= <-]. simpl. lia.
Qed.

Lemma nextId_run es : forall w w',
  run es w = Some w' -> nextId w' = (nextId w + added es)%nat.
Proof.
  unfold added. induction es as [|e es IH]; simpl; intros w w'.
  - intros [= <-]. lia.
  - destruct (step e w) as [w1|] eqn:St; [|discriminate].
    intros R. rewrite (IH _ _ R), (nextId_step _ _ _ St).
    destruct (is_add e); simpl; lia.
Qed.

(** X1. Whatever has happened to a queue, its array holds Pending and
    Processing jobs only: a completed, failed or delayed job is never
    found by [getJobs], the [delayed] figure of [getStats] is 0, [total]
    is [pending] plus the jobs in Processing status, and these are at
    most [processing]. *)
Theorem array_holds_pending_and_processing_only :
  forall o es w,
    run es (init o) = Some w ->
    (forall j, In j (jobs (queue w)) ->
               status j = pending \/ status j = processing)
    /\ getJobs (Some completed) (queue w) = []
    /\ getJobs (Some failed) (queue w) = []
    /\ getJobs (Some delayed) (queue w) = []
    /\ r_delayed (getStats (queue w)) = 0
    /\ r_total (getStats (queue w))
       = r_pending (getStats (queue w)) + count_processing (jobs (queue w))
    /\ count_processing (jobs (queue w)) <= r_processing (getStats (queue w)).
Proof.
  intros o es w R.
  pose proof (Counted_reachable o es w R) as C.
  pose proof (Inv_reachable o es w R) as I.
  assert (L : forall j, In j (jobs (queue w)) ->
                        status j = pending \/ status j = processing)
    by (intros j; now apply Counted_live).
  assert (N : forall st, st <> pending -> st <> processing ->
                filter (fun j => Status_eqb (status j) st) (jobs (queue w)) = []).
  { intros st H1 H2. apply filter_none. intros j Hj.
    destruct (L j Hj) as [-> | ->]; destruct st; auto; congruence. }
  split; [assumption|]. unfold getJobs, getStats, count_processing. simpl.
  rewrite !N by discriminate. repeat split.
  - rewrite (length_pending_processing _ L). lia.
  - pose proof (count_le_await w I) as K. unfold count_processing in K.
    rewrite (inv_running w I). lia.
Qed.

Lemma array_holds_pending_and_processing_only_witness :
  exists w,
    run [e_process "send"; e_add "send" (mkJobOptions None None None None);
         e_add "send" (mkJobOptions None None None (Some 100));
         e_add "send" (mkJobOptions None None None None);
         e_settle 0 resolved]
        (init (mkOptions None None None)) = Some w
    /\ map status (jobs (queue w)) = [pending]
    /\ r_delayed (getStats (queue w)) = 0
    /\ r_processing (getStats (queue w)) = 1
    /\ count_processing (jobs (queue w)) <= r_processing (getStats (queue w)).
Proof.
  eexists. split; [vm_compute; reflexivity|].
  split; [vm_compute; reflexivity|].
  split; [vm_compute; reflexivity|].
  split; [vm_compute; reflexivity|].
  refine (proj2 (proj2 (proj2 (proj2 (proj2 (proj2
            (array_holds_pending_and_processing_only (mkOptions None None None)
               [e_process "send"; e_add "send" (mkJobOptions None None None None);
                e_add "send" (mkJobOptions None None None (Some 100));
                e_add "send" (mkJobOptions None None None None);
                e_settle 0 resolved] _ _))))))).
  vm_compute; reflexivity.
Defined.

(** X2. As long as [clear] is not called, every job added is accounted
    for: the number of [add] calls is the sum of the [completed] and
    [failed] counters, the length of the array and the number of delayed
    jobs still held by their timers. *)
Theorem every_added_job_is_accounted_for :
  forall o es w,
    forallb (fun e => negb (is_clear e)) es = true ->
    run es (init o) = Some w ->
    Z.of_nat (added es)
    = r_completed (getStats (queue w)) + r_failed (getStats (queue w))
      + r_total (getStats (queue w)) + Z.of_nat (List.length (delayed_ids w)).
Proof.
  intros o es w Hes R.
  pose proof (Kept_run es (init o) w (Inv_init o) (Kept_init o) Hes R) as [_ K].
  pose proof (nextId_run es _ _ R) as N. simpl in N. rewrite <- N. exact K.
Qed.

Lemma every_added_job_is_accounted_for_witness :
  exists w,
    run [e_process "send"; e_add "send" (mkJobOptions None None None None);
         e_add "send" (mkJobOptions None None None (Some 100));
         e_add "none" (mkJobOptions None None None None);
         e_settle 0 rejected; e_microtask]
        (init (mkOptions None None None)) = Some w
    /\ r_failed (getStats (queue w)) = 2
    /\ r_total (getStats (queue w)) = 0
    /\ 3 = r_completed (getStats (queue w)) + r_failed (getStats (queue w))
           + r_total (getStats (queue w)) + Z.of_nat (List.length (delayed_ids w)).
Proof.
  eexists. split; [vm_compute; reflexivity|].
  split; [vm_compute; reflexivity|].
  split; [vm_compute; reflexivity|].
  refine (every_added_job_is_accounted_for (mkOptions None None None)
            [e_process "send"; e_add "send" (mkJobOptions None None None None);
             e_add "send" (mkJobOptions None None None (Some 100));
             e_add "none" (mkJobOptions None None None None);
             e_settle 0 rejected; e_microtask] _ _ _).
  - vm_compute; reflexivity.
  - vm_compute; reflexivity.
Defined.

(** X3. The attempts counter of a job stays within its budget: a job of
    the array has been attempted at most [maxAttempts] times (once when
    [maxAttempts] is below 1), a Processing job at least once, and a
    Pending job has an attempt left. *)
Theorem attempts_stay_within_maxAttempts :
  forall o es w j,
    run es (init o) = Some w ->
    In j (jobs (queue w)) ->
    within_attempts j
    /\ (status j = processing -> 1 <= attempts j)
    /\ (status j = pending -> attempts j < Z.max 1 (maxAttempts j)).
Proof.
  intros o es w j R Hj.
  pose proof (c_jobs w (Counted_reachable o es w R) j Hj) as A.
  unfold attempts_ok in A. unfold within_attempts.
  destruct (status j); try contradiction; repeat split; try discriminate; lia.
Qed.

Lemma attempts_stay_within_maxAttempts_witness :
  exists w j,
    run [e_process "send"; e_add "send" (mkJobOptions None (Some 2) None None);
         e_settle 0 rejected; e_microtask]
        (init (mkOptions None None None)) = Some w
    /\ In j (jobs (queue w))
    /\ attempts j = 2 /\ maxAttempts j = 2
    /\ within_attempts j.
Proof.
  eexists. eexists. split; [vm_compute; reflexivity|].
  split; [left; reflexivity|].
  split; [reflexivity|]. split; [reflexivity|].
  refine (proj1 (attempts_stay_within_maxAttempts (mkOptions None None None)
            [e_process "send"; e_add "send" (mkJobOptions None (Some 2) None None);
             e_settle 0 rejected; e_microtask] _ _ _ _)).
  - vm_compute; reflexivity.
  - left; reflexivity.
Defined.

(** X4. Jobs of one priority class, added without delay and for a single
    attempt, start in the order in which they were added (ids count the
    [add] calls), none of them twice; the array keeps them in that order
    and nothing is retried. *)
Theorem jobs_of_one_class_start_in_order_of_arrival :
  forall p o es w,
    forallb (one_class p) es = true ->
    run es (init o) = Some w ->
    StronglySorted (fun later earlier => (earlier < later)%nat) (started w)
    /\ StronglySorted lt (job_ids w)
    /\ r_retried (getStats (queue w)) = 0.
Proof.
  intros p o es w Hes R.
  pose proof (Fifo_run p es (init o) w (Inv_init o) (Fifo_init p o) Hes R)
    as [C H T O S A F Rt].
  auto.
Qed.

Lemma jobs_of_one_class_start_in_order_of_arrival_witness :
  exists w,
    run [e_process "send"; e_add "send" (mkJobOptions None None None None);
         e_add "send" (mkJobOptions None None None None);
         e_add "send" (mkJobOptions None None None None);
         e_settle 0 rejected; e_microtask]
        (init (mkOptions None None None)) = Some w
    /\ started w = [1%nat; 0%nat]
    /\ job_ids w = [1%nat; 2%nat]
    /\ StronglySorted (fun later earlier => (earlier < later)%nat) (started w).
Proof.
  eexists. split; [vm_compute; reflexivity|].
  split; [vm_compute; reflexivity|].
  split; [vm_compute; reflexivity|].
  refine (proj1 (jobs_of_one_class_start_in_order_of_arrival 0
            (mkOptions None None None)
            [e_process "send"; e_add "send" (mkJobOptions None None None None);
             e_add "send" (mkJobOptions None None None None);
             e_add "send" (mkJobOptions None None None None);
             e_settle 0 rejected; e_microtask] _ _ _)).
  - vm_compute; reflexivity.
  - vm_compute; reflexivity.
Defined.

(** *** A paused queue *)

Lemma started_process_idle w :
  paused (queue w) = true -> _process w = w.
Proof. intros P. apply process_idle. auto. Qed.

Lemma paused_settle job o w :
  paused (queue (_executeJob_settle job o w)) = paused (queue w)
  /\ started (_executeJob_settle job o w) = started w
  /\ awaiting (_executeJob_settle job o w) = awaiting w.
Proof.
  destruct (settle_cases job o w) as [[_ ->]|[(_ & _ & ->)|(_ & _ & ->)]];
    repeat split.
Qed.

Lemma paused_step e w w' :
  paused (queue w) = true -> is_resume e = false ->
  step e w = Some w' ->
  paused (queue w') = true /\ started w' = started w
  /\ (forall x, In x (awaiting w') -> In x (awaiting w)).
Proof.
  intros P Hr. destruct e; simpl; try discriminate.
  - intros [= <-]. simpl. auto.
  - intros [= <-]. unfold add. cbv zeta.
    destruct (0 <? delay (new_job t o w)).
    + simpl. auto.
    + rewrite started_process_idle by exact P. simpl. auto.
  - intros [= <-]. simpl. auto.
  - intros [= <-]. simpl. auto.
  - destruct (0 <=? dt); intros [= <-]. simpl. auto.
  - destruct (nth_error (timers w) n) as [[due c]|]; [|discriminate].
    destruct (due <=? now w); intros [= <-]. destruct c; unfold delayed_ready;
      rewrite started_process_idle by exact P; simpl; auto.
  - destruct (find_awaiting jobId (awaiting w)) as [[job d]|]; [|discriminate].
    assert (K : forall o0,
               paused (queue (_executeJob_settle job o0
                  (set_awaiting (remove_awaiting jobId (awaiting w)) w))) = true
               /\ started (_executeJob_settle job o0
                  (set_awaiting (remove_awaiting jobId (awaiting w)) w)) = started w
               /\ (forall x, In x (awaiting (_executeJob_settle job o0
                  (set_awaiting (remove_awaiting jobId (awaiting w)) w))) ->
                             In x (awaiting w))).
    { intros o0.
      destruct (paused_settle job o0
                  (set_awaiting (remove_awaiting jobId (awaiting w)) w))
        as (-> & -> & ->).
      simpl. repeat split; auto. intros x. apply in_remove_awaiting. }
    destruct o; [| |destruct (d <=? now w)]; intros [= <-]; apply K.
  - destruct (continuations w); intros [= <-]. unfold _process_finally.
    rewrite started_process_idle by exact P. simpl. auto.
  - intros [= <-]. simpl. auto.
Qed.

(** X5. A paused queue starts nothing: until [resume] is called, whatever
    is added, whichever timer fires and whichever running job settles, the
    queue stays paused, no [job:start] is emitted and no execution begins;
    the jobs that were running are the only ones that can still settle. *)
Theorem paused_queue_starts_no_job :
  forall es w w',
    paused (queue w) = true ->
    forallb (fun e => negb (is_resume e)) es = true ->
    run es w = Some w' ->
    paused (queue w') = true
    /\ started w' = started w
    /\ (forall x, In x (awaiting w') -> In x (awaiting w)).
Proof.
  induction es as [|e es IH]; simpl; intros w w' P Hes.
  - intros [= <-]. auto.
  - apply andb_true_iff in Hes. destruct Hes as [He Hes].
    apply negb_true_iff in He.
    destruct (step e w) as [w1|] eqn:St; [|discriminate].
    intros R. destruct (paused_step e w w1 P He St) as (P1 & S1 & A1).
    destruct (IH w1 w' P1 Hes R) as (P2 & S2 & A2).
    repeat split; auto. congruence.
Qed.

Lemma paused_queue_starts_no_job_witness :
  exists w w',
    run [e_process "send"; e_pause] (init (mkOptions None None None)) = Some w
    /\ run [e_add "send" (mkJobOptions None None None None);
            e_add "send" (mkJobOptions (Some 3) None None None); e_advance 10]
           w = Some w'
    /\ List.length (jobs (queue w')) = 2%nat
    /\ started w' = started w.
Proof.
  eexists. eexists. split; [vm_compute; reflexivity|].
  split; [vm_compute; reflexivity|].
  split; [vm_compute; reflexivity|].
  refine (proj1 (proj2 (paused_queue_starts_no_job
            [e_add "send" (mkJobOptions None None None None);
             e_add "send" (mkJobOptions (Some 3) None None None); e_advance 10]
            _ _ _ _ _))).
  - vm_compute; reflexivity.
  - vm_compute; reflexivity.
  - vm_compute; reflexivity.
Defined.

(** *** Adding a job *)

Lemma find_insert_first p job l :
  find p l = None -> p job = true -> find p (_insertJob job l) = Some job.
Proof.
  induction l as [|x l IH]; simpl; intros F Hp.
  - now rewrite Hp.
  - destruct (p x) eqn:Px; [discriminate|].
    destruct (priority x <? priority job); simpl; rewrite ?Hp, ?Px; auto.
Qed.

Lemma remove_insert job l :
  ~ In (id job) (map id l) -> _removeJob (id job) (_insertJob job l) = l.
Proof.
  induction l as [|x l IH]; simpl; intros H.
  - now rewrite Nat.eqb_refl.
  - destruct (priority x <? priority job); simpl.
    + now rewrite Nat.eqb_refl.
    + destruct (Nat.eqb_spec (id x) (id job)) as [E|E]; [tauto|].
      rewrite IH; tauto.
Qed.

Lemma find_id_insert job l :
  ~ In (id job) (map id l) ->
  find (fun j => Nat.eqb (id j) (id job)) (_insertJob job l) = Some job.
Proof.
  induction l as [|x l IH]; simpl; intros H.
  - now rewrite Nat.eqb_refl.
  - destruct (priority x <? priority job); simpl.
    + now rewrite Nat.eqb_refl.
    + destruct (Nat.eqb_spec (id x) (id job)) as [E|E]; [tauto|].
      apply IH; tauto.
Qed.

Lemma find_id_remove i k l :
  i <> k ->
  find (fun j => Nat.eqb (id j) i) (_removeJob k l)
  = find (fun j => Nat.eqb (id j) i) l.
Proof.
  intros N. induction l as [|x l IH]; simpl; [reflexivity|].
  destruct (Nat.eqb_spec (id x) k) as [E|E]; simpl.
  - destruct (Nat.eqb_spec (id x) i); [congruence|reflexivity].
  - now rewrite IH.
Qed.

Lemma find_id_update i k f l :
  (forall x, id (f x) = id x) ->
  find (fun j => Nat.eqb (id j) i) (update_job k f l)
  = option_map (upd k f) (find (fun j => Nat.eqb (id j) i) l).
Proof.
  intros Hf. induction l as [|x l IH]; simpl; [reflexivity|].
  destruct (Nat.eqb_spec (id x) k) as [E|E]; simpl.
  - rewrite Hf. destruct (Nat.eqb_spec (id x) i) as [E'|E']; simpl.
    + unfold upd. now rewrite E, Nat.eqb_refl.
    + clear IH. induction l as [|y l IH]; simpl; [reflexivity|].
      destruct (Nat.eqb_spec (id y) i) as [Ey|Ey]; simpl; [|assumption].
      unfold upd. destruct (Nat.eqb_spec (id y) k); [congruence|reflexivity].
  - destruct (Nat.eqb_spec (id x) i) as [E'|E']; simpl; [|assumption].
    unfold upd. destruct (Nat.eqb_spec (id x) k); [contradiction|reflexivity].
Qed.

Lemma fresh_in_array w : Inv w -> ~ In (nextId w) (map id (jobs (queue w))).
Proof.
  intros I K. apply (Inv_fresh_id w I). rewrite !in_app_iff. auto.
Qed.

Lemma add_now t jo w :
  js_or (o_delay jo) 0 <= 0 ->
  add t jo w
  = emit (job_added (nextId w))
         (_process (enqueued (new_job t jo w) (set_nextId (S (nextId w)) w))).
Proof.
  intros D. unfold add. cbv zeta.
  replace (delay (new_job t jo w)) with (js_or (o_delay jo) 0) by reflexivity.
  apply Z.ltb_ge in D. now rewrite D.
Qed.

(** X6. A job whose type has no handler is accepted by [add] and fails at
    dispatch: when the queue is free to take it, [add] leaves the array as
    it was, counts one failure, retries nothing (not even under a
    [maxAttempts] above 1), and emits [job:start] and [job:failed] before
    [job:added]; the attempt is not counted. *)
Theorem job_without_handler_fails_at_dispatch :
  forall o es w t jo,
    run es (init o) = Some w ->
    has_handler t (queue w) = false ->
    paused (queue w) = false ->
    running (queue w) < concurrency (queue w) ->
    find is_pending (jobs (queue w)) = None ->
    js_or (o_delay jo) 0 <= 0 ->
    jobs (queue (add t jo w)) = jobs (queue w)
    /\ stats (queue (add t jo w)) = bump_failed (stats (queue w))
    /\ awaiting (add t jo w) = awaiting w
    /\ timers (add t jo w) = timers w
    /\ emitted (add t jo w)
       = (now w, job_added (nextId w)) :: (now w, job_failed (nextId w))
           :: (now w, job_start (nextId w) 0) :: emitted w.
Proof.
  intros o es w t jo R H P C F D.
  pose proof (Inv_reachable o es w R) as I.
  rewrite (add_now t jo w D).
  rewrite (process_takes _ (new_job t jo w)); auto.
  - replace (has_handler (type (new_job t jo w))
               (queue (enqueued (new_job t jo w) (set_nextId (S (nextId w)) w))))
      with (has_handler t (queue w)) by reflexivity.
    rewrite H. simpl. repeat split.
    apply (remove_insert (new_job t jo w)). now apply fresh_in_array.
  - simpl. now apply find_insert_first.
Qed.

Lemma job_without_handler_fails_at_dispatch_witness :
  exists w,
    run [e_process "send"] (init (mkOptions None None None)) = Some w
    /\ jobs (queue (add "print" (mkJobOptions None (Some 3) None None) w)) = []
    /\ stats (queue (add "print" (mkJobOptions None (Some 3) None None) w))
       = bump_failed (stats (queue w)).
Proof.
  eexists. split; [vm_compute; reflexivity|].
  split; [vm_compute; reflexivity|].
  refine (proj1 (proj2 (job_without_handler_fails_at_dispatch
            (mkOptions None None None) [e_process "send"] _ "print"
            (mkJobOptions None (Some 3) None None) _ _ _ _ _ _))).
  - vm_compute; reflexivity.
  - vm_compute; reflexivity.
  - vm_compute; reflexivity.
  - vm_compute; reflexivity.
  - vm_compute; reflexivity.
  - vm_compute. discriminate.
Defined.

Lemma find_id_fresh i l :
  ~ In i (map id l) -> find (fun j => Nat.eqb (id j) i) l = None.
Proof.
  intros H. destruct (find (fun j => Nat.eqb (id j) i) l) as [j|] eqn:F;
    [|reflexivity].
  apply find_some in F. destruct F as [Hin E]. apply Nat.eqb_eq in E.
  exfalso. apply H. rewrite <- E. now apply in_map.
Qed.

(** X7. The id [add] hands out finds the job, unless its handler has
    already thrown for the last time.  For a type with a handler and no
    delay: when the handler returns a promise, [getJob] returns the job
    right after [add], with the type and the options as given, either
    still Pending and not attempted or already Processing in its first
    attempt.  When the handler throws before it returns a promise, the
    catch block has run inside [add]: the job is Pending, not attempted or
    with one attempt and a retry to come, or it has failed and is gone, so
    that [getJob] finds nothing and one more failure is counted.  A delayed
    job is not found and leaves the array as it was. *)
Theorem added_job_is_found_by_its_id :
  forall o es w t jo,
    run es (init o) = Some w ->
    has_handler t (queue w) = true ->
    (js_or (o_delay jo) 0 <= 0 ->
     (throwing w = false ->
      exists j,
        getJob (nextId w) (queue (add t jo w)) = Some j
        /\ id j = nextId w /\ type j = t
        /\ priority j = js_or (o_priority jo) 0
        /\ maxAttempts j = js_or (o_maxAttempts jo) 1
        /\ ((status j = pending /\ attempts j = 0)
            \/ (status j = processing /\ attempts j = 1)))
     /\ (throwing w = true ->
         (exists j,
            getJob (nextId w) (queue (add t jo w)) = Some j
            /\ id j = nextId w /\ type j = t
            /\ priority j = js_or (o_priority jo) 0
            /\ maxAttempts j = js_or (o_maxAttempts jo) 1
            /\ status j = pending
            /\ (attempts j = 0 \/ (attempts j = 1 /\ 1 < maxAttempts j)))
         \/ (getJob (nextId w) (queue (add t jo w)) = None
             /\ js_or (o_maxAttempts jo) 1 <= 1
             /\ st_failed (stats (queue (add t jo w)))
                = st_failed (stats (queue w)) + 1)))
    /\ (0 < js_or (o_delay jo) 0 ->
        getJob (nextId w) (queue (add t jo w)) = None
        /\ jobs (queue (add t jo w)) = jobs (queue w)).
Proof.
  intros o es w t jo R H.
  pose proof (Inv_reachable o es w R) as I.
  pose proof (fresh_in_array w I) as Fr.
  split; intros D.
  - rewrite (add_now t jo w D). unfold getJob.
    set (nj := new_job t jo w).
    assert (Found : find (fun j => Nat.eqb (id j) (nextId w))
                         (_insertJob nj (jobs (queue w))) = Some nj)
      by (apply (find_id_insert nj); exact Fr).
    assert (Other : forall job,
              find is_pending (jobs (queue (enqueued nj (set_nextId (S (nextId w)) w))))
              = Some job ->
              has_handler (type job) (queue w) = false -> nextId w <> id job).
    { intros job Fd Hh K. apply find_pending in Fd. destruct Fd as [Hin _].
      simpl in Hin. apply in_insertJob in Hin. destruct Hin as [->|Hin].
      - unfold has_handler in *. simpl in Hh. congruence.
      - apply Fr. rewrite K. now apply in_map. }
    assert (Same : forall job,
              find is_pending (jobs (queue (enqueued nj (set_nextId (S (nextId w)) w))))
              = Some job ->
              id job = nextId w -> job = nj).
    { intros job Fd K. apply find_pending in Fd. destruct Fd as [Hin _].
      simpl in Hin. apply in_insertJob in Hin. destruct Hin as [->|Hin];
        [reflexivity|].
      exfalso. apply Fr. rewrite <- K. now apply in_map. }
    split; intros T.
    + destruct (process_cases_calm (enqueued nj (set_nextId (S (nextId w)) w)) T)
        as [E|(job & Fd & _ & _ & [[Hh E]|[Hh E]])];
        rewrite E; clear E.
      * exists nj. simpl. rewrite Found. repeat split. auto.
      * exists nj. simpl.
        rewrite (find_id_remove _ _ _ (Other job Fd Hh)), Found.
        repeat split. auto.
      * simpl. rewrite find_id_update by reflexivity. rewrite Found. simpl.
        exists (upd (id job) begun nj). split; [reflexivity|].
        unfold upd. destruct (Nat.eqb (id nj) (id job)); simpl; repeat split; auto.
    + destruct (process_cases (enqueued nj (set_nextId (S (nextId w)) w)))
        as [E|(job & Fd & _ & _ & [[Hh E]|[(_ & T' & _)|(Hh & _ & E)]])];
        [| |simpl in T'; congruence|]; rewrite E; clear E.
      * left. exists nj. simpl. rewrite Found. repeat split. auto.
      * left. exists nj. simpl.
        rewrite (find_id_remove _ _ _ (Other job Fd Hh)), Found.
        repeat split. auto.
      * unfold thrown.
        destruct (settle_cases (begun job) rejected
                    (taken job (enqueued nj (set_nextId (S (nextId w)) w))))
          as [[[=] _]|[(_ & A & ->)|(_ & A & ->)]].
        -- left. simpl. rewrite !find_id_update by reflexivity.
           rewrite Found. simpl.
           exists (upd (id job) (set_status pending) (upd (id job) begun nj)).
           split; [reflexivity|].
           destruct (Nat.eq_dec (id job) (nextId w)) as [K|K].
           ++ rewrite (Same job Fd K) in *.
              unfold upd. simpl. rewrite !Nat.eqb_refl. simpl.
              simpl in A. repeat split. right. split; lia.
           ++ unfold upd. simpl.
              destruct (Nat.eqb_spec (nextId w) (id job)); [congruence|].
              simpl.
              destruct (Nat.eqb_spec (nextId w) (id job)); [congruence|].
              simpl. repeat split. auto.
        -- simpl.
           destruct (Nat.eq_dec (id job) (nextId w)) as [K|K].
           ++ right. rewrite (Same job Fd K) in *.
              rewrite remove_update by reflexivity.
              rewrite (remove_insert nj) by exact Fr.
              rewrite (find_id_fresh _ _ Fr). simpl in A.
              repeat split; lia.
           ++ left.
              rewrite (find_id_remove _ _ _ (not_eq_sym K)).
              rewrite find_id_update by reflexivity. rewrite Found. simpl.
              exists (upd (id job) begun nj). split; [reflexivity|].
              unfold upd. simpl.
              destruct (Nat.eqb_spec (nextId w) (id job)); [congruence|].
              simpl. repeat split. auto.
  - unfold add. cbv zeta.
    replace (delay (new_job t jo w)) with (js_or (o_delay jo) 0) by reflexivity.
    apply Z.ltb_lt in D. rewrite D. unfold getJob. simpl. split; [|reflexivity].
    destruct (find (fun j => Nat.eqb (id j) (nextId w)) (jobs (queue w)))
      as [j|] eqn:Fj; [|reflexivity].
    apply find_some in Fj. destruct Fj as [Hin E]. apply Nat.eqb_eq in E.
    exfalso. apply Fr. rewrite <- E. now apply in_map.
Qed.

Lemma added_job_is_found_by_its_id_witness :
  exists w,
    run [e_process "send"; e_throwing true] (init (mkOptions None None None))
    = Some w
    /\ ((exists j,
           getJob (nextId w)
             (queue (add "send" (mkJobOptions (Some 4) (Some 2) None None) w))
           = Some j
           /\ id j = nextId w /\ type j = "send"%string
           /\ priority j = 4 /\ maxAttempts j = 2
           /\ status j = pending
           /\ (attempts j = 0 \/ (attempts j = 1 /\ 1 < maxAttempts j)))
        \/ (getJob (nextId w)
              (queue (add "send" (mkJobOptions (Some 4) (Some 2) None None) w))
            = None
            /\ 2 <= 1
            /\ st_failed (stats (queue
                 (add "send" (mkJobOptions (Some 4) (Some 2) None None) w)))
               = st_failed (stats (queue w)) + 1)).
Proof.
  eexists. split; [vm_compute; reflexivity|].
  refine (proj2 (proj1 (added_job_is_found_by_its_id
                  (mkOptions None None None)
                  [e_process "send"; e_throwing true]
                  _ "send" (mkJobOptions (Some 4) (Some 2) None None)
                  eq_refl eq_refl) _) eq_refl).
  vm_compute. discriminate.
Defined.

End QueueExtra.

(** * The queue of the main script *)

Module SenderProofs.
Import Queue QueueProofs QueueExtra.

Lemma event_one_class e : Sender.event e = true -> one_class 0 e = true.
Proof.
  destruct e as [| t o | | | | | | | |]; simpl; auto.
  rewrite andb_true_iff. intros [_ H].
  destruct o as [[?|] [?|] [?|] [?|]]; try discriminate. reflexivity.
Qed.

Lemma event_no_clear e : Sender.event e = true -> negb (is_clear e) = true.
Proof. destruct e; simpl; auto. Qed.

Lemma forallb_impl {A} (p q : A -> bool) l :
  (forall x, p x = true -> q x = true) ->
  forallb p l = true -> forallb q l = true.
Proof.
  intros H. induction l as [|x l IH]; simpl; auto.
  rewrite !andb_true_iff. intros [Hx Hl]. auto.
Qed.

Lemma completed_process w :
  st_completed (stats (queue (_process w))) = st_completed (stats (queue w)).
Proof.
  destruct (process_cases w)
    as [->|(job & _ & _ & _ & [[_ ->]|[(_ & _ & ->)|(_ & _ & ->)]])];
    try reflexivity.
  unfold thrown.
  destruct (settle_cases (begun job) rejected (taken job w))
    as [[[=] _]|[(_ & _ & ->)|(_ & _ & ->)]]; reflexivity.
Qed.

Lemma never_completed es : forall w w',
  Inv w -> forallb Sender.event es = true -> run es w = Some w' ->
  st_completed (stats (queue w)) = 0 -> st_completed (stats (queue w')) = 0.
Proof.
  intros w w' I Hes R Z0.
  refine (run_preserves (fun w => st_completed (stats (queue w)) = 0) Sender.event
            _ _ _ _ _ _ _ _ es w w' I Z0 Hes R).
  - intros w0 w1 H0 _ Es _ _ _ _. now rewrite Es.
  - intros w0 _ H0 _. now rewrite completed_process.
  - intros w0 i job d o _ H0 _ Ho.
    destruct (settle_cases job o (set_awaiting (remove_awaiting i (awaiting w0)) w0))
      as [[-> _]|[(_ & _ & ->)|(_ & _ & ->)]];
      [destruct Ho; discriminate|exact H0|exact H0].
  - intros t o w0 _ H0 _ _. exact H0.
  - intros t o w0 _ H0 _ _. exact H0.
  - intros w0 n due job _ H0 _. exact H0.
  - intros w0 n due _ H0 _. exact H0.
  - intros w0 _ _ [=].
Qed.

Lemma Inv_start : Inv Sender.start.
Proof.
  apply (Inv_step (e_process Sender.jobType) (init Sender.options)).
  - apply Inv_init.
  - reflexivity.
Qed.

(** X8. No message handed to [zeromqSendMessage] is ever reported as
    sent.  The handler registered by the main script never resolves, so
    every race ends by rejection or by the 1 ms timeout: nothing completes,
    nothing is retried, each message is counted as failed or is still in
    the array; at most one is under way, and they are taken in the order
    in which they were handed over. *)
Theorem outgoing_messages_never_complete :
  forall es w,
    forallb Sender.event es = true ->
    run es Sender.start = Some w ->
    r_completed (getStats (queue w)) = 0
    /\ r_retried (getStats (queue w)) = 0
    /\ Z.of_nat (added es)
       = r_failed (getStats (queue w)) + r_total (getStats (queue w))
    /\ (List.length (awaiting w) <= 1)%nat
    /\ StronglySorted (fun later earlier => (earlier < later)%nat) (started w).
Proof.
  intros es w Hes R.
  pose proof Inv_start as I0.
  assert (K0 : Kept Sender.start)
    by (apply Kept_same with (w := init Sender.options);
        [apply Kept_init|reflexivity..]).
  assert (F0 : Fifo 0 Sender.start)
    by (apply Fifo_same with (w := init Sender.options);
        [apply Fifo_init|reflexivity..]).
  pose proof (Inv_run es _ _ I0 R) as I.
  pose proof (Kept_run es _ _ I0 K0 (forallb_impl _ _ _ event_no_clear Hes) R)
    as [_ K].
  pose proof (Fifo_run 0 es _ _ I0 F0 (forallb_impl _ _ _ event_one_class Hes) R)
    as [C H T O S A F Rt].
  pose proof (never_completed es _ _ I0 Hes R eq_refl) as Cz.
  pose proof (nextId_run es _ _ R) as N. simpl in N.
  pose proof (run_concurrency es _ _ R) as Cc. simpl in Cc.
  unfold getStats. simpl. repeat split; auto.
  - unfold delayed_ids in K. rewrite T, Cz in K. simpl in K. lia.
  - pose proof (inv_running w I) as Rn. pose proof (inv_limit w I) as Lm.
    rewrite Cc in Lm. lia.
Qed.

Lemma outgoing_messages_never_complete_witness :
  exists w,
    run [e_add Sender.jobType (mkJobOptions None None None None);
         e_add Sender.jobType (mkJobOptions None None None None);
         e_advance 1; e_settle 0 timed_out; e_microtask]
        Sender.start = Some w
    /\ started w = [1%nat; 0%nat]
    /\ r_failed (getStats (queue w)) = 1
    /\ r_completed (getStats (queue w)) = 0.
Proof.
  eexists. split; [vm_compute; reflexivity|].
  split; [vm_compute; reflexivity|].
  split; [vm_compute; reflexivity|].
  refine (proj1 (outgoing_messages_never_complete
            [e_add Sender.jobType (mkJobOptions None None None None);
             e_add Sender.jobType (mkJobOptions None None None None);
             e_advance 1; e_settle 0 timed_out; e_microtask] _ _ _)).
  - vm_compute; reflexivity.
  - vm_compute; reflexivity.
Defined.

End SenderProofs.

(** * The job queue: priority, then order of arrival *)

Module QueueOrder.
Import Queue QueueProofs QueueExtra.

(** *** What [_process] starts *)

Lemma started_settle job o w : started (_executeJob_settle job o w) = started w.
Proof.
  destruct (settle_cases job o w) as [[_ ->]|[(_ & _ & ->)|(_ & _ & ->)]];
    reflexivity.
Qed.

Lemma started_process w job :
  paused (queue w) = false ->
  running (queue w) < concurrency (queue w) ->
  find is_pending (jobs (queue w)) = Some job ->
  started (_process w) = id job :: started w.
Proof.
  intros P C F. rewrite (process_takes w job P C F).
  destruct (has_handler (type job) (queue w)); [destruct (throwing w)|];
    try reflexivity.
  unfold thrown. now rewrite started_settle.
Qed.

Lemma find_before {A} (p : A -> bool) m1 m2 x y :
  find p (m1 ++ m2) = Some x -> In y m1 -> p y = true -> In x m1.
Proof.
  induction m1 as [|z m1 IH]; simpl; [tauto|].
  intros F [->|Hy] Py.
  - rewrite Py in F. injection F as ->. now left.
  - destruct (p z); [injection F as ->; now left|]. right. eauto.
Qed.

(** The job [_process] takes has no Pending job in front of it. *)
Lemma picked_in_front l job a :
  NoDup (map id l) -> find is_pending l = Some job ->
  before_in a (id job) (map id l) ->
  (forall j, In j l -> id j = a -> status j = pending) -> False.
Proof.
  intros ND F (l1 & l2 & E & Ha & Hb) Hp.
  apply map_eq_app in E. destruct E as (m1 & m2 & -> & <- & <-).
  apply in_map_iff in Ha. destruct Ha as (y & Ey & Hy).
  assert (Py : is_pending y = true).
  { unfold is_pending. rewrite (Hp y); [reflexivity| |exact Ey].
    apply in_or_app. now left. }
  pose proof (find_before _ _ _ _ _ F Hy Py) as Hj.
  rewrite map_app in ND. apply NoDup_app_inv in ND.
  destruct ND as (_ & _ & Disjoint).
  apply (Disjoint (id job)); [now apply in_map|assumption].
Qed.

Lemma higher_in_front l a b :
  by_priority l -> In a l -> In b l -> priority b < priority a ->
  before_in (id a) (id b) (map id l).
Proof.
  intros S Ha Hb L. apply in_split in Hb. destruct Hb as (m1 & m2 & ->).
  destruct (by_priority_split _ _ _ S) as [_ F2].
  apply in_app_or in Ha. destruct Ha as [Ha|[->|Ha]].
  - exists (map id m1), (map id (b :: m2)). rewrite map_app. repeat split.
    + now apply in_map.
    + simpl. now left.
  - lia.
  - rewrite Forall_forall in F2. specialize (F2 a Ha). lia.
Qed.

Lemma first_pending_is_best l job :
  by_priority l -> find is_pending l = Some job ->
  forall y, In y l -> status y = pending ->
    y = job
    \/ (priority y <= priority job /\ before_in (id job) (id y) (map id l)).
Proof.
  intros S F y Hy Py. destruct (find_split _ _ _ F) as (b & a & -> & _ & Fb).
  destruct (by_priority_split _ _ _ S) as [_ F2].
  apply in_app_or in Hy. destruct Hy as [Hy|[->|Hy]].
  - rewrite Forall_forall in Fb. specialize (Fb y Hy).
    unfold is_pending in Fb. rewrite Py in Fb. discriminate.
  - now left.
  - right. split.
    + rewrite Forall_forall in F2. auto.
    + exists (map id (b ++ [job])), (map id a).
      rewrite <- map_app, <- app_assoc. simpl. repeat split.
      * apply in_map, in_or_app. right. now left.
      * now apply in_map.
Qed.

Lemma some_pending l x :
  In x l -> status x = pending -> exists job, find is_pending l = Some job.
Proof.
  intros Hx Px. destruct (find is_pending l) as [job|] eqn:F; [now exists job|].
  exfalso. pose proof (find_none _ _ F x Hx) as K.
  unfold is_pending in K. rewrite Px in K. discriminate.
Qed.

(** *** Two waiting jobs *)

Lemma Waiting_moved a b w w' :
  Waiting a b w ->
  (nextId w <= nextId w')%nat ->
  (forall i, In i (await_ids w') -> In i (await_ids w) \/ (i <> a /\ i <> b)) ->
  (forall i, In i (delayed_ids w') -> In i (delayed_ids w) \/ (i <> a /\ i <> b)) ->
  (forall j, In j (jobs (queue w')) ->
             In j (jobs (queue w)) \/ (id j <> a /\ id j <> b)) ->
  (before_in a b (job_ids w) -> In b (job_ids w') -> before_in a b (job_ids w')) ->
  Waiting a b w'.
Proof.
  intros [[Ka Kb] Fr Pe Or] N A D J B. constructor.
  - lia.
  - intros i Hi. destruct (Fr i Hi) as [F1 F2]. split; intros K.
    + destruct (A i K) as [K'|[K1 K2]]; [tauto|]. destruct Hi; congruence.
    + destruct (D i K) as [K'|[K1 K2]]; [tauto|]. destruct Hi; congruence.
  - intros j Hj Ej. destruct (J j Hj) as [K|[K1 K2]]; [now apply Pe|].
    destruct Ej; congruence.
  - intros Hb. apply B; [|assumption]. apply Or.
    unfold job_ids in Hb. apply in_map_iff in Hb. destruct Hb as (j & Ej & Hj).
    destruct (J j Hj) as [K|[K1 K2]]; [|congruence].
    rewrite <- Ej. unfold job_ids. now apply in_map.
Qed.

Lemma Waiting_same a b w w' :
  Waiting a b w ->
  jobs (queue w') = jobs (queue w) -> awaiting w' = awaiting w ->
  timers w' = timers w -> nextId w' = nextId w -> Waiting a b w'.
Proof.
  intros W J A T N. apply (Waiting_moved a b w); auto.
  - lia.
  - unfold await_ids. rewrite A. auto.
  - unfold delayed_ids. rewrite T. auto.
  - rewrite J. auto.
  - unfold job_ids. rewrite J. auto.
Qed.

Lemma Ordered_keep a b old w w' :
  Ordered a b old w -> started w' = started w ->
  (Waiting a b w -> Waiting a b w') -> Ordered a b old w'.
Proof.
  intros (l & E & H) S K. exists l. split; [congruence|].
  destruct H as [(Na & Nb & W)|H]; [left|right]; auto.
Qed.

Lemma Ordered_start a b old w w' i :
  Ordered a b old w -> started w' = i :: started w ->
  (Waiting a b w -> i <> b /\ (i <> a -> Waiting a b w')) ->
  Ordered a b old w'.
Proof.
  intros (l & E & H) S K. exists (i :: l). split; [rewrite S, E; reflexivity|].
  destruct H as [(Na & Nb & W)|(l1 & l2 & -> & N)].
  - destruct (K W) as [Nib Kw]. destruct (Nat.eq_dec i a) as [->|Nia].
    + right. exists l, []. split; [reflexivity|assumption].
    + left. simpl. split; [tauto|]. split; [tauto|auto].
  - right. exists l1, (i :: l2). split; [reflexivity|assumption].
Qed.

Lemma in_update_other i f l j :
  NoDup (map id l) -> (forall x, id (f x) = id x) ->
  In j (update_job i f l) -> In j l \/ id j = i.
Proof.
  intros ND Hf Hj. apply in_update_job in Hj; [|assumption].
  destruct Hj as (j0 & Hj0 & ->). unfold upd.
  destruct (Nat.eqb_spec (id j0) i) as [E|E]; [right|left; assumption].
  now rewrite Hf.
Qed.

Lemma before_in_remove a b i l :
  NoDup (map id l) -> a <> i -> b <> i ->
  before_in a b (map id l) -> before_in a b (map id (_removeJob i l)).
Proof.
  intros ND Na Nb B. rewrite removeJob_ids by assumption.
  apply before_in_filter; [assumption| |].
  - destruct (Nat.eqb_spec a i); [contradiction|reflexivity].
  - destruct (Nat.eqb_spec b i); [contradiction|reflexivity].
Qed.

Lemma before_in_insertJob a b job l :
  before_in a b (map id l) -> before_in a b (map id (_insertJob job l)).
Proof.
  intros B. destruct (insertJob_ids job l) as (l1 & l2 & E1 & E2).
  rewrite E2. apply before_in_insert. now rewrite <- E1.
Qed.

Lemma Waiting_removed a b w w' i :
  Inv w -> Waiting a b w -> i <> a -> i <> b ->
  jobs (queue w') = _removeJob i (jobs (queue w)) ->
  (forall k, In k (await_ids w') -> In k (await_ids w)) ->
  delayed_ids w' = delayed_ids w -> nextId w' = nextId w ->
  Waiting a b w'.
Proof.
  intros I W Na Nb J A D N. pose proof (Inv_jobs_nodup w I) as ND.
  apply (Waiting_moved a b w); auto.
  - lia.
  - rewrite D. auto.
  - rewrite J. intros j Hj. left. now apply in_removeJob in Hj.
  - unfold job_ids. rewrite J. intros B _.
    apply before_in_remove; auto.
Qed.

Lemma Waiting_updated a b w w' i f :
  Inv w -> Waiting a b w -> i <> a -> i <> b ->
  (forall x, id (f x) = id x) ->
  jobs (queue w') = update_job i f (jobs (queue w)) ->
  (forall k, In k (await_ids w') -> In k (await_ids w) \/ k = i) ->
  delayed_ids w' = delayed_ids w -> nextId w' = nextId w ->
  Waiting a b w'.
Proof.
  intros I W Na Nb Hf J A D N. pose proof (Inv_jobs_nodup w I) as ND.
  apply (Waiting_moved a b w); auto.
  - lia.
  - intros k Hk. destruct (A k Hk) as [K| ->]; auto.
  - rewrite D. auto.
  - rewrite J. intros j Hj.
    destruct (in_update_other i f _ j ND Hf Hj) as [K|K]; [auto|].
    right. rewrite K. auto.
  - unfold job_ids. rewrite J, update_job_ids by assumption. auto.
Qed.

Lemma Waiting_inserted a b w w' job :
  Waiting a b w -> id job <> a -> id job <> b ->
  jobs (queue w') = _insertJob job (jobs (queue w)) ->
  awaiting w' = awaiting w ->
  (forall k, In k (delayed_ids w') -> In k (delayed_ids w)) ->
  (nextId w <= nextId w')%nat ->
  Waiting a b w'.
Proof.
  intros W Na Nb J A D N.
  apply (Waiting_moved a b w); auto.
  - unfold await_ids. rewrite A. auto.
  - rewrite J. intros j Hj. apply in_insertJob in Hj.
    destruct Hj as [->|Hj]; auto.
  - unfold job_ids. rewrite J. intros B _. now apply before_in_insertJob.
Qed.

Lemma Ordered_same a b old w w' :
  Ordered a b old w ->
  jobs (queue w') = jobs (queue w) -> stats (queue w') = stats (queue w) ->
  awaiting w' = awaiting w -> timers w' = timers w ->
  nextId w' = nextId w -> started w' = started w -> Ordered a b old w'.
Proof.
  intros O J _ A T N S. apply (Ordered_keep a b old w); auto.
  intros W. now apply (Waiting_same a b w).
Qed.

Lemma Ordered_process a b old w :
  Inv w -> Ordered a b old w -> throwing w = false ->
  Ordered a b old (_process w).
Proof.
  intros I O Calm. pose proof (Inv_jobs_nodup w I) as ND.
  destruct (process_cases_calm w Calm)
    as [->|(job & F & _ & _ & E)]; [assumption|].
  assert (Nb : Waiting a b w -> id job <> b).
  { intros W K. apply (picked_in_front (jobs (queue w)) job a ND F).
    - rewrite K. apply (wt_order a b w W). rewrite <- K.
      apply find_pending in F. destruct F as [Hin _].
      unfold job_ids. now apply in_map.
    - intros j Hj Ej. apply (wt_pending a b w W j Hj). now left. }
  destruct E as [[_ ->]|[_ ->]].
  - apply (Ordered_start a b old w (dropped job w) (id job) O eq_refl).
    intros W. split; [now apply Nb|]. intros Na.
    apply (Waiting_removed a b w _ (id job)); auto.
  - apply (Ordered_start a b old w (dispatched job w) (id job) O eq_refl).
    intros W. split; [now apply Nb|]. intros Na.
    apply (Waiting_updated a b w _ (id job) begun); auto.
    unfold await_ids. simpl. intros k. rewrite map_app, in_app_iff. simpl.
    intros [K|[<-|[]]]; auto.
Qed.

Lemma Ordered_settle a b old w i job d o :
  Inv w -> Ordered a b old w ->
  find_awaiting i (awaiting w) = Some (job, d) ->
  Ordered a b old
    (_executeJob_settle job o (set_awaiting (remove_awaiting i (awaiting w)) w)).
Proof.
  intros I O Fa. apply (Ordered_keep a b old w _ O); [now rewrite started_settle|].
  intros W. apply held_in_awaiting in Fa. destruct Fa as [Ei Hin].
  pose proof (in_await_ids w job d Hin) as Hid.
  assert (Na : id job <> a)
    by (intros E; apply (proj1 (wt_free a b w W a (or_introl eq_refl)));
        now rewrite <- E).
  assert (Nb : id job <> b)
    by (intros E; apply (proj1 (wt_free a b w W b (or_intror eq_refl)));
        now rewrite <- E).
  assert (Rest : forall k,
            In k (map (fun p : Job * Z => id (fst p))
                      (remove_awaiting i (awaiting w))) ->
            In k (await_ids w)).
  { intros k Hk. apply in_map_iff in Hk. destruct Hk as (x & <- & Hx).
    apply in_remove_awaiting in Hx. unfold await_ids.
    now apply (in_map (fun p : Job * Z => id (fst p))). }
  destruct (settle_cases job o (set_awaiting (remove_awaiting i (awaiting w)) w))
    as [[_ ->]|[(_ & _ & ->)|(_ & _ & ->)]].
  - apply (Waiting_removed a b w _ (id job)); auto.
  - apply (Waiting_updated a b w _ (id job) (set_status pending)); auto.
    unfold delayed_ids. simpl. apply delayed_ids_snoc_process.
  - apply (Waiting_removed a b w _ (id job)); auto.
Qed.

Lemma in_delayed_ids w n due job :
  nth_error (timers w) n = Some (due, cb_delayed job) ->
  In (id job) (delayed_ids w).
Proof.
  intros Hn. apply nth_error_In in Hn. unfold delayed_ids.
  apply in_flat_map. exists (due, cb_delayed job). split; [assumption|].
  simpl. now left.
Qed.

Lemma delayed_ids_removed n l k :
  In k (flat_map delayed_id (remove_nth n l)) -> In k (flat_map delayed_id l).
Proof.
  rewrite !in_flat_map. intros (x & Hx & Hk). exists x. split; [|assumption].
  now apply in_remove_nth in Hx.
Qed.

Lemma forallb_any (es : list Event) : forallb (fun _ => true) es = true.
Proof. induction es; simpl; auto. Qed.

Lemma Ordered_run a b old es w w' :
  Inv w -> Ordered a b old w -> run es w = Some w' -> Ordered a b old w'.
Proof.
  intros I O R.
  refine (run_preserves (Ordered a b old) (fun _ => true)
            (Ordered_same a b old) (Ordered_process a b old)
            _ _ _ _ _ _ es w w' I O (forallb_any es) R).
  - intros w0 i job d0 o0 I0 O0 Fa _. now apply Ordered_settle with (d := d0).
  - intros t o w0 I0 O0 _ _. apply Ordered_keep with (w := w0); [exact O0|reflexivity|].
    intros W. pose proof (wt_known a b w0 W) as [Ka Kb].
    apply (Waiting_inserted a b w0 _ (new_job t o w0)); simpl; auto; lia.
  - intros t o w0 I0 O0 _ _. apply Ordered_keep with (w := w0); [exact O0|reflexivity|].
    intros W. pose proof (wt_known a b w0 W) as [Ka Kb].
    apply (Waiting_moved a b w0); simpl; auto.
    unfold delayed_ids. simpl. intros k. rewrite flat_map_app, in_app_iff.
    simpl. intros [K|[<-|[]]]; [now left|right; lia].
  - intros w0 n due job I0 O0 Hn. apply Ordered_keep with (w := w0); [exact O0|reflexivity|].
    intros W. pose proof (in_delayed_ids w0 n due job Hn) as Hd.
    apply (Waiting_inserted a b w0 _ (ready job)); simpl; auto.
    + intros E. apply (proj2 (wt_free a b w0 W a (or_introl eq_refl))).
      now rewrite <- E.
    + intros E. apply (proj2 (wt_free a b w0 W b (or_intror eq_refl))).
      now rewrite <- E.
    + intros k. apply delayed_ids_removed.
  - intros w0 n due I0 O0 Hn. apply Ordered_keep with (w := w0); [exact O0|reflexivity|].
    intros W. apply (Waiting_moved a b w0); simpl; auto.
    intros k Hk. left. now apply delayed_ids_removed in Hk.
  - intros w0 I0 O0 _. apply Ordered_keep with (w := w0); [exact O0|reflexivity|].
    intros W. apply (Waiting_moved a b w0); simpl; auto.
    intros j [].
Qed.

(** Two Pending jobs of the array, one in front of the other, wait. *)
Lemma Ordered_from w a b :
  Inv w -> In a (jobs (queue w)) -> In b (jobs (queue w)) ->
  status a = pending -> status b = pending ->
  before_in (id a) (id b) (job_ids w) ->
  Ordered (id a) (id b) (started w) w.
Proof.
  intros I Ha Hb Pa Pb B. exists []. split; [reflexivity|]. left.
  split; [simpl; tauto|]. split; [simpl; tauto|].
  pose proof (Inv_jobs_nodup w I) as ND.
  assert (Known : forall x, In x (jobs (queue w)) -> (id x < nextId w)%nat).
  { intros x Hx. apply (inv_fresh w I). rewrite !in_app_iff. right. left.
    unfold job_ids. now apply in_map. }
  assert (Free : forall x, In x (jobs (queue w)) -> status x = pending ->
                           ~ In (id x) (await_ids w) /\ ~ In (id x) (delayed_ids w)).
  { intros x Hx Px. split; [now apply pending_not_held|].
    intros K. pose proof (inv_nodup w I) as N. apply NoDup_app_inv in N.
    destruct N as (_ & _ & Disjoint). apply (Disjoint (id x) K).
    unfold job_ids. now apply in_map. }
  constructor.
  - split; auto.
  - intros i [->| ->]; auto.
  - intros j Hj [E|E].
    + now rewrite (same_id_same_job _ j a ND Hj Ha E).
    + now rewrite (same_id_same_job _ j b ND Hj Hb E).
  - auto.
Qed.

Lemma Ordered_result a b old w :
  Ordered a b old w -> exists l, started w = l ++ old /\ starts_first a b l.
Proof.
  intros (l & E & H). exists l. split; [assumption|]. intros Hb.
  destruct H as [(_ & Nb & _)|(l1 & l2 & -> & N)]; [contradiction|].
  now exists l1, l2.
Qed.

(** The job that has just been put into the array, against a Pending job
    that was there. *)
Lemma Ordered_enqueued w W x job :
  Inv w -> Inv W ->
  jobs (queue W) = _insertJob job (jobs (queue w)) ->
  started W = started w ->
  In x (jobs (queue w)) -> status x = pending -> status job = pending ->
  (priority job <= priority x -> Ordered (id x) (id job) (started w) W)
  /\ (priority x < priority job -> Ordered (id job) (id x) (started w) W).
Proof.
  intros I IW J S Hx Px Pj.
  assert (Hx' : In x (jobs (queue W))) by (rewrite J; apply in_insertJob; auto).
  assert (Hj' : In job (jobs (queue W))) by (rewrite J; apply in_insertJob; auto).
  rewrite <- S. split; intros L; apply Ordered_from; auto; unfold job_ids.
  - rewrite J.
    destruct (insertJob_sorted_split job _ (inv_sorted w I))
      as (bf & af & E1 & E2 & F1 & F2).
    rewrite E2. rewrite E1 in Hx. apply in_app_or in Hx.
    destruct Hx as [Hx|Hx].
    + exists (map id bf), (map id (job :: af)). rewrite map_app.
      repeat split; [now apply in_map|simpl; now left].
    + rewrite Forall_forall in F2. specialize (F2 x Hx). lia.
  - apply higher_in_front; auto. apply (inv_sorted W IW).
Qed.

(** C8.  A job that becomes ready, in [add] or when the timer of its delay
    fires, is put behind every job of equal or higher priority and in
    front of every job of lower priority, and [_process] is called on the
    array so extended.  On a free queue [_process] emits [job:start] for a
    Pending job that no Pending job outranks and that stands in front of
    every other Pending job.  So, whatever happens next: of two Pending
    jobs, the one of lower priority, or at equal priority the one further
    back, is not started unless the other has been started before; a job
    put into the array is not started before a Pending job of at least its
    priority that was there, and is started before any Pending job of
    lower priority. *)
Theorem ready_job_goes_by_priority_then_arrival :
  forall o es w,
    run es (init o) = Some w ->
    (forall t jo,
        js_or (o_delay jo) 0 <= 0 ->
        add t jo w
        = emit (job_added (nextId w))
            (_process (enqueued (new_job t jo w) (set_nextId (S (nextId w)) w)))
        /\ exists before after,
             jobs (queue w) = before ++ after
             /\ jobs (queue (enqueued (new_job t jo w)
                               (set_nextId (S (nextId w)) w)))
                = before ++ new_job t jo w :: after
             /\ Forall (fun j => js_or (o_priority jo) 0 <= priority j) before
             /\ Forall (fun j => priority j < js_or (o_priority jo) 0) after)
    /\ (forall n due job,
          nth_error (timers w) n = Some (due, cb_delayed job) ->
          due <= now w ->
          step (e_timer n) w
          = Some (_process (enqueued (ready job)
                              (set_timers (remove_nth n (timers w)) w)))
          /\ exists before after,
               jobs (queue w) = before ++ after
               /\ jobs (queue (enqueued (ready job)
                                 (set_timers (remove_nth n (timers w)) w)))
                  = before ++ ready job :: after
               /\ Forall (fun j => priority job <= priority j) before
               /\ Forall (fun j => priority j < priority job) after)
    /\ (paused (queue w) = false ->
        running (queue w) < concurrency (queue w) ->
        forall x, In x (jobs (queue w)) -> status x = pending ->
        exists job,
          In job (jobs (queue w)) /\ status job = pending
          /\ started (_process w) = id job :: started w
          /\ forall y, In y (jobs (queue w)) -> status y = pending ->
               y = job
               \/ (priority y <= priority job
                   /\ before_in (id job) (id y) (job_ids w)))
    /\ (forall a b es' w',
          In a (jobs (queue w)) -> In b (jobs (queue w)) ->
          status a = pending -> status b = pending ->
          priority b < priority a \/ before_in (id a) (id b) (job_ids w) ->
          run es' w = Some w' ->
          exists l, started w' = l ++ started w /\ starts_first (id a) (id b) l)
    /\ (forall x t jo es' w',
          In x (jobs (queue w)) -> status x = pending ->
          js_or (o_delay jo) 0 <= 0 ->
          run (e_add t jo :: es') w = Some w' ->
          exists l,
            started w' = l ++ started w
            /\ (js_or (o_priority jo) 0 <= priority x ->
                starts_first (id x) (nextId w) l)
            /\ (priority x < js_or (o_priority jo) 0 ->
                starts_first (nextId w) (id x) l))
    /\ (forall x n due job es' w',
          In x (jobs (queue w)) -> status x = pending ->
          nth_error (timers w) n = Some (due, cb_delayed job) ->
          run (e_timer n :: es') w = Some w' ->
          exists l,
            started w' = l ++ started w
            /\ (priority job <= priority x -> starts_first (id x) (id job) l)
            /\ (priority x < priority job -> starts_first (id job) (id x) l)).
Proof.
  intros o es w Hr. pose proof (Inv_reachable _ _ _ Hr) as I.
  pose proof (inv_sorted w I) as Srt.
  split; [|split; [|split; [|split; [|split]]]].
  - intros t jo D. split; [now apply add_now|].
    destruct (insertJob_sorted_split (new_job t jo w) _ Srt)
      as (bf & af & E1 & E2 & F1 & F2).
    exists bf, af. repeat split; assumption.
  - intros n due job Hn Hd. split.
    + simpl. rewrite Hn. apply Z.leb_le in Hd. now rewrite Hd.
    + destruct (insertJob_sorted_split (ready job) _ Srt)
        as (bf & af & E1 & E2 & F1 & F2).
      exists bf, af. repeat split; assumption.
  - intros P C x Hx Px.
    destruct (some_pending _ x Hx Px) as (job & F).
    exists job. destruct (find_pending _ _ F) as [Hin Hst].
    split; [assumption|]. split; [assumption|].
    split; [now apply started_process|].
    now apply first_pending_is_best.
  - intros a b es' w' Ha Hb Pa Pb Hab R.
    apply Ordered_result. apply (Ordered_run _ _ _ es' w w' I); [|assumption].
    apply Ordered_from; auto.
    destruct Hab as [L|B]; [|assumption]. now apply higher_in_front.
  - intros x t jo es' w' Hx Px D R. simpl in R.
    pose proof (Inv_enqueued t jo w I) as IW.
    destruct (Ordered_enqueued w
                (enqueued (new_job t jo w) (set_nextId (S (nextId w)) w))
                x (new_job t jo w) I IW eq_refl eq_refl Hx Px eq_refl)
      as [O1 O2].
    assert (Q : forall a b,
              Ordered a b (started w)
                (enqueued (new_job t jo w) (set_nextId (S (nextId w)) w)) ->
              exists l, started w' = l ++ started w /\ starts_first a b l).
    { intros a b O0. apply Ordered_result.
      apply (Ordered_run _ _ _ es' (add t jo w) w'); [now apply Inv_add| |exact R].
      rewrite (add_now t jo w D).
      match goal with
      | |- Ordered _ _ _ (emit _ ?y) =>
          apply (Ordered_same a b (started w) y); try reflexivity
      end.
      apply (P_process (Ordered a b (started w)) (fun _ => true)
               (Ordered_same a b (started w)) (Ordered_process a b (started w)));
        auto.
      intros w0 i job d0 o0 I0 O' Fa _. now apply Ordered_settle with (d := d0). }
    destruct (Z.le_gt_cases (js_or (o_priority jo) 0) (priority x)) as [L|L].
    + destruct (Q _ _ (O1 L)) as (l & E & Sf). exists l.
      split; [assumption|]. split; [intros _; exact Sf|intros L'; lia].
    + destruct (Q _ _ (O2 L)) as (l & E & Sf). exists l.
      split; [assumption|]. split; [intros L'; simpl in L'; lia|intros _; exact Sf].
  - intros x n due job es' w' Hx Px Hn R. simpl in R. rewrite Hn in R.
    destruct (due <=? now w); [|discriminate].
    pose proof (Inv_ready w n due job I Hn) as IW.
    assert (I1 : Inv (delayed_ready job (set_timers (remove_nth n (timers w)) w)))
      by (apply (Inv_timer w n due (cb_delayed job) I Hn)).
    destruct (Ordered_enqueued w
                (enqueued (ready job) (set_timers (remove_nth n (timers w)) w))
                x (ready job) I IW eq_refl eq_refl Hx Px eq_refl)
      as [O1 O2].
    assert (Q : forall a b,
              Ordered a b (started w)
                (enqueued (ready job) (set_timers (remove_nth n (timers w)) w)) ->
              exists l, started w' = l ++ started w /\ starts_first a b l).
    { intros a b O0. apply Ordered_result.
      apply (Ordered_run _ _ _ es' _ w' I1); [|exact R].
      apply (P_process (Ordered a b (started w)) (fun _ => true)
               (Ordered_same a b (started w)) (Ordered_process a b (started w)));
        auto.
      intros w0 i job0 d0 o0 I0 O' Fa _. now apply Ordered_settle with (d := d0). }
    destruct (Z.le_gt_cases (priority job) (priority x)) as [L|L].
    + destruct (Q _ _ (O1 L)) as (l & E & Sf). exists l.
      split; [assumption|]. split; [intros _; exact Sf|intros L'; lia].
    + destruct (Q _ _ (O2 L)) as (l & E & Sf). exists l.
      split; [assumption|]. split; [intros L'; simpl in L'; lia|intros _; exact Sf].
Qed.

Lemma ready_job_goes_by_priority_then_arrival_witness :
  exists w w',
    run [e_process "send";
         e_add "send" (mkJobOptions (Some 1) None None None);
         e_add "send" (mkJobOptions (Some 1) None None None);
         e_add "send" (mkJobOptions (Some 5) None None None)]
        (init (mkOptions None None None)) = Some w
    /\ run [e_settle 0 resolved; e_microtask; e_settle 2 resolved; e_microtask]
           w = Some w'
    /\ map (fun j => (id j, priority j, status j)) (jobs (queue w))
       = [(2%nat, 5, pending); (0%nat, 1, processing); (1%nat, 1, pending)]
    /\ started w = [0%nat]
    /\ started w' = [1%nat; 2%nat; 0%nat]
    /\ exists l, started w' = l ++ started w /\ starts_first 2 1 l.
Proof.
  eexists. eexists. split; [vm_compute; reflexivity|].
  split; [vm_compute; reflexivity|].
  split; [vm_compute; reflexivity|].
  split; [vm_compute; reflexivity|].
  split; [vm_compute; reflexivity|].
  refine (proj1 (proj2 (proj2 (proj2
            (ready_job_goes_by_priority_then_arrival
               (mkOptions None None None)
               [e_process "send";
                e_add "send" (mkJobOptions (Some 1) None None None);
                e_add "send" (mkJobOptions (Some 1) None None None);
                e_add "send" (mkJobOptions (Some 5) None None None)]
               _ _))))
            (mkJob 2 "send" 5 0 1 30000 0 pending)
            (mkJob 1 "send" 1 0 1 30000 0 pending)
            [e_settle 0 resolved; e_microtask; e_settle 2 resolved; e_microtask]
            _ _ _ _ _ _ _).
  - vm_compute; reflexivity.
  - vm_compute. left. reflexivity.
  - vm_compute. right. right. left. reflexivity.
  - reflexivity.
  - reflexivity.
  - left. vm_compute. reflexivity.
  - vm_compute; reflexivity.
Defined.

End QueueOrder.

(** * The controller: frames, teardown and the capture *)

Module GripExtra.
Import Grip GripProofs.

(** *** The magnitude of a frame *)

Lemma In_range n b : 0 <= b < Z.of_nat n -> In b (map Z.of_nat (seq 0 n)).
Proof.
  intros H. apply in_map_iff. exists (Z.to_nat b). split; [lia|].
  apply in_seq. lia.
Qed.

Lemma checked_on_range (p : Z -> bool) n :
  forallb p (map Z.of_nat (seq 0 n)) = true ->
  forall b, 0 <= b < Z.of_nat n -> p b = true.
Proof.
  intros H b Hb. rewrite forallb_forall in H. now apply H, In_range.
Qed.

Lemma byte_digits b :
  is_byte b = true ->
  padStart 2 (hex_digit 0) (toString16 b)
  = String (hex_digit (b / 16)) (String (hex_digit (b mod 16)) EmptyString).
Proof.
  unfold is_byte. rewrite andb_true_iff, Z.leb_le, Z.ltb_lt. intros [L U].
  apply String.eqb_eq.
  apply (checked_on_range
           (fun b => String.eqb
                       (padStart 2 (hex_digit 0) (toString16 b))
                       (String (hex_digit (b / 16))
                               (String (hex_digit (b mod 16)) EmptyString)))
           256); [vm_compute; reflexivity|lia].
Qed.

Lemma digit_value_hex d : 0 <= d < 16 -> digit_value (hex_digit d) = Some d.
Proof.
  intros H.
  assert (K : (match digit_value (hex_digit d) with
               | Some x => x =? d
               | None => false
               end) = true).
  { apply (checked_on_range
             (fun d => match digit_value (hex_digit d) with
                       | Some x => x =? d
                       | None => false
                       end) 16); [vm_compute; reflexivity|lia]. }
  destruct (digit_value (hex_digit d)); [|discriminate].
  apply Z.eqb_eq in K. now subst.
Qed.

Lemma parse_four a b c d :
  0 <= a < 16 -> 0 <= b < 16 -> 0 <= c < 16 -> 0 <= d < 16 ->
  parseInt16 (String (hex_digit a) (String (hex_digit b)
               (String (hex_digit c) (String (hex_digit d) EmptyString))))
  = Some (((a * 16 + b) * 16 + c) * 16 + d).
Proof.
  intros Ha Hb Hc Hd. unfold parseInt16. simpl.
  now rewrite !digit_value_hex.
Qed.

(** X9. The magnitude the script spells out in hexadecimal is the
    big-endian number of bytes 3 and 4: for a frame whose bytes 3 and 4
    are bytes, [parseInt] of the four digits is [data[3] * 256 + data[4]],
    a number below 65536; and the frame written for a magnitude reads back
    as that magnitude. *)
Theorem frame_value_is_big_endian :
  forall data b3 b4,
    nth_error data 3 = Some b3 -> nth_error data 4 = Some b4 ->
    is_byte b3 = true -> is_byte b4 = true ->
    frame_value data = Some (decode data)
    /\ decode data = b3 * 256 + b4
    /\ 0 <= decode data < 65536
    /\ (forall v, 0 <= v < 65536 -> frame_value (frame v) = Some v).
Proof.
  assert (Main : forall data b3 b4,
             nth_error data 3 = Some b3 -> nth_error data 4 = Some b4 ->
             is_byte b3 = true -> is_byte b4 = true ->
             frame_value data = Some (decode data)
             /\ decode data = b3 * 256 + b4 /\ 0 <= decode data < 65536).
  { intros data b3 b4 H3 H4 B3 B4.
    assert (D : decode data = b3 * 256 + b4).
    { unfold decode.
      rewrite (nth_error_nth data 3 0 H3), (nth_error_nth data 4 0 H4).
      reflexivity. }
    unfold frame_value. rewrite H3, H4, (byte_digits b3 B3), (byte_digits b4 B4).
    unfold is_byte in B3, B4.
    rewrite andb_true_iff, Z.leb_le, Z.ltb_lt in B3, B4.
    pose proof (Z.div_mod b3 16 ltac:(lia)) as E3.
    pose proof (Z.div_mod b4 16 ltac:(lia)) as E4.
    pose proof (Z.mod_pos_bound b3 16 ltac:(lia)) as M3.
    pose proof (Z.mod_pos_bound b4 16 ltac:(lia)) as M4.
    assert (0 <= b3 / 16 < 16)
      by (split; [apply Z.div_pos; lia|apply Z.div_lt_upper_bound; lia]).
    assert (0 <= b4 / 16 < 16)
      by (split; [apply Z.div_pos; lia|apply Z.div_lt_upper_bound; lia]).
    simpl String.append. rewrite parse_four by assumption.
    rewrite D. split; [f_equal; lia|]. split; [reflexivity|lia]. }
  intros data b3 b4 H3 H4 B3 B4.
  destruct (Main data b3 b4 H3 H4 B3 B4) as (V & D & R).
  repeat split; try assumption; try lia.
  intros v Hv.
  assert (0 <= v / 256 < 256)
    by (split; [apply Z.div_pos; lia|apply Z.div_lt_upper_bound; lia]).
  pose proof (Z.mod_pos_bound v 256 ltac:(lia)) as Mv.
  destruct (Main (frame v) (v / 256) (v mod 256) eq_refl eq_refl) as (V' & D' & _).
  - unfold is_byte. apply andb_true_iff. rewrite Z.leb_le, Z.ltb_lt. lia.
  - unfold is_byte. apply andb_true_iff. rewrite Z.leb_le, Z.ltb_lt. lia.
  - rewrite V', D'. f_equal. pose proof (Z.div_mod v 256 ltac:(lia)). lia.
Qed.

Lemma frame_value_is_big_endian_witness :
  frame_value [255; 255; 254; 13; 172; 0; 0; 0; 0; 0; 64] = Some 3500
  /\ decode [255; 255; 254; 13; 172; 0; 0; 0; 0; 0; 64] = 3500.
Proof.
  destruct (frame_value_is_big_endian
              [255; 255; 254; 13; 172; 0; 0; 0; 0; 0; 64] 13 172
              eq_refl eq_refl eq_refl eq_refl) as (V & D & _).
  split; [exact V|exact D].
Defined.

(** *** Teardown, the port and the timers *)

Lemma endAlgorithm_timers error errorMessage s :
  timers (endAlgorithm error errorMessage s)
  = timers (clearTimeout (algorithmTimeout s) s)
  /\ timeoutForStartSampling (endAlgorithm error errorMessage s)
     = timeoutForStartSampling s
  /\ files (endAlgorithm error errorMessage s)
     = files s ++ [tempFile (endAlgorithm error errorMessage s)]
  /\ fsCallbacks (endAlgorithm error errorMessage s) = S (fsCallbacks s).
Proof. teardown_cases error s; repeat split; reflexivity. Qed.

Lemma endAlgorithm_error_port error errorMessage s :
  truthy error = true ->
  port (endAlgorithm error errorMessage s) = None
  /\ (forall p, port s = Some p ->
        parser (endAlgorithm error errorMessage s) = false
        /\ written (endAlgorithm error errorMessage s) = written s ++ [DeviceOff]
        /\ writeCallbacks (endAlgorithm error errorMessage s)
           = writeCallbacks s ++ [DeviceOff]).
Proof.
  teardown_cases error s; intros T; try discriminate T;
    (split; [reflexivity|]); intros q Hq; try discriminate Hq;
    repeat split; reflexivity.
Qed.

Lemma endAlgorithm_normal_port error errorMessage s :
  truthy error = false ->
  port (endAlgorithm error errorMessage s) = port s
  /\ parser (endAlgorithm error errorMessage s) = parser s
  /\ messages (tempFile (endAlgorithm error errorMessage s))
     = messages (tempFile s)
  /\ (forall p, port s = Some p ->
        written (endAlgorithm error errorMessage s) = written s ++ [SamplingOff]
        /\ writeCallbacks (endAlgorithm error errorMessage s)
           = writeCallbacks s ++ [SamplingOff]).
Proof.
  teardown_cases error s; intros T; try discriminate T;
    (split; [reflexivity|]); (split; [reflexivity|]); (split; [reflexivity|]);
    intros q Hq; try discriminate Hq; repeat split; reflexivity.
Qed.

(** X10. What a teardown does besides resetting the session.  It clears
    the overall deadline and no other timer, and hands one snapshot of the
    temp file to [writeFile].  With an error it writes DeviceOff to the
    port it holds and lets go of the port and its parser; without one it
    keeps the port and the parser, records no message and writes
    SamplingOff. *)
Theorem teardown_releases_the_port_on_error_only :
  forall error errorMessage s,
    timers (endAlgorithm error errorMessage s)
    = timers (clearTimeout (algorithmTimeout s) s)
    /\ files (endAlgorithm error errorMessage s)
       = files s ++ [tempFile (endAlgorithm error errorMessage s)]
    /\ fsCallbacks (endAlgorithm error errorMessage s) = S (fsCallbacks s)
    /\ (truthy error = true ->
        port (endAlgorithm error errorMessage s) = None
        /\ forall p, port s = Some p ->
             parser (endAlgorithm error errorMessage s) = false
             /\ written (endAlgorithm error errorMessage s)
                = written s ++ [DeviceOff])
    /\ (truthy error = false ->
        port (endAlgorithm error errorMessage s) = port s
        /\ parser (endAlgorithm error errorMessage s) = parser s
        /\ messages (tempFile (endAlgorithm error errorMessage s))
           = messages (tempFile s)
        /\ forall p, port s = Some p ->
             written (endAlgorithm error errorMessage s)
             = written s ++ [SamplingOff]).
Proof.
  intros error errorMessage s.
  destruct (endAlgorithm_timers error errorMessage s) as (T & _ & F & C).
  split; [exact T|]. split; [exact F|]. split; [exact C|]. split; intros H.
  - destruct (endAlgorithm_error_port error errorMessage s H) as [P W].
    split; [exact P|]. intros p Hp. destruct (W p Hp) as (A & B & _). auto.
  - destruct (endAlgorithm_normal_port error errorMessage s H) as (P & Q & M & W).
    repeat split; auto. intros p Hp. now destruct (W p Hp).
Qed.

Lemma teardown_releases_the_port_on_error_only_witness :
  truthy (Some (err_code 3)) = true
  /\ port (endAlgorithm (Some (err_code 3)) None
             (set_port (Some (mkPort "COM3" true)) initial)) = None
  /\ written (endAlgorithm (Some (err_code 3)) None
                (set_port (Some (mkPort "COM3" true)) initial)) = [DeviceOff]
  /\ truthy None = false
  /\ written (endAlgorithm None None
                (set_port (Some (mkPort "COM3" true)) initial)) = [SamplingOff].
Proof.
  pose proof (teardown_releases_the_port_on_error_only
                (Some (err_code 3)) None
                (set_port (Some (mkPort "COM3" true)) initial))
    as (_ & _ & _ & E & _).
  pose proof (teardown_releases_the_port_on_error_only
                None None (set_port (Some (mkPort "COM3" true)) initial))
    as (_ & _ & _ & _ & N).
  destruct (E eq_refl) as [P W]. destruct (W _ eq_refl) as [_ Wr].
  destruct (N eq_refl) as (_ & _ & _ & Wn).
  split; [reflexivity|]. split; [exact P|]. split; [exact Wr|].
  split; [reflexivity|]. exact (Wn _ eq_refl).
Defined.

(** *** A start on an open port *)

Ltac open_state s :=
  destruct s as [mS tF sP eF po aT co fi sTM sM bl nu we wM wA tS tC sU mT
                 cbk nw tm nT wr wC li pa ch di fl fC].

(** X11. A [measureStart] that finds the port still open (as a finished
    measure leaves it) starts no search and opens nothing: it reports
    [device_found], arms the overall deadline, writes DeviceOff and
    arranges for the port to be closed 200 ms later, after which the port
    and its parser are gone. *)
Theorem start_on_open_port_switches_the_device_off :
  forall cfg s p,
    port s = Some p -> isOpen p = true ->
    channel (listenZmq cfg measureStart s) = channel s ++ [device_found]
    /\ written (listenZmq cfg measureStart s) = written s ++ [DeviceOff]
    /\ port (listenZmq cfg measureStart s) = port s
    /\ parser (listenZmq cfg measureStart s) = parser s
    /\ listings (listenZmq cfg measureStart s) = listings s
    /\ searchUsbInterval (listenZmq cfg measureStart s) = searchUsbInterval s
    /\ timers (listenZmq cfg measureStart s)
       = (timers s
          ++ [mkTimer (nextTimer s) (now s + timer_delay (config.timeout cfg))
                      None cb_detect_deadline])
         ++ [mkTimer (S (nextTimer s)) (now s + 200) None cb_close_port]
    /\ port (close_port_fired (listenZmq cfg measureStart s)) = None
    /\ parser (close_port_fired (listenZmq cfg measureStart s)) = false.
Proof.
  intros cfg s p Hp Ho. open_state s. simpl in Hp. subst po.
  destruct p as [pp op]. simpl in Ho. subst op.
  destruct sP, cbk; repeat split; reflexivity.
Qed.

Lemma start_on_open_port_switches_the_device_off_witness :
  channel (listenZmq example_config measureStart
             (set_port (Some (mkPort "COM3" true)) initial)) = [device_found]
  /\ written (listenZmq example_config measureStart
                (set_port (Some (mkPort "COM3" true)) initial)) = [DeviceOff].
Proof.
  pose proof (start_on_open_port_switches_the_device_off example_config
                (set_port (Some (mkPort "COM3" true)) initial)
                (mkPort "COM3" true) eq_refl eq_refl) as (C & W & _).
  split; [exact C|exact W].
Defined.

(** *** The baseline phase *)

Lemma candidate_form cfg data s :
  first s = true ->
  unset_or_destroyed (timeoutForStartSampling s) s = true ->
  config.baseline cfg < decode data ->
  checkResponse cfg data s
  = set_timeoutForStartSampling (Some (nextTimer s))
      (snd (schedule None (cb_confirm (decode data))
                     (config.baselineTimeSetting cfg)
                     (set_timeoutForCancelSamplingTimeout None
                        (clearTimeout (timeoutForCancelSamplingTimeout s) s)))).
Proof.
  intros Hf Hu Hv. unfold checkResponse. rewrite Hf, Hu.
  apply Z.ltb_lt in Hv. rewrite Hv. cbn [andb].
  destruct (timeoutForCancelSamplingTimeout s); reflexivity.
Qed.

Lemma candidate_timers cfg data s :
  first s = true ->
  unset_or_destroyed (timeoutForStartSampling s) s = true ->
  config.baseline cfg < decode data ->
  timers (checkResponse cfg data s)
  = without (timeoutForCancelSamplingTimeout s) (timers s)
    ++ [mkTimer (nextTimer s)
                (now s + timer_delay (config.baselineTimeSetting cfg))
                None (cb_confirm (decode data))]
  /\ timeoutForStartSampling (checkResponse cfg data s) = Some (nextTimer s)
  /\ timeoutForCancelSamplingTimeout (checkResponse cfg data s) = None
  /\ first (checkResponse cfg data s) = true
  /\ channel (checkResponse cfg data s) = channel s
  /\ weightArray (checkResponse cfg data s) = weightArray s
  /\ weightMax (checkResponse cfg data s) = weightMax s.
Proof.
  intros Hf Hu Hv. rewrite (candidate_form cfg data s Hf Hu Hv).
  destruct (timeoutForCancelSamplingTimeout s); repeat split; try reflexivity;
    exact Hf.
Qed.

Lemma confirm_fired_channel value s :
  channel (confirm_fired value s) = channel s ++ [baseline_ok].
Proof. unfold confirm_fired. now rewrite emitMessage_channel. Qed.

(** X12. The baseline that gets confirmed is the sample that started the
    confirmation.  A sample above the threshold that finds no confirmation
    under way drops the pending cancel, and schedules the confirmation
    with its own value; the samples above the threshold that follow change
    nothing, whatever their values; and when the timer fires, [baseline_ok]
    is emitted and the baseline is that first value. *)
Theorem confirmed_baseline_is_the_first_sample_above_threshold :
  forall cfg data s,
    first s = true ->
    unset_or_destroyed (timeoutForStartSampling s) s = true ->
    config.baseline cfg < decode data ->
    timers (checkResponse cfg data s)
    = without (timeoutForCancelSamplingTimeout s) (timers s)
      ++ [mkTimer (nextTimer s)
                  (now s + timer_delay (config.baselineTimeSetting cfg))
                  None (cb_confirm (decode data))]
    /\ timeoutForCancelSamplingTimeout (checkResponse cfg data s) = None
    /\ (forall later,
          Forall (fun d => config.baseline cfg < decode d) later ->
          fold_left (fun x d => checkResponse cfg d x) later
                    (checkResponse cfg data s)
          = checkResponse cfg data s)
    /\ baseline (confirm_fired (decode data) (checkResponse cfg data s))
       = decode data
    /\ first (confirm_fired (decode data) (checkResponse cfg data s)) = false
    /\ channel (confirm_fired (decode data) (checkResponse cfg data s))
       = channel s ++ [baseline_ok].
Proof.
  intros cfg data s Hf Hu Hv.
  destruct (candidate_timers cfg data s Hf Hu Hv) as (T & H & C & F & Ch & _).
  split; [exact T|]. split; [exact C|]. split.
  - intros later Hl. induction Hl as [|d later Hd _ IH]; simpl; [reflexivity|].
    rewrite (above_threshold_ignored_while_confirming cfg d _ (nextTimer s));
      auto.
    unfold _destroyed. rewrite T, existsb_app. simpl.
    now rewrite Nat.eqb_refl, orb_true_r.
  - destruct (confirm_fired_sets (decode data) (checkResponse cfg data s))
      as (_ & B & Fi & _).
    split; [exact B|]. split; [exact Fi|].
    now rewrite confirm_fired_channel, Ch.
Qed.

Lemma confirmed_baseline_is_the_first_sample_above_threshold_witness :
  first initial = true
  /\ baseline (confirm_fired (decode (frame 3500))
                 (checkResponse example_config (frame 3500) initial)) = 3500
  /\ fold_left (fun x d => checkResponse example_config d x)
               [frame 3600; frame 3700]
               (checkResponse example_config (frame 3500) initial)
     = checkResponse example_config (frame 3500) initial.
Proof.
  pose proof (confirmed_baseline_is_the_first_sample_above_threshold
                example_config (frame 3500) initial eq_refl eq_refl eq_refl)
    as (_ & _ & L & B & _).
  split; [reflexivity|]. split; [exact B|].
  apply L. repeat constructor.
Defined.

Lemma checkResponse_ignored cfg data s c :
  first s = true ->
  timeoutForCancelSamplingTimeout s = Some c ->
  decode data <= config.baseline cfg ->
  checkResponse cfg data s = s.
Proof.
  intros Hf Hc Hv. unfold checkResponse. rewrite Hf, Hc.
  apply Z.ltb_ge in Hv. rewrite Hv. cbn [andb unset]. now rewrite andb_false_r.
Qed.

Lemma cancel_fired_frame s :
  first (cancel_fired s) = first s
  /\ timeoutForCancelSamplingTimeout (cancel_fired s)
     = timeoutForCancelSamplingTimeout s
  /\ timeoutForStartSampling (cancel_fired s) = None
  /\ timers (cancel_fired s) = without (timeoutForStartSampling s) (timers s)
  /\ channel (cancel_fired s) = channel s ++ [baseline_stop 1001]
  /\ files (cancel_fired s) = files s
  /\ weightArray (cancel_fired s) = weightArray s
  /\ weightMax (cancel_fired s) = weightMax s.
Proof. open_state s. destruct tS, cbk; repeat split; reflexivity. Qed.

(** X13. [baseline_stop] ends no session and is not repeated: when the
    cancel timer fires it clears the confirmation, emits [baseline_stop]
    once, keeps the controller in the baseline phase and writes no temp
    file; as its own handle stays set, the samples at or below the
    threshold that follow are ignored, and nothing more is emitted until
    a sample above the threshold arrives. *)
Theorem after_baseline_stop_low_samples_are_ignored :
  forall cfg s c,
    first s = true ->
    timeoutForCancelSamplingTimeout s = Some c ->
    channel (cancel_fired s) = channel s ++ [baseline_stop 1001]
    /\ first (cancel_fired s) = true
    /\ files (cancel_fired s) = files s
    /\ timeoutForStartSampling (cancel_fired s) = None
    /\ timers (cancel_fired s) = without (timeoutForStartSampling s) (timers s)
    /\ (forall later,
          Forall (fun d => decode d <= config.baseline cfg) later ->
          fold_left (fun x d => checkResponse cfg d x) later (cancel_fired s)
          = cancel_fired s).
Proof.
  intros cfg s c Hf Hc.
  destruct (cancel_fired_frame s) as (F & C & H & T & Ch & Fl & _).
  split; [exact Ch|]. split; [congruence|]. split; [exact Fl|].
  split; [exact H|]. split; [exact T|].
  intros later Hl. induction Hl as [|d later Hd _ IH]; simpl; [reflexivity|].
  rewrite (checkResponse_ignored cfg d (cancel_fired s) c); auto; congruence.
Qed.

Lemma after_baseline_stop_low_samples_are_ignored_witness :
  first (checkResponse example_config (frame 2900) initial) = true
  /\ timeoutForCancelSamplingTimeout
       (checkResponse example_config (frame 2900) initial) = Some 0%nat
  /\ channel (cancel_fired (checkResponse example_config (frame 2900) initial))
     = [baseline_stop 1001]
  /\ fold_left (fun x d => checkResponse example_config d x)
               [frame 2800; frame 3000]
               (cancel_fired (checkResponse example_config (frame 2900) initial))
     = cancel_fired (checkResponse example_config (frame 2900) initial).
Proof.
  pose proof (after_baseline_stop_low_samples_are_ignored example_config
                (checkResponse example_config (frame 2900) initial) 0%nat
                eq_refl eq_refl) as (C & _ & _ & _ & _ & L).
  split; [reflexivity|]. split; [reflexivity|]. split; [exact C|].
  apply L. repeat constructor; vm_compute; discriminate.
Defined.

(** *** Stopping *)

Lemma In_without h t l :
  In t (without h l) <-> In t l /\ h <> Some (tid t).
Proof.
  destruct h as [i|]; simpl.
  - rewrite filter_In, negb_true_iff, Nat.eqb_neq. split; intros [A B]; split;
      auto; congruence.
  - split; [intros H; split; [assumption|discriminate]|tauto].
Qed.

Lemma stopMeasure_frame s p :
  port s = Some p ->
  timers (stopMeasure s)
  = without (searchUsbInterval s)
      (without (measurementTimeout s)
         (without (timeoutForCancelSamplingTimeout s)
            (without (timeoutForStartSampling s)
               (without (algorithmTimeout s) (timers s)))))
    ++ [mkTimer (nextTimer s) (now s + 500) None cb_stop]
  /\ written (stopMeasure s) = written s
  /\ port (stopMeasure s) = port s
  /\ channel (stopMeasure s) = channel s
  /\ files (stopMeasure s) = files s
  /\ first (stopMeasure s) = first s
  /\ baseline (stopMeasure s) = baseline s
  /\ weightArray (stopMeasure s) = weightArray s.
Proof.
  intros Hp. open_state s. simpl in Hp. subst po.
  destruct aT, tS, tC, mT, sU; repeat split; reflexivity.
Qed.

Lemma stop_fired_frame s p :
  port s = Some p ->
  written (stop_fired s) = written s ++ [DeviceOff]
  /\ port (close_port_fired (stop_fired s)) = None
  /\ parser (close_port_fired (stop_fired s)) = false
  /\ timers (stop_fired s)
     = timers s ++ [mkTimer (nextTimer s) (now s + 200) None cb_close_port].
Proof.
  intros Hp. open_state s. simpl in Hp. subst po. repeat split; reflexivity.
Qed.

(** X14. [stopMeasure] stops the timers and, when a port is held, the
    device; it ends no session.  None of the five timers the script keeps
    a handle of survives it; with a port, the one timer it adds switches
    the device off 500 ms later and has the port closed 200 ms after that.
    The phase, the baseline and the weights are left as they are, nothing
    is reported and no temp file is written. *)
Theorem stopMeasure_clears_timers_and_keeps_the_session :
  forall s p,
    port s = Some p ->
    (forall t, In t (timers (stopMeasure s)) ->
       t = mkTimer (nextTimer s) (now s + 500) None cb_stop
       \/ (In t (timers s)
           /\ algorithmTimeout s <> Some (tid t)
           /\ timeoutForStartSampling s <> Some (tid t)
           /\ timeoutForCancelSamplingTimeout s <> Some (tid t)
           /\ measurementTimeout s <> Some (tid t)
           /\ searchUsbInterval s <> Some (tid t)))
    /\ In (mkTimer (nextTimer s) (now s + 500) None cb_stop)
          (timers (stopMeasure s))
    /\ written (stopMeasure s) = written s
    /\ written (stop_fired (stopMeasure s)) = written s ++ [DeviceOff]
    /\ port (close_port_fired (stop_fired (stopMeasure s))) = None
    /\ parser (close_port_fired (stop_fired (stopMeasure s))) = false
    /\ channel (stopMeasure s) = channel s
    /\ files (stopMeasure s) = files s
    /\ first (stopMeasure s) = first s
    /\ baseline (stopMeasure s) = baseline s
    /\ weightArray (stopMeasure s) = weightArray s.
Proof.
  intros s p Hp.
  destruct (stopMeasure_frame s p Hp) as (T & W & P & Ch & Fl & Fi & Bl & Wa).
  assert (Hp' : port (stopMeasure s) = Some p) by congruence.
  destruct (stop_fired_frame (stopMeasure s) p Hp') as (W' & P' & Pa' & _).
  split; [|split; [|repeat split; auto; congruence]].
  - intros t Ht. rewrite T, in_app_iff in Ht. destruct Ht as [Ht|[<-|[]]]; auto.
    right. rewrite !In_without in Ht. tauto.
  - rewrite T, in_app_iff. right. left. reflexivity.
Qed.

Lemma stopMeasure_clears_timers_and_keeps_the_session_witness :
  port (set_port (Some (mkPort "COM3" true)) (startMeasure example_config initial))
  = Some (mkPort "COM3" true)
  /\ timers (stopMeasure
               (set_port (Some (mkPort "COM3" true))
                         (startMeasure example_config initial)))
     = [mkTimer 1 500 None cb_stop]
  /\ written (stop_fired
                (stopMeasure
                   (set_port (Some (mkPort "COM3" true))
                             (startMeasure example_config initial))))
     = [DeviceOff].
Proof.
  pose proof (stopMeasure_clears_timers_and_keeps_the_session
                (set_port (Some (mkPort "COM3" true))
                          (startMeasure example_config initial))
                (mkPort "COM3" true) eq_refl) as (_ & _ & _ & W & _).
  split; [reflexivity|]. split; [reflexivity|]. exact W.
Defined.

(** *** The capture *)











(** The primitive moves. *)
































(** The timers of the baseline phase and the frames. *)












(** *** A listing with more than one match *)

Lemma list_resolved_cons cfg d data s :
  list_resolved cfg (d :: data) s
  = list_resolved cfg data (if matching cfg d then found d s else s).
Proof. reflexivity. Qed.

Lemma found_frame d s :
  (forall q, port s = Some q -> isOpen q = false) ->
  channel (found d s) = channel s ++ [device_found]
  /\ socketPath (found d s) = Some (d_path d)
  /\ written (found d s) = written s
  /\ port (found d s) = match port s with
                        | Some q => Some q
                        | None => Some (mkPort (d_path d) false)
                        end
  /\ timers (found d s) = without (searchUsbInterval s) (timers s).
Proof.
  intros H. open_state s. destruct po as [[pp op]|].
  - specialize (H _ eq_refl). simpl in H. subst op.
    destruct cbk, sU; repeat split; reflexivity.
  - destruct cbk, sU; repeat split; reflexivity.
Qed.

Lemma last_cons {A} (a d : A) l : last (a :: l) d = last l a.
Proof.
  revert a d. induction l as [|b l IH]; intros a d; [reflexivity|].
  change (last (a :: b :: l) d) with (last (b :: l) d). now rewrite !IH.
Qed.

Lemma list_resolved_frame cfg data : forall s,
  (forall q, port s = Some q -> isOpen q = false) ->
  channel (list_resolved cfg data s)
  = channel s ++ map (fun _ => device_found) (filter (matching cfg) data)
  /\ socketPath (list_resolved cfg data s)
     = last (map (fun d => Some (d_path d)) (filter (matching cfg) data))
            (socketPath s)
  /\ written (list_resolved cfg data s) = written s
  /\ port (list_resolved cfg data s)
     = match port s with
       | Some q => Some q
       | None => match filter (matching cfg) data with
                 | [] => None
                 | d :: _ => Some (mkPort (d_path d) false)
                 end
       end.
Proof.
  induction data as [|d data IH]; intros s H.
  - change (list_resolved cfg [] s) with s.
    cbn [filter map last]. rewrite app_nil_r. repeat split.
    now destruct (port s).
  - rewrite list_resolved_cons. cbn [filter].
    destruct (matching cfg d); [|now apply IH].
    destruct (found_frame d s H) as (C & P & W & Po & _).
    destruct (IH (found d s)) as (C' & P' & W' & Po').
    { intros q Hq. rewrite Po in Hq. destruct (port s) as [q0|] eqn:E.
      - injection Hq as <-. now apply H.
      - now injection Hq as <-. }
    rewrite C', P', W', Po', C, P, W, Po. cbn [map].
    rewrite last_cons, <- app_assoc. repeat split.
    now destruct (port s).
Qed.

(** X16. A listing that names the device more than once.  Every device
    of the listing is tested; for each one that matches, [device_found] is
    emitted and its path remembered, but only the first finds no port
    held: the port is created on the path of the first match, the path
    kept in [socketPath] is that of the last, and nothing is written. *)
Theorem listing_opens_the_first_match_and_keeps_the_last_path :
  forall cfg data s,
    port s = None ->
    channel (list_resolved cfg data s)
    = channel s ++ map (fun _ => device_found) (filter (matching cfg) data)
    /\ port (list_resolved cfg data s)
       = match filter (matching cfg) data with
         | [] => None
         | d :: _ => Some (mkPort (d_path d) false)
         end
    /\ socketPath (list_resolved cfg data s)
       = last (map (fun d => Some (d_path d)) (filter (matching cfg) data))
              (socketPath s)
    /\ written (list_resolved cfg data s) = written s.
Proof.
  intros cfg data s Hp.
  destruct (list_resolved_frame cfg data s) as (C & P & W & Po).
  { intros q Hq. congruence. }
  rewrite Hp in Po. auto.
Qed.

Lemma listing_opens_the_first_match_and_keeps_the_last_path_witness :
  port initial = None
  /\ channel (list_resolved example_config
                [mkDevice "6015" "0403" "COM3"; mkDevice "0001" "0403" "COM4";
                 mkDevice "6015" "0403" "COM5"] initial)
     = [device_found; device_found]
  /\ port (list_resolved example_config
             [mkDevice "6015" "0403" "COM3"; mkDevice "0001" "0403" "COM4";
              mkDevice "6015" "0403" "COM5"] initial)
     = Some (mkPort "COM3" false)
  /\ socketPath (list_resolved example_config
                   [mkDevice "6015" "0403" "COM3"; mkDevice "0001" "0403" "COM4";
                    mkDevice "6015" "0403" "COM5"] initial)
     = Some "COM5"%string.
Proof.
  pose proof (listing_opens_the_first_match_and_keeps_the_last_path
                example_config
                [mkDevice "6015" "0403" "COM3"; mkDevice "0001" "0403" "COM4";
                 mkDevice "6015" "0403" "COM5"] initial eq_refl)
    as (C & P & S & _).
  split; [reflexivity|]. split; [exact C|]. split; [exact P|exact S].
Defined.

(** *** Opening the port *)

Lemma find_timer_snoc h (l : list Timer) t :
  Forall (fun u => tid u <> h) l -> tid t = h ->
  find (fun u => Nat.eqb (tid u) h) (l ++ [t]) = Some t.
Proof.
  induction 1 as [|x l Hx Hl IH]; simpl; intros E.
  - now rewrite E, Nat.eqb_refl.
  - destruct (Nat.eqb_spec (tid x) h); [contradiction|auto].
Qed.

Lemma filter_timer_snoc h (l : list Timer) t :
  Forall (fun u => tid u <> h) l -> tid t = h ->
  filter (fun u => negb (Nat.eqb (tid u) h)) (l ++ [t]) = l.
Proof.
  induction 1 as [|x l Hx Hl IH]; simpl; intros E.
  - now rewrite E, Nat.eqb_refl.
  - destruct (Nat.eqb_spec (tid x) h); [contradiction|]. simpl. now rewrite IH.
Qed.

Lemma without_fresh g h (l : list Timer) :
  Forall (fun u => tid u <> h) l -> Forall (fun u => tid u <> h) (without g l).
Proof.
  intros F. destruct g as [i|]; [|exact F]. simpl.
  rewrite Forall_forall in *. intros u Hu. apply filter_In in Hu. now apply F.
Qed.

Lemma port_opened_frame cfg s p :
  port s = Some p ->
  written (port_opened cfg s) = written s ++ [SamplingOff; GetCoef]
  /\ parser (port_opened cfg s) = parser s
  /\ port (port_opened cfg s) = port s
  /\ algorithmTimeout (port_opened cfg s) = algorithmTimeout s
  /\ now (port_opened cfg s) = now s
  /\ timers (port_opened cfg s)
     = timers s ++ [mkTimer (nextTimer s)
                            (now s + timer_delay (config.samplingDelay cfg))
                            None cb_sampling_on].
Proof.
  intros Hp. open_state s. simpl in Hp. subst po.
  repeat split; try reflexivity; simpl; now rewrite <- !app_assoc.
Qed.

(** The timer of the 'open' handler, in a state that still holds it. *)
Lemma sampling_timer_step cfg h d x dt :
  find (fun u => Nat.eqb (tid u) h) (timers x)
  = Some (mkTimer h d None cb_sampling_on) ->
  step cfg (e_fire h) (set_now dt x)
  = if d <=? dt
    then sampling_on_fired (clearTimeout (Some h) (set_now dt x))
    else None.
Proof.
  intros F. cbn [step].
  change (timers (set_now dt x)) with (timers x). rewrite F.
  cbn [due cb]. change (now (set_now dt x)) with dt.
  destruct (d <=? dt); reflexivity.
Qed.

Lemma sampling_on_fired_port x p :
  port x = Some p ->
  sampling_on_fired x = Some (sendCommand SamplingOn (set_parser true x))
  /\ written (sendCommand SamplingOn (set_parser true x))
     = written x ++ [SamplingOn]
  /\ parser (sendCommand SamplingOn (set_parser true x)) = true
  /\ timers (sendCommand SamplingOn (set_parser true x)) = timers x.
Proof.
  intros Hp. open_state x. simpl in Hp. subst po. repeat split.
Qed.

Lemma sampling_on_fired_dropped h n x :
  port x = None -> sampling_on_fired (clearTimeout (Some h) (set_now n x)) = None.
Proof. intros Hp. open_state x. simpl in Hp. subst po. reflexivity. Qed.

(** X17. The commands that follow the opening of the port, and when
    frames start to count.  On 'open' the controller writes SamplingOff
    and GetCoef and nothing else, leaves the parser as it is and arms one
    timer.  That timer cannot fire before the sampling delay has elapsed;
    when it fires, the parser is attached and SamplingOn written, so the
    three commands reach the port in this order.  If a teardown with an
    error has dropped the port in between, the timer is still armed, and
    when it fires [port.pipe] throws: the callback ends by an exception
    that nothing catches. *)
Theorem sampling_starts_after_the_delay_only :
  forall cfg s p,
    port s = Some p ->
    Forall (fun t => tid t <> nextTimer s) (timers s) ->
    written (port_opened cfg s) = written s ++ [SamplingOff; GetCoef]
    /\ parser (port_opened cfg s) = parser s
    /\ timers (port_opened cfg s)
       = timers s ++ [mkTimer (nextTimer s)
                              (now s + timer_delay (config.samplingDelay cfg))
                              None cb_sampling_on]
    /\ (forall dt,
          dt < timer_delay (config.samplingDelay cfg) ->
          step cfg (e_fire (nextTimer s))
               (set_now (now s + dt) (port_opened cfg s)) = None)
    /\ (forall dt,
          timer_delay (config.samplingDelay cfg) <= dt ->
          exists s',
            step cfg (e_fire (nextTimer s))
                 (set_now (now s + dt) (port_opened cfg s)) = Some s'
            /\ written s' = written s ++ [SamplingOff; GetCoef; SamplingOn]
            /\ parser s' = true
            /\ timers s' = timers s)
    /\ (forall error errorMessage dt,
          truthy error = true ->
          algorithmTimeout s <> Some (nextTimer s) ->
          timer_delay (config.samplingDelay cfg) <= dt ->
          port (endAlgorithm error errorMessage (port_opened cfg s)) = None
          /\ In (mkTimer (nextTimer s)
                         (now s + timer_delay (config.samplingDelay cfg))
                         None cb_sampling_on)
                (timers (endAlgorithm error errorMessage (port_opened cfg s)))
          /\ step cfg (e_fire (nextTimer s))
                  (set_now (now s + dt)
                     (endAlgorithm error errorMessage (port_opened cfg s)))
             = sampling_on_fired
                 (clearTimeout (Some (nextTimer s))
                    (set_now (now s + dt)
                       (endAlgorithm error errorMessage (port_opened cfg s))))
          /\ step cfg (e_fire (nextTimer s))
                  (set_now (now s + dt)
                     (endAlgorithm error errorMessage (port_opened cfg s)))
             = None).
Proof.
  intros cfg s p Hp Fr.
  destruct (port_opened_frame cfg s p Hp) as (W & Pa & Po & Al & Nw & T).
  assert (F : find (fun u => Nat.eqb (tid u) (nextTimer s))
                   (timers (port_opened cfg s))
              = Some (mkTimer (nextTimer s)
                        (now s + timer_delay (config.samplingDelay cfg))
                        None cb_sampling_on))
    by (rewrite T; now apply find_timer_snoc).
  split; [exact W|]. split; [exact Pa|]. split; [exact T|].
  split; [|split].
  - intros dt Hdt. rewrite (sampling_timer_step cfg _ _ _ _ F).
    destruct (Z.leb_spec (now s + timer_delay (config.samplingDelay cfg))
                         (now s + dt)); [lia|reflexivity].
  - intros dt Hdt. rewrite (sampling_timer_step cfg _ _ _ _ F).
    destruct (Z.leb_spec (now s + timer_delay (config.samplingDelay cfg))
                         (now s + dt)); [|lia].
    destruct (sampling_on_fired_port
                (clearTimeout (Some (nextTimer s))
                   (set_now (now s + dt) (port_opened cfg s))) p)
      as (E & W' & Pa' & T').
    { change (port (port_opened cfg s) = Some p). now rewrite Po. }
    rewrite E. eexists. split; [reflexivity|].
    rewrite W', T'. split; [|split; [exact Pa'|]].
    + change (written (port_opened cfg s) ++ [SamplingOn]
              = written s ++ [SamplingOff; GetCoef; SamplingOn]).
      rewrite W, <- app_assoc. reflexivity.
    + change (filter (fun u => negb (Nat.eqb (tid u) (nextTimer s)))
                     (timers (port_opened cfg s)) = timers s).
      rewrite T. now apply filter_timer_snoc.
  - intros error errorMessage dt Tr Hal Hdt.
    destruct (endAlgorithm_error_port error errorMessage (port_opened cfg s) Tr)
      as (Pn & _).
    destruct (endAlgorithm_timers error errorMessage (port_opened cfg s))
      as (Tm & _).
    assert (Tm' : timers (endAlgorithm error errorMessage (port_opened cfg s))
                  = without (algorithmTimeout s) (timers s)
                    ++ [mkTimer (nextTimer s)
                          (now s + timer_delay (config.samplingDelay cfg))
                          None cb_sampling_on]).
    { rewrite Tm, Al.
      destruct (algorithmTimeout s) as [h|] eqn:Ha; [|exact T].
      change (filter (fun t => negb (Nat.eqb (tid t) h))
                     (timers (port_opened cfg s))
              = without (Some h) (timers s)
                ++ [mkTimer (nextTimer s)
                      (now s + timer_delay (config.samplingDelay cfg))
                      None cb_sampling_on]).
      rewrite T, filter_app. simpl.
      destruct (Nat.eqb_spec (nextTimer s) h) as [E|E]; [|reflexivity].
      exfalso. apply Hal. now rewrite E. }
    assert (F' : find (fun u => Nat.eqb (tid u) (nextTimer s))
                      (timers (endAlgorithm error errorMessage (port_opened cfg s)))
                 = Some (mkTimer (nextTimer s)
                           (now s + timer_delay (config.samplingDelay cfg))
                           None cb_sampling_on))
      by (rewrite Tm'; apply find_timer_snoc; [now apply without_fresh|reflexivity]).
    assert (St : step cfg (e_fire (nextTimer s))
                   (set_now (now s + dt)
                      (endAlgorithm error errorMessage (port_opened cfg s)))
                 = sampling_on_fired
                     (clearTimeout (Some (nextTimer s))
                        (set_now (now s + dt)
                           (endAlgorithm error errorMessage (port_opened cfg s))))).
    { rewrite (sampling_timer_step cfg _ _ _ _ F').
      destruct (Z.leb_spec (now s + timer_delay (config.samplingDelay cfg))
                           (now s + dt)); [reflexivity|lia]. }
    split; [exact Pn|]. split.
    { rewrite Tm'. apply in_or_app. right. now left. }
    split; [exact St|].
    rewrite St. now apply sampling_on_fired_dropped.
Qed.

Lemma sampling_starts_after_the_delay_only_witness :
  port (set_port (Some (mkPort "COM3" true)) initial) = Some (mkPort "COM3" true)
  /\ timers (port_opened example_config
               (set_port (Some (mkPort "COM3" true)) initial))
     = [mkTimer 0 100 None cb_sampling_on]
  /\ step example_config (e_fire 0)
          (set_now 99 (port_opened example_config
                         (set_port (Some (mkPort "COM3" true)) initial)))
     = None
  /\ (exists s',
        step example_config (e_fire 0)
             (set_now 100 (port_opened example_config
                             (set_port (Some (mkPort "COM3" true)) initial)))
        = Some s'
        /\ written s' = [SamplingOff; GetCoef; SamplingOn]
        /\ parser s' = true
        /\ timers s' = [])
  /\ step example_config (e_fire 0)
          (set_now 100
             (endAlgorithm (Some (err_code 3)) None
                (port_opened example_config
                   (set_port (Some (mkPort "COM3" true)) initial))))
     = None.
Proof.
  pose proof (sampling_starts_after_the_delay_only example_config
                (set_port (Some (mkPort "COM3" true)) initial)
                (mkPort "COM3" true) eq_refl (Forall_nil _))
    as (_ & _ & T & Early & Late & Dropped).
  split; [reflexivity|]. split; [exact T|].
  split; [apply (Early 99); vm_compute; reflexivity|].
  split; [apply (Late 100); vm_compute; discriminate|].
  refine (proj2 (proj2 (proj2 (Dropped (Some (err_code 3)) None 100 eq_refl _ _)))).
  - discriminate.
  - vm_compute. discriminate.
Defined.

End GripExtra.
